(** * Rchess learner: the position-keyed statistics engine

    A shallow embedding of the learner class of the repository (the
    map-keyed learner, [RchessLearner] with [storageKey], and the older
    list-keyed learner of [learn.js]) and of the generator of random
    starting positions ([rchess-distribution.js]), with the properties the
    specification states about the learner and further properties of the
    code.

    Conventions of the embedding.
    - A JavaScript object used as a dictionary is an insertion-ordered
      association list ([JsObject.obj]): [for ... in], [Object.entries] and
      [Object.values] enumerate it in insertion order.  This is the order
      of the program for property names that are not array indices (those
      would be enumerated first): for the keys of the position store that
      is a lemma ([KeyFacts.hashPosition_own]), for opening keys a
      hypothesis where the order matters ([keysInOrder]), for move tokens a
      convention on what the caller supplies.
    - Reading a dictionary where the program tests the value read
      ([!openings[key]], [!pos.moves[move]], [map[type] || '?']) follows the
      prototype chain ([JsObject.lookup]): a name of [Object.prototype]
      that the dictionary does not own finds the inherited member.  The
      counters the program then increments land on that member; this is
      modelled as no change of the dictionary, and what it does to other
      objects (a move token [__proto__] makes every object inherit the
      counters) is not represented.  The position store is read with keys
      of [hashPosition], which are no such names, or with the key the caller
      gives to [getPositionStats] and [getMoveSuggestions], taken to be one
      of those.
    - Counters are natural numbers (they start at 0 and only change by
      [++]), taken to stay below 2^53.  Rates, scores, deviations and
      thresholds are IEEE doubles with each operation rounded to nearest,
      ties to even (module [Double]).
    - A string holds the UTF-8 text of the string of the program; the
      separator of the opening keys is spelled as the source file spells it.
    - A thrown exception is [None] (or an explicit flag) in the result.
    - Fields that are only written from the clock or the random generator
      and never read by the learner ([id], [startTime], [endTime],
      [timestamp], [firstSeen], [lastSeen], [players]) are left out of the
      typed records.  The [lastUpdated] stamp of [saveDatabase] is modelled
      where the store is an untyped value (module [Persistence]).
    - [Math.random()] is a function from the number of calls made so far to
      the value returned, a rational; the generator of starting positions
      (module [Distribution]) threads that number through.  Its values are
      taken to lie in [0, 1) where a statement depends on the random
      draws. *)

From Stdlib Require Import QArith Qabs Qminmax Qround Qpower Sorting.Sorted Permutation DecimalString Ascii String.
From stdpp Require Import gmap strings list.

Open Scope string_scope.
Open Scope list_scope.
Open Scope nat_scope.

(** ** JavaScript objects as ordered dictionaries *)

Module JsObject.

Definition obj (V : Type) : Type := list (string * V).

(** [o[k]]: the value of the own property [k], if any. *)
Fixpoint get {V : Type} (k : string) (o : obj V) : option V :=
  match o with
  | [] => None
  | (k', v) :: o' => if String.eqb k k' then Some v else get k o'
  end.

(** [o[k] = v]: an existing property keeps its place, a new one goes last. *)
Fixpoint set {V : Type} (k : string) (v : V) (o : obj V) : obj V :=
  match o with
  | [] => [(k, v)]
  | (k', v') :: o' =>
      if String.eqb k k' then (k, v) :: o' else (k', v') :: set k v o'
  end.

Definition entries {V : Type} (o : obj V) : list (string * V) := o.

Definition values {V : Type} (o : obj V) : list V := map snd o.

Definition keys {V : Type} (o : obj V) : list string := map fst o.

(** The names every object inherits from [Object.prototype]; reading one
    of them from a dictionary does not give [undefined]. *)
Definition inherited : list string :=
  ["constructor"; "hasOwnProperty"; "isPrototypeOf"; "propertyIsEnumerable";
   "toLocaleString"; "toString"; "valueOf"; "__proto__"; "__defineGetter__";
   "__defineSetter__"; "__lookupGetter__"; "__lookupSetter__"].

(** What [o[k]] finds along the prototype chain of an object literal: an
    own property, else a member of [Object.prototype], which is a function
    or the prototype object and so truthy, else nothing. *)
Inductive found (V : Type) :=
| Own (v : V)
| Inherited
| Missing.

Arguments Own {V} v.
Arguments Inherited {V}.
Arguments Missing {V}.

Definition lookup {V : Type} (k : string) (o : obj V) : found V :=
  match get k o with
  | Some v => Own v
  | None => if existsb (String.eqb k) inherited then Inherited else Missing
  end.

End JsObject.

Import JsObject.

(** ** Numbers *)

(** A counter read as a JavaScript number. *)
Definition num (n : nat) : Q := inject_Z (Z.of_nat n).

(** [a > b] on numbers. *)
Definition Qgtb (a b : Q) : bool := negb (Qle_bool a b).

(** [String(n)] for a counter, as [str += n] appends it. *)
Definition string_of_nat (n : nat) : string :=
  NilEmpty.string_of_uint (Nat.to_uint n).

(** ** Arithmetic on doubles

    A number of the program is an IEEE 754 binary64 value: every division,
    product, sum and difference is rounded to the nearest double, ties to
    the even significand.  A finite double is kept as the rational it
    denotes; the type holds every rational, so that a statement about every
    number of the type is one about every double, and the operations return
    doubles.  Two things are not represented.  The exponent range: the
    numbers met here are counters below 2^53, the literals [0.1], [0.5] and
    [20], and values at most four operations away from them, far from
    overflow and from the subnormal range.  The sign of zero: no division
    here has a computed zero as divisor (a divisor is a counter or [20]),
    and comparisons do not see it. *)

Module Double.
#[local] Open Scope Q_scope.

Inductive t :=
| NaN
| Infinity (negative : bool)
| Finite (q : Q).

Definition pow2 (k : Z) : Q := 2 ^ k.

(** [floor(log2 |q|)] of a nonzero [q]: the difference of the bit lengths
    of numerator and denominator, or one less. *)
Definition exponent (q : Q) : Z :=
  let e := (Z.log2 (Z.abs (Qnum q)) - Z.log2 (Zpos (Qden q)))%Z in
  if Qle_bool (pow2 e) (Qabs q) then e else (e - 1)%Z.

(** The integer nearest to [m], the even one of two that are equally
    near. *)
Definition nearestEven (m : Q) : Z :=
  let f := Qfloor m in
  match Qcompare (m - inject_Z f) (1 # 2) with
  | Lt => f
  | Gt => (f + 1)%Z
  | Eq => if Z.even f then f else (f + 1)%Z
  end.

(** The double nearest to [q]: [q] is scaled to a significand between 2^52
    and 2^53, which is rounded to an integer. *)
Definition round (q : Q) : Q :=
  if Qeq_bool q 0 then 0
  else
    let e := exponent q in
    let m := inject_Z (nearestEven (Qabs q * pow2 (52 - e))) in
    Qred ((if Qle_bool 0 q then m else - m) * pow2 (e - 52)).

(** A counter, and a decimal literal of the source. *)
Definition of_nat (n : nat) : t := Finite (num n).

Definition literal (q : Q) : t := Finite (round q).

Definition isNegative (q : Q) : bool := negb (Qle_bool 0 q).

Definition opp (a : t) : t :=
  match a with
  | NaN => NaN
  | Infinity s => Infinity (negb s)
  | Finite x => Finite (- x)
  end.

Definition add (a b : t) : t :=
  match a, b with
  | NaN, _ | _, NaN => NaN
  | Infinity s, Infinity s' => if Bool.eqb s s' then Infinity s else NaN
  | Infinity s, Finite _ | Finite _, Infinity s => Infinity s
  | Finite x, Finite y => Finite (round (x + y))
  end.

Definition sub (a b : t) : t := add a (opp b).

Definition mul (a b : t) : t :=
  match a, b with
  | NaN, _ | _, NaN => NaN
  | Infinity s, Infinity s' => Infinity (xorb s s')
  | Infinity s, Finite x | Finite x, Infinity s =>
      if Qeq_bool x 0 then NaN else Infinity (xorb s (isNegative x))
  | Finite x, Finite y => Finite (round (x * y))
  end.

Definition div (a b : t) : t :=
  match a, b with
  | NaN, _ | _, NaN => NaN
  | Infinity _, Infinity _ => NaN
  | Infinity s, Finite y => Infinity (xorb s (isNegative y))
  | Finite _, Infinity _ => Finite 0
  | Finite x, Finite y =>
      if Qeq_bool y 0
      then if Qeq_bool x 0 then NaN else Infinity (isNegative x)
      else Finite (round (x / y))
  end.

(** [Math.abs] *)
Definition abs (a : t) : t :=
  match a with
  | NaN => NaN
  | Infinity _ => Infinity false
  | Finite x => Finite (Qabs x)
  end.

(** [a > b]: false when either is [NaN]. *)
Definition gtb (a b : t) : bool :=
  match a, b with
  | NaN, _ | _, NaN => false
  | Infinity s, Infinity s' => negb s && s'
  | Infinity s, Finite _ => negb s
  | Finite _, Infinity s => s
  | Finite x, Finite y => Qgtb x y
  end.

(** [Math.max] *)
Definition max (a b : t) : t :=
  match a, b with
  | NaN, _ | _, NaN => NaN
  | _, _ => if gtb a b then a else b
  end.

(** The value of a finite double, 0 for the others. *)
Definition value (a : t) : Q :=
  match a with
  | Finite x => x
  | _ => 0
  end.

Definition isFinite (a : t) : Prop :=
  match a with
  | Finite _ => True
  | _ => False
  end.

(** What a sort makes of the number its comparator returns: [NaN] is read
    as 0, and of the rest only the sign matters. *)
Definition order (a : t) : Q :=
  match a with
  | NaN => 0
  | Infinity s => if s then -1 else 1
  | Finite x => x
  end.

End Double.

(** ** [Array.prototype.sort] with a comparator

    The sort is stable; with a consistent comparator its result is the one
    of the insertion sort below, whatever algorithm the engine runs.
    [cmp a b > 0] says that [a] goes after [b]; the number the comparator
    of the program returns is read through [Double.order].  A comparator
    that returns [NaN] for some pairs and not for others is not consistent,
    and the order the engine then produces is its own: the statements
    about an order are made where the numbers compared are finite. *)

Module JsArray.

Fixpoint insert {A : Type} (cmp : A -> A -> Q) (x : A) (l : list A) : list A :=
  match l with
  | [] => [x]
  | y :: l' => if Qgtb (cmp x y) 0 then y :: insert cmp x l' else x :: y :: l'
  end.

Fixpoint sort {A : Type} (cmp : A -> A -> Q) (l : list A) : list A :=
  match l with
  | [] => []
  | x :: l' => insert cmp x (sort cmp l')
  end.

(** [arr.join(sep)] on an array of strings. *)
Fixpoint join (sep : string) (l : list string) : string :=
  match l with
  | [] => EmptyString
  | [x] => x
  | x :: l' => x +:+ sep +:+ join sep l'
  end.

End JsArray.

(** ** [btoa]: base64 of a string of bytes (RFC 4648, with padding) *)

Module Base64.

Definition alphabet : list ascii :=
  list_ascii_of_string
    "ABCDEFGHIJKLMNOPQRSTUVWXYZabcdefghijklmnopqrstuvwxyz0123456789+/".

Definition pad : ascii := "="%char.

Definition digit (n : nat) : ascii := nth n alphabet pad.

Fixpoint encode (bytes : list nat) : list ascii :=
  match bytes with
  | [] => []
  | [a] => [digit (a / 4); digit ((a mod 4) * 16); pad; pad]
  | [a; b] =>
      [digit (a / 4); digit ((a mod 4) * 16 + b / 16);
       digit ((b mod 16) * 4); pad]
  | a :: b :: c :: rest =>
      digit (a / 4) :: digit ((a mod 4) * 16 + b / 16)
      :: digit ((b mod 16) * 4 + c / 64) :: digit (c mod 64)
      :: encode rest
  end.

Definition btoa (s : string) : list ascii :=
  encode (map nat_of_ascii (list_ascii_of_string s)).

End Base64.

(** ** Boards *)

Module Piece.
Record t := mk { type : string; pieceType : string; color : string }.
End Piece.

(** A board is an array of rows; a cell is a piece or empty ([null]). *)
Abbreviation board := (list (list (option Piece.t))).

(** [row[c]]: reading past the end of a row gives [undefined], which is
    falsy like an empty cell. *)
Definition cellAt (row : list (option Piece.t)) (c : nat) : option Piece.t :=
  nth c row None.

(** The inner loop shared by the three placement printers: [c] runs over
    the eight files, [empty] counts the run of empty cells, [code] prints a
    piece. *)
Fixpoint scanCells (code : Piece.t -> string) (cells : list (option Piece.t))
    (empty : nat) : string :=
  match cells with
  | [] => if 0 <? empty then string_of_nat empty else EmptyString
  | Some piece :: cells' =>
      (if 0 <? empty then string_of_nat empty else EmptyString)
      +:+ code piece +:+ scanCells code cells' 0
  | None :: cells' => scanCells code cells' (S empty)
  end.

Definition scanRow (code : Piece.t -> string) (row : list (option Piece.t)) : string :=
  scanCells code (map (cellAt row) (seq 0 8)) 0.

(** The outer loop: [r] runs over [rs]; [board[r]] must exist, reading a
    cell of a missing row throws. *)
Fixpoint scanRows (code : Piece.t -> string) (b : board) (rs : list nat)
    (str : string) : option string :=
  match rs with
  | [] => Some str
  | r :: rs' =>
      match b !! r with
      | None => None
      | Some row =>
          scanRows code b rs'
            (str +:+ scanRow code row +:+ (if r <? 7 then "/" else EmptyString))
      end
  end.

(** ** The map-keyed learner *)

Module Engine.

(** The text of a member of [Object.prototype] when it is appended to a
    string: the prototype object itself prints as [[object Object]], a
    built-in function as its source text.  Engines differ in the white space
    of that text after the parameter list; [hashPosition], the only reader,
    keeps six characters of its string, at most five of them from here. *)
Definition memberText (name : string) : string :=
  if String.eqb name "__proto__" then "[object Object]"
  else
    "function " +:+ (if String.eqb name "constructor" then "Object" else name)
    +:+ "() { [native code] }".

(** [pieceToChar]: [map[type] || '?'].  The table is an object literal, so
    a type outside the table that names a member of [Object.prototype]
    finds that member, and only the other types give ['?']. *)
Definition pieceToChar (type : string) : string :=
  if String.eqb type "pawn" then "p"
  else if String.eqb type "knight" then "n"
  else if String.eqb type "bishop" then "b"
  else if String.eqb type "rook" then "r"
  else if String.eqb type "queen" then "q"
  else if String.eqb type "king" then "k"
  else if existsb (String.eqb type) inherited then memberText type
  else "?".

Definition pieceCode (piece : Piece.t) : string :=
  (if String.eqb (Piece.color piece) "white" then "w" else "b")
  +:+ pieceToChar (Piece.pieceType piece).

(** [.replace(/[+/=]/g, '')] keeps the characters below. *)
Definition keySafe (c : ascii) : bool :=
  negb (Ascii.eqb c "+" || Ascii.eqb c "/" || Ascii.eqb c "=").

Definition hashPosition (b : board) (currentPlayer : string) : option string :=
  match scanRows pieceCode b (seq 0 8) EmptyString with
  | None => None
  | Some placement =>
      let str := placement +:+ (if String.eqb currentPlayer "white" then "w" else "b") in
      Some (string_of_list_ascii
              (List.filter keySafe (take 8 (Base64.btoa str))))
  end.

(** [boardToFEN]: the same walk, printing [piece.type]. *)
Definition boardToFEN (b : board) (currentPlayer : string) : option string :=
  match scanRows Piece.type b (seq 0 8) EmptyString with
  | None => None
  | Some fen =>
      Some (fen +:+ (if String.eqb currentPlayer "white" then " w" else " b"))
  end.

(** *** Pattern detection *)

(** [board[r][c]] where the row exists.  The heuristics that read the
    board read a cell of each of the eight rows, whatever they find, the
    [break] of [isKingSafe] leaving only its inner loop: they throw on a
    board with fewer than eight rows and run the scans below on the
    others. *)
Definition cell (b : board) (r c : nat) : option Piece.t :=
  match b !! r with
  | Some row => cellAt row c
  | None => None
  end.

(** [piece?.pieceType === type && piece?.color === color] *)
Definition isPiece (type color : string) (p : option Piece.t) : bool :=
  match p with
  | Some piece =>
      String.eqb (Piece.pieceType piece) type && String.eqb (Piece.color piece) color
  | None => false
  end.

Definition squares : list (nat * nat) :=
  r ← seq 0 8; c ← seq 0 8; [(r, c)].

(** [kingPos] is set. *)
Definition kingFound (b : board) (color : string) : bool :=
  existsb (fun rc => isPiece "king" color (cell b rc.1 rc.2)) squares.

(** [bishops.length >= 2] *)
Definition bishopPair (b : board) (color : string) : bool :=
  2 <=? length (List.filter (fun rc => isPiece "bishop" color (cell b rc.1 rc.2)) squares).

(** [pawnFiles.some(count => count > 1)] *)
Definition doubledPawns (b : board) (color : string) : bool :=
  existsb
    (fun c => 1 <? length (List.filter (fun r => isPiece "pawn" color (cell b r c)) (seq 0 8)))
    (seq 0 8).

Definition isKingSafe (b : board) (color : string) : option bool :=
  if length b <? 8 then None else Some (kingFound b color).

(** [controlsCenter] does not read the board. *)
Definition controlsCenter (b : board) (color : string) : bool := true.

Definition hasBishopPair (b : board) (color : string) : option bool :=
  if length b <? 8 then None else Some (bishopPair b color).

Definition hasDoubledPawns (b : board) (color : string) : option bool :=
  if length b <? 8 then None else Some (doubledPawns b color).

(** [detectPatterns]: [None] when a heuristic throws. *)
Definition detectPatterns (b : board) (currentPlayer : string) : option (list string) :=
  match isKingSafe b "white", isKingSafe b "black",
        hasBishopPair b "white", hasBishopPair b "black",
        hasDoubledPawns b "white", hasDoubledPawns b "black" with
  | Some whiteKing, Some blackKing, Some whiteBishops, Some blackBishops,
    Some whitePawns, Some blackPawns =>
      Some ((if whiteKing then ["white_king_safe"] else [])
            ++ (if blackKing then ["black_king_safe"] else [])
            ++ (if controlsCenter b "white" then ["white_center"] else [])
            ++ (if controlsCenter b "black" then ["black_center"] else [])
            ++ (if whiteBishops then ["white_bishop_pair"] else [])
            ++ (if blackBishops then ["black_bishop_pair"] else [])
            ++ (if whitePawns then ["white_doubled_pawns"] else [])
            ++ (if blackPawns then ["black_doubled_pawns"] else []))
  | _, _, _, _, _, _ => None
  end.

(** *** The store *)

Module MoveStats.
Record t := mk { played : nat; wins : nat; losses : nat; draws : nat }.
End MoveStats.

Module Outcomes.
Record t := mk { white : nat; black : nat; draw : nat }.
End Outcomes.

Module Position.
Record t := mk {
  hash : string;
  fen : string;
  totalGames : nat;
  outcomes : Outcomes.t;
  moves : obj MoveStats.t;
  patterns : list string;
  popularity : nat
}.
End Position.

(** An element of [game.positions]. *)
Module Ply.
Record t := mk { hash : string; move : option string; player : string }.
End Ply.

Module Game.
Record t := mk {
  positions : list Ply.t;
  moves : list string;
  result : option string
}.
End Game.

(** The database: [patterns], which stays [{}], and the [version] and
    [lastUpdated] of [metadata] are not kept. *)
Module Database.
Record t := mk {
  positions : obj Position.t;
  games : list Game.t;
  totalGames : nat   (* metadata.totalGames *)
}.
End Database.

Record learner := mkLearner {
  db : Database.t;
  currentGame : option Game.t
}.

(** The default empty database of [loadDatabase] and [reset]. *)
Definition emptyDatabase : Database.t := Database.mk [] [] 0.

(** A learner just constructed over an empty backing store. *)
Definition newLearner : learner := mkLearner emptyDatabase None.

(** [if (move)]: [null] and the empty string are falsy. *)
Definition truthy (move : option string) : option string :=
  match move with
  | Some m => if String.eqb m EmptyString then None else Some m
  | None => None
  end.

(** *** Game tracking *)

Definition newGame : Game.t := Game.mk [] [] None.

Definition startGame (st : learner) : learner :=
  mkLearner (db st) (Some newGame).

(** [pos.popularity++] (with [lastSeen], which is not kept). *)
Definition visit (pos : Position.t) : Position.t :=
  Position.mk (Position.hash pos) (Position.fen pos) (Position.totalGames pos)
    (Position.outcomes pos) (Position.moves pos) (Position.patterns pos)
    (S (Position.popularity pos)).

(** [updatePositionStats]: create the record on first sight, then count the
    visit.  [None] when building the new record throws. *)
Definition updatePositionStats (hash : string) (b : board) (currentPlayer : string)
    (d : Database.t) : option Database.t :=
  match get hash (Database.positions d) with
  | Some pos =>
      Some (Database.mk (set hash (visit pos) (Database.positions d))
              (Database.games d) (Database.totalGames d))
  | None =>
      match boardToFEN b currentPlayer with
      | None => None
      | Some fen =>
          match detectPatterns b currentPlayer with
          | None => None
          | Some patterns =>
              let pos := Position.mk hash fen 0 (Outcomes.mk 0 0 0) [] patterns 0 in
              Some (Database.mk (set hash (visit pos) (Database.positions d))
                      (Database.games d) (Database.totalGames d))
          end
      end
  end.

(** [recordPosition]: the learner afterwards and the hash returned; [None]
    when the call threw: in [hashPosition], after the implicit [startGame],
    or in [updatePositionStats], after the ply was pushed. *)
Definition recordPosition (b : board) (currentPlayer : string) (move : option string)
    (st : learner) : learner * option string :=
  let game :=
    match currentGame st with
    | Some game => game
    | None => newGame
    end in
  match hashPosition b currentPlayer with
  | None => (mkLearner (db st) (Some game), None)
  | Some hash =>
      let game' :=
        Game.mk (Game.positions game ++ [Ply.mk hash move currentPlayer])
          (match truthy move with
           | Some m => Game.moves game ++ [m]
           | None => Game.moves game
           end)
          (Game.result game) in
      match updatePositionStats hash b currentPlayer (db st) with
      | None => (mkLearner (db st) (Some game'), None)
      | Some d => (mkLearner d (Some game'), Some hash)
      end
  end.

(** [position.outcomes[result]++] under its guard. *)
Definition countOutcome (result : string) (o : Outcomes.t) : Outcomes.t :=
  if String.eqb result "white" then
    Outcomes.mk (S (Outcomes.white o)) (Outcomes.black o) (Outcomes.draw o)
  else if String.eqb result "black" then
    Outcomes.mk (Outcomes.white o) (S (Outcomes.black o)) (Outcomes.draw o)
  else if String.eqb result "draw" then
    Outcomes.mk (Outcomes.white o) (Outcomes.black o) (S (Outcomes.draw o))
  else o.

(** The body of [if (pos.move && position.moves[pos.move])]. *)
Definition countMove (result player : string) (moveStats : MoveStats.t) : MoveStats.t :=
  let played := S (MoveStats.played moveStats) in
  if String.eqb result player then
    MoveStats.mk played (S (MoveStats.wins moveStats)) (MoveStats.losses moveStats)
      (MoveStats.draws moveStats)
  else if String.eqb result "draw" then
    MoveStats.mk played (MoveStats.wins moveStats) (MoveStats.losses moveStats)
      (S (MoveStats.draws moveStats))
  else
    MoveStats.mk played (MoveStats.wins moveStats) (S (MoveStats.losses moveStats))
      (MoveStats.draws moveStats).

(** The move statistics of a position after one ply of a finished game.
    The inner [if (!moveStats)] of the source is under a guard that already
    requires the entry, so its zero record is never used.  For a move named
    like a member of [Object.prototype] that has no entry the guard finds
    the member and the counters land on it: the dictionary stays as it is,
    as it does here. *)
Definition updateMoves (result : string) (pos : Ply.t) (moves : obj MoveStats.t)
    : obj MoveStats.t :=
  match truthy (Ply.move pos) with
  | None => moves
  | Some m =>
      match get m moves with
      | None => moves
      | Some _ =>
          let moveStats :=
            match get m moves with
            | Some moveStats => moveStats
            | None => MoveStats.mk 0 0 0 0
            end in
          set m (countMove result (Ply.player pos) moveStats) moves
      end
  end.

(** What one first occurrence of a position in a finished game does to its
    record: the outcome bucket, [totalGames], and the statistics of the move. *)
Definition credit (result : string) (pos : Ply.t) (position : Position.t)
    : Position.t :=
  Position.mk (Position.hash position) (Position.fen position)
    (S (Position.totalGames position))
    (countOutcome result (Position.outcomes position))
    (updateMoves result pos (Position.moves position))
    (Position.patterns position) (Position.popularity position).

(** One turn of the [forEach] of [updateGamePositions]. *)
Definition updateGamePosition (result : string)
    (acc : gset string * obj Position.t) (pos : Ply.t)
    : gset string * obj Position.t :=
  let '(seenHashes, positions) := acc in
  if decide (Ply.hash pos ∈ seenHashes) then acc
  else
    let seenHashes := {[Ply.hash pos]} ∪ seenHashes in
    match get (Ply.hash pos) positions with
    | None => (seenHashes, positions)
    | Some position =>
        (seenHashes, set (Ply.hash pos) (credit result pos position) positions)
    end.

Definition updateGamePositions (game : Game.t) (result : string)
    (positions : obj Position.t) : obj Position.t :=
  (foldl (updateGamePosition result) (∅, positions) (Game.positions game)).2.

(** [endGame]: the learner afterwards and the game returned ([null] when no
    game is in progress).  The [saveDatabase] that ends the call, like the
    one of [reset], changes nothing that the typed store keeps. *)
Definition endGame (result : string) (st : learner) : learner * option Game.t :=
  match currentGame st with
  | None => (st, None)
  | Some game =>
      let game' := Game.mk (Game.positions game) (Game.moves game) (Some result) in
      let d := db st in
      let positions' := updateGamePositions game' result (Database.positions d) in
      (mkLearner
         (Database.mk positions' (Database.games d ++ [game'])
            (S (Database.totalGames d)))
         None,
       Some game')
  end.

Definition reset (st : learner) : learner :=
  mkLearner emptyDatabase (currentGame st).

(** The calls a client can make on the tracker, and a run of them. *)
Inductive call :=
| StartGame
| RecordPosition (b : board) (currentPlayer : string) (move : option string)
| EndGame (result : string)
| Reset.

Definition perform (c : call) (st : learner) : learner :=
  match c with
  | StartGame => startGame st
  | RecordPosition b currentPlayer move => (recordPosition b currentPlayer move st).1
  | EndGame result => (endGame result st).1
  | Reset => reset st
  end.

Definition run (cs : list call) (st : learner) : learner :=
  foldl (fun st c => perform c st) st cs.

(** *** Analysis *)

Definition getPositionStats (hash : string) (st : learner) : option Position.t :=
  get hash (Database.positions (db st)).

Module Suggestion.
Record t := mk { move : string; winRate : Double.t; played : nat; stats : MoveStats.t }.
End Suggestion.

(** [color === 'black'] for an argument that defaults to [null]. *)
Definition isBlack (color : option string) : bool :=
  match color with
  | Some c => String.eqb c "black"
  | None => false
  end.

Definition suggestion (color : option string) (entry : string * MoveStats.t)
    : Suggestion.t :=
  let '(move, stats) := entry in
  let winRate :=
    if isBlack color
    then Double.div (Double.of_nat (MoveStats.losses stats))
           (Double.of_nat (MoveStats.played stats))
    else Double.div (Double.of_nat (MoveStats.wins stats))
           (Double.of_nat (MoveStats.played stats)) in
  Suggestion.mk move winRate (MoveStats.played stats) stats.

Definition getMoveSuggestions (hash : string) (color : option string) (st : learner)
    : list Suggestion.t :=
  match get hash (Database.positions (db st)) with
  | None => []
  | Some pos =>
      JsArray.sort
        (fun a b => Double.order (Double.sub (Suggestion.winRate b) (Suggestion.winRate a)))
        (map (suggestion color) (entries (Position.moves pos)))
  end.

Module Inconsistency.
Record t := mk {
  hash : string;
  fen : string;
  expected : Double.t;
  actual : Double.t;
  games : nat;
  patterns : list string;
  deviation : Double.t
}.
End Inconsistency.

(** The win rate of white at a position, and the fixed baseline. *)
Definition actualRate (pos : Position.t) : Double.t :=
  Double.div (Double.of_nat (Outcomes.white (Position.outcomes pos)))
    (Double.of_nat (Position.totalGames pos)).

Definition expectedRate : Double.t := Double.literal (1 # 2).

Definition inconsistency (hash : string) (pos : Position.t) : Inconsistency.t :=
  Inconsistency.mk hash (Position.fen pos) expectedRate (actualRate pos)
    (Position.totalGames pos) (Position.patterns pos)
    (Double.sub (actualRate pos) expectedRate).

(** One turn of the [for ... in] of [findInconsistencies]. *)
Definition inspect (threshold : Double.t) (inconsistencies : list Inconsistency.t)
    (entry : string * Position.t) : list Inconsistency.t :=
  let '(hash, pos) := entry in
  if Position.totalGames pos <? 5 then inconsistencies
  else if Double.gtb (Double.abs (Double.sub (actualRate pos) expectedRate)) threshold
       then inconsistencies ++ [inconsistency hash pos]
       else inconsistencies.

(** [findInconsistencies(threshold)]; the default threshold is
    [Double.literal (1 # 5)]. *)
Definition findInconsistencies (threshold : Double.t) (st : learner)
    : list Inconsistency.t :=
  JsArray.sort
    (fun a b =>
       Double.order
         (Double.sub (Double.abs (Inconsistency.deviation b))
            (Double.abs (Inconsistency.deviation a))))
    (foldl (inspect threshold) [] (entries (Database.positions (db st)))).

Module Opening.
Record t := mk {
  moves : list string;
  games : nat;
  wins : nat;
  losses : nat;
  draws : nat
}.
End Opening.

(** The separator of the opening keys, as the source file spells it. *)
Definition separator : string := " â†’ ".

Definition openingKey (depth : nat) (game : Game.t) : string :=
  JsArray.join separator (take depth (Game.moves game)).

(** [game.result === r] for a result that is [null] until the game ends. *)
Definition resultIs (result : option string) (r : string) : bool :=
  match result with
  | Some x => String.eqb x r
  | None => false
  end.

Definition countGame (result : option string) (o : Opening.t) : Opening.t :=
  if resultIs result "white" then
    Opening.mk (Opening.moves o) (S (Opening.games o)) (S (Opening.wins o))
      (Opening.losses o) (Opening.draws o)
  else if resultIs result "black" then
    Opening.mk (Opening.moves o) (S (Opening.games o)) (Opening.wins o)
      (S (Opening.losses o)) (Opening.draws o)
  else
    Opening.mk (Opening.moves o) (S (Opening.games o)) (Opening.wins o)
      (Opening.losses o) (S (Opening.draws o)).

(** One turn of the [forEach] of [getOpeningTree].  When the key names a
    member of [Object.prototype] and no game made an entry for it, the test
    [!openings[key]] finds that member: no entry is made, and the counters
    are incremented on the member, not in the dictionary. *)
Definition tally (depth : nat) (openings : obj Opening.t) (game : Game.t)
    : obj Opening.t :=
  if length (Game.moves game) <? depth then openings
  else
    let key := openingKey depth game in
    match lookup key openings with
    | Own opening => set key (countGame (Game.result game) opening) openings
    | Inherited => openings
    | Missing =>
        set key
          (countGame (Game.result game) (Opening.mk (take depth (Game.moves game)) 0 0 0 0))
          openings
    end.

Definition openings (depth : nat) (games : list Game.t) : obj Opening.t :=
  foldl (tally depth) [] games.

Definition getOpeningTree (depth : nat) (st : learner) : list Opening.t :=
  take 20
    (JsArray.sort (fun a b => (num (Opening.games b) - num (Opening.games a))%Q)
       (values (openings depth (Database.games (db st))))).

End Engine.

(** ** The list-keyed learner of [learn.js] *)

Module Learn.

(** A string of the model holds the UTF-8 text of a string of the
    program.  [s[0]] is the first UTF-16 code unit of that string:
    [undefined] for the empty string, a code unit up to U+00FF when the text
    starts with one byte below 128 or with a two-byte sequence led by 194 or
    195, and a code unit above U+00FF otherwise. *)
Inductive codeUnit :=
| Undefined
| Latin1 (c : ascii)
| Wide.

Definition firstChar (s : string) : codeUnit :=
  match s with
  | EmptyString => Undefined
  | String c rest =>
      let n := nat_of_ascii c in
      if n <? 128 then Latin1 c
      else
        match rest with
        | EmptyString => Wide
        | String d _ =>
            if n =? 194 then Latin1 d
            else if n =? 195 then Latin1 (ascii_of_nat (nat_of_ascii d + 64))
            else Wide
        end
  end.

(** [piece.color[0] + piece.pieceType[0]], then appended to a string, as a
    text with one character for each code unit; there is none when a code
    unit is above U+00FF. *)
Definition pieceCode (piece : Piece.t) : option string :=
  match firstChar (Piece.color piece), firstChar (Piece.pieceType piece) with
  | Wide, _ | _, Wide => None
  | Latin1 c, Latin1 t => Some (String c (String t EmptyString))
  | Latin1 c, Undefined => Some (String c "undefined")
  | Undefined, Latin1 t => Some ("undefined" +:+ String t EmptyString)
  | Undefined, Undefined => Some "NaN"
  end.

(** A piece of the 8x8 window puts a code unit above U+00FF into the
    string. *)
Definition wide (b : board) : bool :=
  existsb
    (fun row =>
       existsb
         (fun c =>
            match cellAt row c with
            | Some piece =>
                match pieceCode piece with
                | Some _ => false
                | None => true
                end
            | None => false
            end)
         (seq 0 8))
    (take 8 b).

(** [hashPosition]: the walk throws on a missing row; [btoa] throws on a
    code unit above U+00FF, and otherwise encodes [str], the text of the
    code units.  A piece with a code unit above U+00FF leaves nothing in
    the [str] of the model, which is not read then. *)
Definition hashPosition (b : board) : option string :=
  match scanRows (fun piece => default EmptyString (pieceCode piece)) b (seq 0 8)
          EmptyString with
  | None => None
  | Some str =>
      if wide b then None
      else Some (string_of_list_ascii (take 8 (Base64.btoa str)))
  end.

Module Position.
Record t := mk { hash : string; moves : obj Engine.MoveStats.t }.
End Position.

Module Scored.
Record t := mk { move : string; score : Double.t; played : nat }.
End Scored.

Definition scoreMove (color : string) (entry : string * Engine.MoveStats.t)
    : Scored.t :=
  let '(move, stats) := entry in
  let played := Double.of_nat (Engine.MoveStats.played stats) in
  let winRate :=
    if String.eqb color "black"
    then Double.div (Double.of_nat (Engine.MoveStats.losses stats)) played
    else Double.div (Double.of_nat (Engine.MoveStats.wins stats)) played in
  let exploration :=
    Double.mul (Double.literal (1 # 10))
      (Double.sub (Double.of_nat 1) (Double.div played (Double.of_nat 20))) in
  Scored.mk move (Double.add winRate exploration) (Engine.MoveStats.played stats).

(** [suggestMove] on the position list of the database: the outer [option]
    is [None] when [hashPosition] threw, the inner one is the [null] of
    "no data yet". *)
Definition suggestMove (b : board) (color : string) (positions : list Position.t)
    : option (option Scored.t) :=
  match hashPosition b with
  | None => None
  | Some hash =>
      match List.find (fun p => String.eqb (Position.hash p) hash) positions with
      | None => Some None
      | Some pos =>
          if length (keys (Position.moves pos)) =? 0 then Some None
          else
            let scored := map (scoreMove color) (entries (Position.moves pos)) in
            Some (head (JsArray.sort
                          (fun a b =>
                             Double.order (Double.sub (Scored.score b) (Scored.score a)))
                          scored))
      end
  end.

(** The counters of a move after one more game: [played++], then one of
    [wins], [losses], [draws]. *)
Definition countResult (result : string) (stats : Engine.MoveStats.t)
    : Engine.MoveStats.t :=
  let played := S (Engine.MoveStats.played stats) in
  if String.eqb result "white" then
    Engine.MoveStats.mk played (S (Engine.MoveStats.wins stats))
      (Engine.MoveStats.losses stats) (Engine.MoveStats.draws stats)
  else if String.eqb result "black" then
    Engine.MoveStats.mk played (Engine.MoveStats.wins stats)
      (S (Engine.MoveStats.losses stats)) (Engine.MoveStats.draws stats)
  else
    Engine.MoveStats.mk played (Engine.MoveStats.wins stats)
      (Engine.MoveStats.losses stats) (S (Engine.MoveStats.draws stats)).

(** What [recordMove] does to the record [pos]: the entry of the move is
    created if need be, then counted.  For a move that names a member of
    [Object.prototype] and has no entry, [!pos.moves[move]] finds the
    member: no entry is made and the counters are incremented on the
    member, so that the record stays as it is. *)
Definition recordIn (move result : string) (pos : Position.t) : Position.t :=
  match lookup move (Position.moves pos) with
  | Own stats =>
      Position.mk (Position.hash pos)
        (set move (countResult result stats) (Position.moves pos))
  | Inherited => pos
  | Missing =>
      Position.mk (Position.hash pos)
        (set move (countResult result (Engine.MoveStats.mk 0 0 0 0)) (Position.moves pos))
  end.

(** The record [find] returns is changed in place: the first of the list
    with the hash. *)
Fixpoint updateFirst (hash : string) (f : Position.t -> Position.t)
    (positions : list Position.t) : list Position.t :=
  match positions with
  | [] => []
  | p :: ps =>
      if String.eqb (Position.hash p) hash then f p :: ps
      else p :: updateFirst hash f ps
  end.

(** [recordMove] on the position list of the database.  For a position it
    has not seen the class calls [this.toFEN], which [learn.js] does not
    define: the call throws before the list is touched.  For a known
    position the result is the list in memory after the call, whether or not
    the final [saveDatabase] goes through. *)
Definition recordMove (position : board) (move result : string)
    (positions : list Position.t) : option (list Position.t) :=
  match hashPosition position with
  | None => None
  | Some hash =>
      match List.find (fun p => String.eqb (Position.hash p) hash) positions with
      | Some _ => Some (updateFirst hash (recordIn move result) positions)
      | None => None
      end
  end.

End Learn.

(** ** Import and persistence: the store as an untyped value *)

Module Persistence.

#[local] Set Warnings "-register-all".

(** A value in memory: what [JSON.parse] builds, plus the named properties
    an array can be given afterwards. *)
Inductive value :=
| Null
| Bool (b : bool)
| Number (q : Q)
| Str (s : string)
| Array (elems : list value) (props : list (string * value))
| Object (fields : list (string * value)).

(** [target[k]] for a name [k] that is not an index: [None] is [undefined]. *)
Definition read (k : string) (target : value) : option value :=
  match target with
  | Object fields => get k fields
  | Array _ props => get k props
  | _ => None
  end.

(** [target[k] = v] in strict code (a class body): [None] is the TypeError
    of assigning on [null], [undefined] or a primitive. *)
Definition assign (k : string) (v : value) (target : value) : option value :=
  match target with
  | Object fields => Some (Object (set k v fields))
  | Array elems props => Some (Array elems (set k v props))
  | _ => None
  end.

(** [db.metadata.lastUpdated = now]: the store afterwards, [None] when the
    statement throws. *)
Definition stamp (now : string) (db : value) : option value :=
  match read "metadata" db with
  | None => None
  | Some metadata =>
      match assign "lastUpdated" (Str now) metadata with
      | None => None
      | Some metadata' => assign "metadata" metadata' db
      end
  end.

Record learner := mkLearner {
  db : value;
  storage : option string   (* localStorage[storageKey] *)
}.

(** What a call reads from its environment: the clock, and whether the
    backing store accepts the write. *)
Record env := mkEnv { now : string; writable : bool }.

Definition defaultDatabase (now : string) : value :=
  Object
    [("positions", Object []);
     ("games", Array [] []);
     ("patterns", Object []);
     ("metadata",
       Object [("version", Str "1.0"); ("lastUpdated", Str now);
               ("totalGames", Number 0)])].

Section Json.

(** [JSON.parse] ([None]: it throws) and [JSON.stringify] of the platform. *)
Variable JSON_parse : string -> option value.
Variable JSON_stringify : value -> string.

Definition saveDatabase (e : env) (st : learner) : learner * bool :=
  match stamp (now e) (db st) with
  | None => (st, false)
  | Some db' =>
      if writable e
      then (mkLearner db' (Some (JSON_stringify db')), true)
      else (mkLearner db' (storage st), false)
  end.

Definition importDatabase (e : env) (jsonData : string) (st : learner)
    : learner * bool :=
  match JSON_parse jsonData with
  | None => (st, false)
  | Some parsed =>
      ((saveDatabase e (mkLearner parsed (storage st))).1, true)
  end.

Definition loadDatabase (e : env) (stored : option string) : value :=
  match stored with
  | Some data =>
      if String.eqb data EmptyString then defaultDatabase (now e)
      else
        match JSON_parse data with
        | Some parsed => parsed
        | None => defaultDatabase (now e)
        end
  | None => defaultDatabase (now e)
  end.

End Json.

End Persistence.

(** ** The random starting position of [rchess-distribution.js] *)

Module Distribution.

(** ['light'] and ['dark']. *)
Inductive squareColor := light | dark.

Definition getSquareColor (row col : nat) : squareColor :=
  if (row + col) mod 2 =? 0 then light else dark.

Definition isLight (sq : nat * nat) : bool :=
  match getSquareColor sq.1 sq.2 with
  | light => true
  | dark => false
  end.

(** [a !== b] on two square colours. *)
Definition differ (a b : squareColor) : bool :=
  match a, b with
  | light, dark | dark, light => true
  | _, _ => false
  end.

(** The glyphs of one colour, by piece type. *)
Definition glyphs (color : string) : option (obj string) :=
  if String.eqb color "white" then
    Some [("rook", "♜"); ("knight", "♞"); ("bishop", "♝");
          ("queen", "♛"); ("king", "♚"); ("pawn", "♟")]
  else if String.eqb color "black" then
    Some [("rook", "♖"); ("knight", "♘"); ("bishop", "♗");
          ("queen", "♕"); ("king", "♔"); ("pawn", "♙")]
  else None.

(** [symbols[color][type]] for one of the six piece types: [None] is the
    TypeError of reading a property of [symbols[color]] when the colour is
    neither white nor black. *)
Definition symbols (color type : string) : option string :=
  match glyphs color with
  | Some table => Some (default EmptyString (get type table))
  | None => None
  end.

(** [Math.floor(r * n)] for a value [r] of [Math.random()]. *)
Definition floorTimes (r : Q) (n : nat) : nat := Z.to_nat (Qfloor (r * num n)).

(** [[arr[i], arr[j]] = [arr[j], arr[i]]] for two indices of the array.
    [Math.random()] is below 1, so the loop of [shuffleArray] never leaves
    the array; other indices are not modelled. *)
Definition swap {A : Type} (i j : nat) (arr : list A) : list A :=
  match arr !! i, arr !! j with
  | Some x, Some y => <[i := y]> (<[j := x]> arr)
  | _, _ => arr
  end.

(** The loop of [shuffleArray] from index [i] down to 1.  [random n] is the
    value of the [n]-th call of [Math.random()]; the number of calls made so
    far is threaded through. *)
Fixpoint shuffleFrom {A : Type} (random : nat -> Q) (i : nat) (arr : list A) (n : nat)
    : list A * nat :=
  match i with
  | 0 => (arr, n)
  | S i' => shuffleFrom random i' (swap i (floorTimes (random n) (i + 1)) arr) (S n)
  end.

Definition shuffleArray {A : Type} (random : nat -> Q) (arr : list A) (n : nat)
    : list A * nat :=
  shuffleFrom random (length arr - 1) arr n.

Module Requirement.
Record t := mk { type : string; count : nat; needsBothColors : bool }.
End Requirement.

Definition requirements : list Requirement.t :=
  [Requirement.mk "bishop" 2 true; Requirement.mk "rook" 2 true;
   Requirement.mk "knight" 2 true; Requirement.mk "queen" 1 false;
   Requirement.mk "king" 1 false; Requirement.mk "pawn" 8 false].

(** [Array(8).fill().map(() => Array(8).fill(null))] *)
Definition emptyBoard : board := repeat (repeat None 8) 8.

(** The squares of the given rows, in the order of the two loops. *)
Definition squaresOf (rows : list nat) : list (nat * nat) :=
  r ← rows; c ← seq 0 8; [(r, c)].

(** [b[sq.row][sq.col] = piece] on a board with rows of eight cells: [None]
    is the TypeError of writing into a row the board does not have. *)
Definition place (sq : nat * nat) (piece : Piece.t) (b : board) : option board :=
  match b !! sq.1 with
  | Some row => Some (<[sq.1 := <[sq.2 := Some piece]> row]> b)
  | None => None
  end.

(** The variables of [generateSide] while it places the pieces.  A piece
    carries, besides the three fields of [Piece.t], [hasMoved],
    [startingRow] and an [id] made from the clock and one call of
    [Math.random()]; they are not read by this module and are left out,
    the call is counted in [drawn]. *)
Record side := mkSide {
  sideBoard : board;
  lightSquares : list (nat * nat);
  darkSquares : list (nat * nat);
  drawn : nat
}.

Definition nonEmpty {A : Type} (l : list A) : bool :=
  match l with
  | [] => false
  | _ :: _ => true
  end.

(** [let sq = lightSquares.shift(); sideBoard[sq.row][sq.col] = ...] *)
Definition fromLight (piece : Piece.t) (st : side) : option side :=
  match lightSquares st with
  | sq :: rest =>
      match place sq piece (sideBoard st) with
      | Some b => Some (mkSide b rest (darkSquares st) (drawn st))
      | None => None
      end
  | [] => Some st
  end.

Definition fromDark (piece : Piece.t) (st : side) : option side :=
  match darkSquares st with
  | sq :: rest =>
      match place sq piece (sideBoard st) with
      | Some b => Some (mkSide b (lightSquares st) rest (drawn st))
      | None => None
      end
  | [] => Some st
  end.

(** The body of the inner loop: the [i]-th piece of a requirement.  A piece
    that finds no square is dropped (the code only logs it). *)
Definition placePiece (color : string) (req : Requirement.t) (st : side) (i : nat)
    : option side :=
  match symbols color (Requirement.type req) with
  | None => None
  | Some symbol =>
      let piece := Piece.mk symbol (Requirement.type req) color in
      let st := mkSide (sideBoard st) (lightSquares st) (darkSquares st) (S (drawn st)) in
      if Requirement.needsBothColors req then
        if (i =? 0) && nonEmpty (lightSquares st) then fromLight piece st
        else if (i =? 1) && nonEmpty (darkSquares st) then fromDark piece st
        else Some st
      else
        if nonEmpty (lightSquares st) then fromLight piece st
        else if nonEmpty (darkSquares st) then fromDark piece st
        else Some st
  end.

Definition placeRequirement (color : string) (acc : option side) (req : Requirement.t)
    : option side :=
  foldl (fun acc i =>
           match acc with
           | Some st => placePiece color req st i
           | None => None
           end)
    acc (seq 0 (Requirement.count req)).

(** [generateSide(color, rows)] when [n] calls of [Math.random()] have been
    made: the side board and the number of calls afterwards. *)
Definition generateSide (random : nat -> Q) (color : string) (rows : list nat) (n : nat)
    : option (board * nat) :=
  let shuffledLight := shuffleArray random (List.filter isLight (squaresOf rows)) n in
  let shuffledDark :=
    shuffleArray random (List.filter (fun sq => negb (isLight sq)) (squaresOf rows))
      shuffledLight.2 in
  match foldl (placeRequirement color)
          (Some (mkSide emptyBoard shuffledLight.1 shuffledDark.1 shuffledDark.2))
          requirements with
  | Some st => Some (sideBoard st, drawn st)
  | None => None
  end.

(** The copy loops of [generateBoard]: the pieces of the given rows of
    [source] are written into the board. *)
Definition copyRows (source : board) (rows : list nat) (b : board) : option board :=
  foldl (fun acc sq =>
           match acc with
           | Some b =>
               match Engine.cell source sq.1 sq.2 with
               | Some piece => place sq piece b
               | None => Some b
               end
           | None => None
           end)
    (Some b) (squaresOf rows).

Definition generateBoard (random : nat -> Q) (n : nat) : option (board * nat) :=
  match generateSide random "white" [0; 1] n with
  | None => None
  | Some (whiteBoard, n1) =>
      match copyRows whiteBoard [0; 1] emptyBoard with
      | None => None
      | Some b1 =>
          match generateSide random "black" [6; 7] n1 with
          | None => None
          | Some (blackBoard, n2) =>
              match copyRows blackBoard [6; 7] b1 with
              | None => None
              | Some b2 => Some (b2, n2)
              end
          end
      end
  end.

(** What [verifyBoard] collects for one colour. *)
Module Tally.
Record t := mk {
  bishopsLight : bool;
  bishopsDark : bool;
  rooks : list squareColor;
  knights : list squareColor;
  king : option squareColor;
  queen : option squareColor
}.
End Tally.

Definition emptyTally : Tally.t := Tally.mk false false [] [] None None.

Module Result.
Record t := mk { white : Tally.t; black : Tally.t }.
End Result.

(** The five piece types [verifyBoard] looks at. *)
Definition counted (pieceType : string) : bool :=
  String.eqb pieceType "bishop" || String.eqb pieceType "rook"
  || String.eqb pieceType "knight" || String.eqb pieceType "king"
  || String.eqb pieceType "queen".

(** The chain of [if (piece.pieceType === ...)] on the entry of a colour. *)
Definition note (pieceType : string) (shade : squareColor) (t : Tally.t) : Tally.t :=
  if String.eqb pieceType "bishop" then
    match shade with
    | light =>
        Tally.mk true (Tally.bishopsDark t) (Tally.rooks t) (Tally.knights t)
          (Tally.king t) (Tally.queen t)
    | dark =>
        Tally.mk (Tally.bishopsLight t) true (Tally.rooks t) (Tally.knights t)
          (Tally.king t) (Tally.queen t)
    end
  else if String.eqb pieceType "rook" then
    Tally.mk (Tally.bishopsLight t) (Tally.bishopsDark t) (Tally.rooks t ++ [shade])
      (Tally.knights t) (Tally.king t) (Tally.queen t)
  else if String.eqb pieceType "knight" then
    Tally.mk (Tally.bishopsLight t) (Tally.bishopsDark t) (Tally.rooks t)
      (Tally.knights t ++ [shade]) (Tally.king t) (Tally.queen t)
  else if String.eqb pieceType "king" then
    Tally.mk (Tally.bishopsLight t) (Tally.bishopsDark t) (Tally.rooks t)
      (Tally.knights t) (Some shade) (Tally.queen t)
  else if String.eqb pieceType "queen" then
    Tally.mk (Tally.bishopsLight t) (Tally.bishopsDark t) (Tally.rooks t)
      (Tally.knights t) (Tally.king t) (Some shade)
  else t.

(** One piece of the scan.  [result[color]] is read only for the five piece
    types; for a colour other than white and black it has none of the
    entries and the statement throws ([None]). *)
Definition tallyPiece (r c : nat) (piece : Piece.t) (res : Result.t) : option Result.t :=
  if counted (Piece.pieceType piece) then
    if String.eqb (Piece.color piece) "white" then
      Some (Result.mk (note (Piece.pieceType piece) (getSquareColor r c) (Result.white res))
              (Result.black res))
    else if String.eqb (Piece.color piece) "black" then
      Some (Result.mk (Result.white res)
              (note (Piece.pieceType piece) (getSquareColor r c) (Result.black res)))
    else None
  else Some res.

(** The two loops of [verifyBoard]; [board[r][c]] throws when the board has
    no row [r], a missing cell is skipped like an empty one. *)
Definition scanSquare (b : board) (acc : option Result.t) (sq : nat * nat)
    : option Result.t :=
  match acc with
  | None => None
  | Some res =>
      match b !! sq.1 with
      | None => None
      | Some row =>
          match cellAt row sq.2 with
          | Some piece => tallyPiece sq.1 sq.2 piece res
          | None => Some res
          end
      end
  end.

Module Validity.
Record t := mk { bishops : bool; rooks : bool; knights : bool; kingQueen : bool }.
End Validity.

(** [l.length === 2 && l[0] !== l[1]] *)
Definition twoDiffer (l : list squareColor) : bool :=
  match l with
  | [a; b] => differ a b
  | _ => false
  end.

(** [king !== queen], each a square colour or [null]. *)
Definition notSame (a b : option squareColor) : bool :=
  match a, b with
  | Some x, Some y => differ x y
  | None, None => false
  | _, _ => true
  end.

Definition validate (t : Tally.t) : Validity.t :=
  Validity.mk (Tally.bishopsLight t && Tally.bishopsDark t)
    (twoDiffer (Tally.rooks t)) (twoDiffer (Tally.knights t))
    (notSame (Tally.king t) (Tally.queen t)).

Module Verification.
Record t := mk { result : Result.t; validWhite : Validity.t; validBlack : Validity.t }.
End Verification.

Definition verifyBoard (b : board) : option Verification.t :=
  match foldl (scanSquare b) (Some (Result.mk emptyTally emptyTally)) Engine.squares with
  | Some res =>
      Some (Verification.mk res (validate (Result.white res))
              (validate (Result.black res)))
  | None => None
  end.

End Distribution.

(** * Vocabulary of the statements *)

(** A character of the restricted alphabet [A-Za-z0-9]. *)
Definition isAlnum (c : ascii) : bool :=
  let n := nat_of_ascii c in
  (48 <=? n) && (n <=? 57) || (65 <=? n) && (n <=? 90)
  || (97 <=? n) && (n <=? 122).

(** An 8x8 grid: eight rows of eight cells. *)
Definition is8x8 (b : board) : Prop :=
  length b = 8 /\ Forall (fun row => length row = 8) b.

Definition base64Text (l : list ascii) : Prop :=
  Forall (fun c => In c (Base64.pad :: Base64.alphabet)) l.

Definition headOf (s : string) : option ascii :=
  match s with
  | EmptyString => None
  | String c _ => Some c
  end.

(** The characters a placement string can start with: the colour letter of
    a piece or the length of a run of empty cells. *)
Definition placementStart (c : ascii) : bool :=
  Ascii.eqb c "w" || Ascii.eqb c "b"
  || (49 <=? nat_of_ascii c) && (nat_of_ascii c <=? 56).

(** The base64 digits such a character leads to. *)
Definition keyStart (c : ascii) : bool :=
  Ascii.eqb c "d" || Ascii.eqb c "Y" || Ascii.eqb c "M" || Ascii.eqb c "N"
  || Ascii.eqb c "O".

(** ** Statements about the store *)

Definition positionsOf (st : Engine.learner) : obj Engine.Position.t :=
  Engine.Database.positions (Engine.db st).

(** Every position record of the store satisfies [P]. *)
Definition allPositions (P : Engine.Position.t -> Prop) (st : Engine.learner) : Prop :=
  forall h p, get h (positionsOf st) = Some p -> P p.

Definition outcomeSum (p : Engine.Position.t) : nat :=
  Engine.Outcomes.white (Engine.Position.outcomes p)
  + Engine.Outcomes.black (Engine.Position.outcomes p)
  + Engine.Outcomes.draw (Engine.Position.outcomes p).

Definition validResult (result : string) : Prop :=
  result = "white" \/ result = "black" \/ result = "draw".

(** The results passed to [endGame] in a run satisfy [R]. *)
Definition endsWith (R : string -> Prop) (c : Engine.call) : Prop :=
  match c with
  | Engine.EndGame result => R result
  | _ => True
  end.

(** [totalGames] of the position [h], 0 while the store has no record. *)
Definition totalGamesAt (h : string) (st : Engine.learner) : nat :=
  match get h (positionsOf st) with
  | Some p => Engine.Position.totalGames p
  | None => 0
  end.

(** [popularity] of the position [h], 0 while the store has no record. *)
Definition popularityAt (h : string) (st : Engine.learner) : nat :=
  match get h (positionsOf st) with
  | Some p => Engine.Position.popularity p
  | None => 0
  end.

(** The hashes recorded so far in the game in progress. *)
Definition hashesOf (g : option Engine.Game.t) : list string :=
  match g with
  | Some game => map Engine.Ply.hash (Engine.Game.positions game)
  | None => []
  end.

(** The invariant behind the popularity bound: a record is visited at
    least as often as it was credited, and once more when its hash is in
    the game in progress, which is still to be credited. *)
Definition popularityAhead (st : Engine.learner) : Prop :=
  forall h p,
    get h (positionsOf st) = Some p ->
    Engine.Position.totalGames p <= Engine.Position.popularity p
    /\ (In h (hashesOf (Engine.currentGame st)) ->
        S (Engine.Position.totalGames p) <= Engine.Position.popularity p).

(** ** Statements about rankings *)

(** [l] is in descending order of [key]. *)
Definition descending {A : Type} (key : A -> Q) (l : list A) : Prop :=
  StronglySorted (fun a b => (key b <= key a)%Q) l.

(** Elements with the same [key] come in [l'] in the order they have in [l]. *)
Definition tiesInOrder {A : Type} (key : A -> Q) (l l' : list A) : Prop :=
  forall k,
    List.filter (fun a => Qeq_bool (key a) k) l'
    = List.filter (fun a => Qeq_bool (key a) k) l.

(** [l'] ranks the elements of [l] by descending [key], ties in input order. *)
Definition rankedBy {A : Type} (key : A -> Q) (l l' : list A) : Prop :=
  Permutation l l' /\ descending key l' /\ tiesInOrder key l l'.

(** ** Statements about the analysis *)

(** The position [h] is among the reports. *)
Definition reported (h : string) (r : list Engine.Inconsistency.t) : Prop :=
  exists e, In e r /\ Engine.Inconsistency.hash e = h.

(** [outcomes.white / totalGames], the quotient of two counters rounded to
    a double. *)
Definition whiteShare (p : Engine.Position.t) : Double.t :=
  Double.div (Double.of_nat (Engine.Outcomes.white (Engine.Position.outcomes p)))
    (Double.of_nat (Engine.Position.totalGames p)).

(** [outcomes.white / totalGames - 0.5], the difference rounded again. *)
Definition deviationOf (p : Engine.Position.t) : Double.t :=
  Double.sub (whiteShare p) (Double.literal (1 # 2)).

(** [|outcomes.white / totalGames - 0.5| > threshold] on these doubles. *)
Definition deviates (threshold : Double.t) (p : Engine.Position.t) : Prop :=
  Double.gtb (Double.abs (deviationOf p)) threshold = true.

(** The magnitude of the deviation a report carries. *)
Definition magnitude (e : Engine.Inconsistency.t) : Q :=
  Double.value (Double.abs (Engine.Inconsistency.deviation e)).

(** ** The scoring of moves in the words of the specification *)

Module Spec.

(** [wins/played] when queried for white, [losses/played] for black. *)
Definition winRate (color : option string) (stats : Engine.MoveStats.t) : Q :=
  if Engine.isBlack color
  then (num (Engine.MoveStats.losses stats) / num (Engine.MoveStats.played stats))%Q
  else (num (Engine.MoveStats.wins stats) / num (Engine.MoveStats.played stats))%Q.

(** [k * max(0, 1 - played/threshold)] with [k = 0.1] and [threshold = 20]. *)
Definition bonus (played : nat) : Q :=
  ((1 # 10) * Qmax 0 (1 - num played / 20))%Q.

Definition score (color : option string) (stats : Engine.MoveStats.t) : Q :=
  (winRate color stats + bonus (Engine.MoveStats.played stats))%Q.

(** The moves in descending order of [score], ties in input order. *)
Definition ranking (color : option string) (moves : obj Engine.MoveStats.t)
    : list string :=
  map fst
    (JsArray.sort (fun a b => (score color b.2 - score color a.2)%Q) (entries moves)).

(** The same score and ranking when every operation is one on doubles. *)
Definition computedScore (color : option string) (stats : Engine.MoveStats.t)
    : Double.t :=
  let played := Double.of_nat (Engine.MoveStats.played stats) in
  let rate :=
    if Engine.isBlack color
    then Double.div (Double.of_nat (Engine.MoveStats.losses stats)) played
    else Double.div (Double.of_nat (Engine.MoveStats.wins stats)) played in
  Double.add rate
    (Double.mul (Double.literal (1 # 10))
       (Double.max (Double.of_nat 0)
          (Double.sub (Double.of_nat 1) (Double.div played (Double.of_nat 20))))).

Definition computedRanking (color : option string) (moves : obj Engine.MoveStats.t)
    : list string :=
  map fst
    (JsArray.sort
       (fun a b =>
          Double.order (Double.sub (computedScore color b.2) (computedScore color a.2)))
       (entries moves)).

End Spec.

(** The score [learn.js] computes for a move that has been played: five
    roundings, of the rate, of [played / 20], of the difference from 1, of
    the product with the double [0.1], and of the sum. *)
Definition roundedScore (color : string) (stats : Engine.MoveStats.t) : Q :=
  Double.round
    (Double.round (Spec.winRate (Some color) stats)
     + Double.round
         (Double.round (1 # 10)
          * Double.round (1 - Double.round (num (Engine.MoveStats.played stats) / 20))))%Q.

(** Every move of the dictionary has been played. *)
Definition allPlayed (moves : obj Engine.MoveStats.t) : Prop :=
  Forall (fun entry => 0 < Engine.MoveStats.played entry.2) moves.

(** ** Statements about the opening tree *)

(** The game has at least [depth] moves. *)
Definition eligible (depth : nat) (g : Engine.Game.t) : bool :=
  depth <=? length (Engine.Game.moves g).

(** The game counts under the opening key [k]. *)
Definition inOpening (depth : nat) (k : string) (g : Engine.Game.t) : bool :=
  eligible depth g && String.eqb (Engine.openingKey depth g) k.


Definition wonBy (r : string) (g : Engine.Game.t) : bool :=
  Engine.resultIs (Engine.Game.result g) r.

Definition neither (g : Engine.Game.t) : bool :=
  negb (wonBy "white" g) && negb (wonBy "black" g).

Definition count {A : Type} (f : A -> bool) (l : list A) : nat :=
  length (List.filter f l).

(** The tally of the games selected by [sel]: the prefix of the first of
    them, their number, and how many were won by white, by black, by
    neither.  [None] when [sel] selects no game. *)
Definition tallyOf (depth : nat) (sel : Engine.Game.t -> bool)
    (games : list Engine.Game.t) : option Engine.Opening.t :=
  match List.find sel games with
  | None => None
  | Some g0 =>
      Some (Engine.Opening.mk (take depth (Engine.Game.moves g0))
              (count sel games)
              (count (fun g => sel g && wonBy "white" g) games)
              (count (fun g => sel g && wonBy "black" g) games)
              (count (fun g => sel g && neither g) games))
  end.


Definition keyOf (o : Engine.Opening.t) : string :=
  JsArray.join Engine.separator (Engine.Opening.moves o).



(** ** Statements about the canonical key, continued *)

(** The placement string [hashPosition] builds before the side to move is
    appended. *)
Definition placementOf (b : board) : option string :=
  scanRows Engine.pieceCode b (seq 0 8) EmptyString.

(** The piece types of the table of [pieceToChar]. *)
Definition knownType (type : string) : bool :=
  String.eqb type "pawn" || String.eqb type "knight" || String.eqb type "bishop"
  || String.eqb type "rook" || String.eqb type "queen" || String.eqb type "king".

Definition knownCell (cell : option Piece.t) : Prop :=
  match cell with
  | Some piece => knownType (Piece.pieceType piece) = true
  | None => True
  end.

(** Every piece of the board has a type of the table. *)
Definition knownPieces (b : board) : Prop := Forall (Forall knownCell) b.

(** The characters of the placement string of a board of known pieces. *)
Definition placementChars : list ascii :=
  list_ascii_of_string "wbpnrqk/12345678".

Definition inPlacement (c : ascii) : Prop := In c placementChars.

(** ** Statements about the store, continued *)

(** The record [updatePositionStats] creates for a hash it has not seen. *)
Definition freshRecord (hash fen : string) (patterns : list string) : Engine.Position.t :=
  Engine.Position.mk hash fen 0 (Engine.Outcomes.mk 0 0 0) [] patterns 0.

(** How a call can relate the record of a hash before ([before]) and after
    ([after]): left alone, visited, credited with a finished game, or
    created by a recording of the hash. *)
Definition recordStep (c : Engine.call) (h : string)
    (before after : option Engine.Position.t) : Prop :=
  match before, after with
  | Some p, Some p' =>
      p' = p
      \/ (exists b currentPlayer move,
            c = Engine.RecordPosition b currentPlayer move /\ p' = Engine.visit p)
      \/ (exists result ply, c = Engine.EndGame result /\ p' = Engine.credit result ply p)
  | Some _, None => False
  | None, Some p' =>
      exists b currentPlayer move fen patterns,
        c = Engine.RecordPosition b currentPlayer move
        /\ Engine.hashPosition b currentPlayer = Some h
        /\ Engine.detectPatterns b currentPlayer = Some patterns
        /\ p' = Engine.visit (freshRecord h fen patterns)
  | None, None => True
  end.

(** The moves of a game are the truthy moves of its plies, in order. *)
Definition movesOfPlies (g : Engine.Game.t) : Prop :=
  Engine.Game.moves g
  = omap (fun ply => Engine.truthy (Engine.Ply.move ply)) (Engine.Game.positions g).

(** The games of the learner are well formed: the stored ones are finished,
    the one in progress is not, and each lists the moves of its plies. *)
Definition gamesWellFormed (st : Engine.learner) : Prop :=
  Forall (fun g => movesOfPlies g /\ is_Some (Engine.Game.result g))
    (Engine.Database.games (Engine.db st))
  /\ forall g, Engine.currentGame st = Some g ->
       movesOfPlies g /\ Engine.Game.result g = None.

(** No counter of [p'] is below the one of [p], and what is computed at
    first sight is the same. *)
Definition grownFrom (p p' : Engine.Position.t) : Prop :=
  Engine.Position.hash p' = Engine.Position.hash p
  /\ Engine.Position.fen p' = Engine.Position.fen p
  /\ Engine.Position.patterns p' = Engine.Position.patterns p
  /\ Engine.Position.totalGames p <= Engine.Position.totalGames p'
  /\ Engine.Position.popularity p <= Engine.Position.popularity p'
  /\ Engine.Outcomes.white (Engine.Position.outcomes p)
     <= Engine.Outcomes.white (Engine.Position.outcomes p')
  /\ Engine.Outcomes.black (Engine.Position.outcomes p)
     <= Engine.Outcomes.black (Engine.Position.outcomes p')
  /\ Engine.Outcomes.draw (Engine.Position.outcomes p)
     <= Engine.Outcomes.draw (Engine.Position.outcomes p').

(** [metadata.totalGames], the running count of finished games. *)
Definition gamesCounted (st : Engine.learner) : nat :=
  Engine.Database.totalGames (Engine.db st).

Definition gamesStored (st : Engine.learner) : list Engine.Game.t :=
  Engine.Database.games (Engine.db st).

(** ** Statements about the pattern tags *)

(** The cell [(r, c)] of the 8x8 window holds a piece of this type and
    colour. *)
Definition holds (b : board) (type color : string) (r c : nat) : Prop :=
  r < 8 /\ c < 8 /\ Engine.isPiece type color (Engine.cell b r c) = true.

(** ** Statements about the list-keyed learner *)

(** [played] of a move at the position of a board, 0 while there is no
    entry. *)
Definition playedAt (b : board) (move : string) (positions : list Learn.Position.t)
    : nat :=
  match Learn.hashPosition b with
  | None => 0
  | Some hash =>
      match List.find (fun p => String.eqb (Learn.Position.hash p) hash) positions with
      | None => 0
      | Some pos =>
          match get move (Learn.Position.moves pos) with
          | Some stats => Engine.MoveStats.played stats
          | None => 0
          end
      end
  end.

(** A piece of the 8x8 window has a colour or a type whose first code unit
    is above U+00FF. *)
Definition widePiece (b : board) : Prop :=
  exists r c row piece,
    r < 8 /\ c < 8 /\ b !! r = Some row /\ cellAt row c = Some piece
    /\ (Learn.firstChar (Piece.color piece) = Learn.Wide
        \/ Learn.firstChar (Piece.pieceType piece) = Learn.Wide).

(** A run of [recordMove], as the loop of [gameOver] makes one: it stops at
    the first call that throws. *)
Fixpoint recordMoves (calls : list (board * string * string))
    (positions : list Learn.Position.t) : option (list Learn.Position.t) :=
  match calls with
  | [] => Some positions
  | (position, move, result) :: calls' =>
      match Learn.recordMove position move result positions with
      | None => None
      | Some positions' => recordMoves calls' positions'
      end
  end.

(** The counters of a move add up, and the move was played. *)
Definition balanced (stats : Engine.MoveStats.t) : Prop :=
  Engine.MoveStats.played stats
  = Engine.MoveStats.wins stats + Engine.MoveStats.losses stats
    + Engine.MoveStats.draws stats
  /\ 1 <= Engine.MoveStats.played stats.

Definition allBalanced (positions : list Learn.Position.t) : Prop :=
  forall pos move stats,
    In pos positions -> In (move, stats) (Learn.Position.moves pos) -> balanced stats.

(** ** Statements about the random starting position *)

(** [Math.random()] returns a number from 0 up to, not including, 1. *)
Definition inUnit (random : nat -> Q) : Prop :=
  forall n, (0 <= random n)%Q /\ (random n < 1)%Q.

(** A board with one more piece on it. *)
Definition put (b : board) (entry : (nat * nat) * Piece.t) : board :=
  match b !! entry.1.1 with
  | Some row => <[entry.1.1 := <[entry.1.2 := Some entry.2]> row]> b
  | None => b
  end.

(** The piece [generateSide] makes for a colour and a type. *)
Definition pieceOf (color type : string) : Piece.t :=
  Piece.mk (default EmptyString (Distribution.symbols color type)) type color.

(** The piece types in the order in which they take the light squares, and
    the dark ones. *)
Definition lightOrder : list string :=
  ["bishop"; "rook"; "knight"; "queen"; "king"; "pawn"; "pawn"; "pawn"].

Definition darkOrder : list string :=
  ["bishop"; "rook"; "knight"; "pawn"; "pawn"; "pawn"; "pawn"; "pawn"].

(** Who stands where, given the two shuffled lists of squares. *)
Definition assignment (color : string) (lights darks : list (nat * nat))
    : list ((nat * nat) * Piece.t) :=
  zip lights (map (pieceOf color) lightOrder)
  ++ zip darks (map (pieceOf color) darkOrder).

(** A square of the given rows of the 8x8 board, light or dark as asked. *)
Definition squareOf (rows : list nat) (shade : Distribution.squareColor)
    (sq : nat * nat) : bool :=
  existsb (Nat.eqb sq.1) rows && (sq.1 <? 8) && (sq.2 <? 8)
  && match shade, Distribution.getSquareColor sq.1 sq.2 with
     | Distribution.light, Distribution.light
     | Distribution.dark, Distribution.dark => true
     | _, _ => false
     end.

(** The squares of the 8x8 window that hold a piece of a type and colour,
    in the order of the scan. *)
Definition hits (b : board) (type color : string) (sqs : list (nat * nat))
    : list (nat * nat) :=
  List.filter (fun sq => Engine.isPiece type color (Engine.cell b sq.1 sq.2)) sqs.

Definition shadeOf (sq : nat * nat) : Distribution.squareColor :=
  Distribution.getSquareColor sq.1 sq.2.

(** What the scan of [verifyBoard] does to the entry of one colour. *)
Definition noteSquare (b : board) (color : string) (t : Distribution.Tally.t)
    (sq : nat * nat) : Distribution.Tally.t :=
  match Engine.cell b sq.1 sq.2 with
  | Some piece =>
      if String.eqb (Piece.color piece) color
      then Distribution.note (Piece.pieceType piece) (shadeOf sq) t
      else t
  | None => t
  end.

(** Every piece of the 8x8 window that [verifyBoard] looks at is white or
    black. *)
Definition twoColours (b : board) : Prop :=
  forall r c piece,
    r < 8 -> c < 8 -> Engine.cell b r c = Some piece ->
    Distribution.counted (Piece.pieceType piece) = true ->
    Piece.color piece = "white" \/ Piece.color piece = "black".

(** The four checks of [verifyBoard] for a colour, read off the board: a
    bishop on a light and one on a dark square; exactly two rooks, on
    squares of different colours; the same for the knights; the last king
    and the last queen of the scan not on the same colour, where a missing
    one differs from a present one and two missing ones are the same. *)
Definition verdict (b : board) (color : string) : Distribution.Validity.t :=
  Distribution.Validity.mk
    (existsb Distribution.isLight (hits b "bishop" color Engine.squares)
     && existsb (fun sq => negb (Distribution.isLight sq))
          (hits b "bishop" color Engine.squares))
    (Distribution.twoDiffer (map shadeOf (hits b "rook" color Engine.squares)))
    (Distribution.twoDiffer (map shadeOf (hits b "knight" color Engine.squares)))
    (Distribution.notSame
       (option_map shadeOf (last (hits b "king" color Engine.squares)))
       (option_map shadeOf (last (hits b "queen" color Engine.squares)))).

(** A piece [verifyBoard] cannot file: one of the five types it looks at,
    of a colour that is neither white nor black. *)
Definition stray (piece : Piece.t) : Prop :=
  Distribution.counted (Piece.pieceType piece) = true
  /\ Piece.color piece <> "white" /\ Piece.color piece <> "black".

(** ** Sample data *)

Module Sample.

Definition backRank (color : string) : list (option Piece.t) :=
  map (fun t => Some (Piece.mk "x" t color))
    ["rook"; "knight"; "bishop"; "queen"; "king"; "bishop"; "knight"; "rook"].

Definition pawnRank (color : string) : list (option Piece.t) :=
  repeat (Some (Piece.mk "o" "pawn" color)) 8.

Definition emptyRank : list (option Piece.t) := repeat None 8.

Definition startBoard : board :=
  [backRank "white"; pawnRank "white"; emptyRank; emptyRank; emptyRank;
   emptyRank; pawnRank "black"; backRank "black"].

Definition emptyBoard : board := repeat emptyRank 8.

(** A board whose second cell holds a piece of a type outside the table. *)
Definition oddBoard : board :=
  (None :: Some (Piece.mk "z" "zebra" "white") :: repeat None 6)
  :: repeat emptyRank 7.

(** A game in which the starting position is recorded twice, then an empty
    board, ended by a win of white. *)
Definition shortGame : list Engine.call :=
  [Engine.RecordPosition startBoard "white" (Some "e2e4");
   Engine.RecordPosition startBoard "white" None;
   Engine.RecordPosition emptyBoard "black" None;
   Engine.EndGame "white"].

(** The shortest game with a move: one recorded position, then the end. *)
Definition oneMoveGame : list Engine.call :=
  [Engine.RecordPosition startBoard "white" (Some "e2e4");
   Engine.EndGame "white"].

(** A store with three positions: five games all won by white, four games
    all won by white, ten games of which white won five. *)
Definition record (h : string) (total white : nat) : string * Engine.Position.t :=
  (h, Engine.Position.mk h "8/8/8/8/8/8/8/8 w" total
        (Engine.Outcomes.mk white (total - white) 0) [] [] total).

Definition threePositions : Engine.learner :=
  Engine.mkLearner
    (Engine.Database.mk [record "A" 5 5; record "B" 4 4; record "C" 10 5] [] 0)
    None.

(** Two positions of five games: white won four of one and one of the
    other. *)
Definition closeShares : Engine.learner :=
  Engine.mkLearner (Engine.Database.mk [record "high" 5 4; record "low" 5 1] [] 0) None.

(** Two positions of twenty games: white won eleven of one and nine of the
    other. *)
Definition nearEven : Engine.learner :=
  Engine.mkLearner (Engine.Database.mk [record "more" 20 11; record "less" 20 9] [] 0) None.

(** Two moves of which the less played has the lower rate of wins. *)
Definition quietMoves : obj Engine.MoveStats.t :=
  [("a", Engine.MoveStats.mk 20 9 11 0); ("b", Engine.MoveStats.mk 5 2 3 0)].

Definition quietStore : Engine.learner :=
  Engine.mkLearner
    (Engine.Database.mk
       [("P", Engine.Position.mk "P" "8/8/8/8/8/8/8/8 w" 0 (Engine.Outcomes.mk 0 0 0)
                quietMoves [] 0)] [] 0)
    None.

(** Two moves of which the better has been played more than 20 times. *)
Definition busyMoves : obj Engine.MoveStats.t :=
  [("a", Engine.MoveStats.mk 40 36 4 0); ("b", Engine.MoveStats.mk 20 17 3 0)].

Definition busyPositions : list Learn.Position.t :=
  [Learn.Position.mk "d3J3a3di" busyMoves].

(** Two moves whose exact scores are both 17/20. *)
Definition closeMoves : obj Engine.MoveStats.t :=
  [("a", Engine.MoveStats.mk 20 17 3 0); ("b", Engine.MoveStats.mk 10 8 2 0)].

Definition closePositions : list Learn.Position.t :=
  [Learn.Position.mk "d3J3a3di" closeMoves].

Definition finished (moves : list string) (result : string) : Engine.Game.t :=
  Engine.Game.mk [] moves (Some result).

Definition storeOf (games : list Engine.Game.t) : Engine.learner :=
  Engine.mkLearner (Engine.Database.mk [] games (length games)) None.


(** A game whose only move is named like a member of every object. *)
Definition memberGames : list Engine.Game.t :=
  [finished ["constructor"] "white"].

(** Five games: three open with e4 e5, one with d4 d5, one is too short. *)
Definition fiveGames : list Engine.Game.t :=
  [finished ["e4"; "e5"; "Nf3"] "white"; finished ["d4"; "d5"] "draw";
   finished ["e4"] "white"; finished ["e4"; "e5"] "black";
   finished ["e4"; "e5"; "f4"] "white"].

(** A parser for a few literal documents, enough to run the import on
    examples, and a printer that does not look at its argument. *)
Definition quote : string := String (ascii_of_nat 34) EmptyString.

(** The text of an object whose only field is an empty [metadata]. *)
Definition bareMetadata : string := "{" +:+ quote +:+ "metadata" +:+ quote +:+ ":{}}".

Definition parseLiteral (s : string) : option Persistence.value :=
  if String.eqb s "null" then Some Persistence.Null
  else if String.eqb s "42" then Some (Persistence.Number 42)
  else if String.eqb s "{}" then Some (Persistence.Object [])
  else if String.eqb s bareMetadata
       then Some (Persistence.Object [("metadata", Persistence.Object [])])
  else None.

Definition printOpaque (v : Persistence.value) : string := "(document)".

Definition noon : Persistence.env :=
  Persistence.mkEnv "2024-01-01T12:00:00.000Z" true.

Definition emptyStore : Persistence.learner :=
  Persistence.mkLearner (Persistence.defaultDatabase "2024-01-01T00:00:00.000Z") None.

(** The starting position with a white rook whose colour is spelled with a
    character outside Latin-1 on the first square. *)
Definition glyphBoard : board :=
  (Some (Piece.mk "x" "rook" "♜") :: repeat None 7) :: repeat emptyRank 7.

(** The same with a colour that starts with a Latin-1 letter above
    U+007F. *)
Definition accentBoard : board :=
  (Some (Piece.mk "x" "rook" "écru") :: repeat None 7) :: repeat emptyRank 7.

(** A board with three white pieces in the corner and nothing else, its
    rows cut short. *)
Definition cornerBoard : board :=
  [Some (Piece.mk "R" "rook" "white"); Some (Piece.mk "N" "knight" "white");
   Some (Piece.mk "B" "bishop" "white")]
  :: repeat [] 7.

(** The empty store as a save at noon leaves it, and a parser that knows
    the text [printOpaque] gives it. *)
Definition stampedStore : Persistence.value :=
  Persistence.defaultDatabase "2024-01-01T12:00:00.000Z".

Definition parseStored (s : string) : option Persistence.value :=
  if String.eqb s "(document)" then Some stampedStore else None.


(** A generator for the examples. *)
Definition dice (n : nat) : Q := Z.of_nat ((n * 37 + 11) mod 101) # 101.

End Sample.

(** * Properties *)

(** ** Facts about the dictionary model *)

Section ObjFacts.
Context {V : Type}.
Implicit Types (o : obj V) (k : string) (v : V).

Lemma get_set_eq k v o : get k (set k v o) = Some v.
Proof.
  induction o as [|[k' v'] o IH]; simpl.
  - by rewrite String.eqb_refl.
  - destruct (String.eqb_spec k k') as [->|Hne]; simpl.
    + by rewrite String.eqb_refl.
    + destruct (String.eqb_spec k k'); [done | exact IH].
Qed.

Lemma get_set_ne k k' v o : k <> k' -> get k' (set k v o) = get k' o.
Proof.
  intros Hne. induction o as [|[k0 v0] o IH]; simpl.
  - destruct (String.eqb_spec k' k); [congruence | done].
  - destruct (String.eqb_spec k k0) as [->|Hk]; simpl.
    + destruct (String.eqb_spec k' k0); [congruence | done].
    + destruct (String.eqb_spec k' k0); [done | exact IH].
Qed.

Lemma get_set k k' v o :
  get k' (set k v o) = if String.eqb k k' then Some v else get k' o.
Proof.
  destruct (String.eqb_spec k k') as [->|Hne].
  - apply get_set_eq.
  - by apply get_set_ne.
Qed.

Lemma get_In k v o : get k o = Some v -> In (k, v) o.
Proof.
  induction o as [|[k' v'] o IH]; simpl; [done|].
  destruct (String.eqb_spec k k') as [->|Hne].
  - intros [= ->]. by left.
  - intros H. right. by apply IH.
Qed.

Lemma get_None_keys k o : get k o = None <-> ~ In k (keys o).
Proof.
  induction o as [|[k' v'] o IH]; simpl; [tauto|].
  destruct (String.eqb_spec k k') as [->|Hne].
  - split; [done | intros H; exfalso; apply H; by left].
  - rewrite IH. split; [intros H [Heq|Hin]; [congruence | tauto] | tauto].
Qed.

Lemma keys_set_present k v o :
  In k (keys o) -> keys (set k v o) = keys o.
Proof.
  induction o as [|[k' v'] o IH]; simpl; [done|].
  destruct (String.eqb_spec k k') as [->|Hne]; simpl; [done|].
  intros [Heq|Hin]; [congruence|]. f_equal. by apply IH.
Qed.

Lemma keys_set_absent k v o :
  ~ In k (keys o) -> set k v o = o ++ [(k, v)].
Proof.
  induction o as [|[k' v'] o IH]; simpl; [done|].
  destruct (String.eqb_spec k k') as [->|Hne]; simpl.
  - intros H. exfalso. apply H. by left.
  - intros H. f_equal. apply IH. tauto.
Qed.

(** Distinct property names, as in any object, and what they give. *)
Lemma NoDup_keys_get k v o :
  NoDup (keys o) -> In (k, v) o -> get k o = Some v.
Proof.
  induction o as [|[k' v'] o IH]; simpl; [done|].
  intros Hnd Hin. apply NoDup_cons in Hnd as [Hk' Hnd].
  destruct Hin as [[= -> ->]|Hin].
  - by rewrite String.eqb_refl.
  - destruct (String.eqb_spec k k') as [->|_]; [|by apply IH].
    exfalso. apply Hk'. apply list_elem_of_In. by apply (in_map fst) in Hin.
Qed.

Lemma set_keys_NoDup k v o :
  NoDup (keys o) -> NoDup (keys (set k v o)).
Proof.
  intros Hnd. destruct (in_dec string_dec k (keys o)) as [Hin|Hout].
  - by rewrite keys_set_present.
  - rewrite keys_set_absent by done. unfold keys. rewrite map_app. simpl.
    apply NoDup_app. split; [exact Hnd|]. split.
    + intros x Hx [->|[]]%list_elem_of_In. by apply list_elem_of_In in Hx.
    + apply NoDup_singleton.
Qed.

(** Reading along the prototype chain. *)
Lemma inherited_existsb k : existsb (String.eqb k) inherited = true <-> In k inherited.
Proof.
  rewrite existsb_exists. split.
  - intros (x & Hin & Heq). apply String.eqb_eq in Heq. by subst.
  - intros Hin. exists k. split; [exact Hin | apply String.eqb_refl].
Qed.

Lemma lookup_own k o :
  ~ In k inherited ->
  lookup k o = match get k o with Some v => Own v | None => Missing end.
Proof.
  intros Hk. unfold lookup. destruct (get k o); [done|].
  destruct (existsb (String.eqb k) inherited) eqn:E; [|done].
  by apply inherited_existsb in E.
Qed.

Lemma lookup_inherited k o :
  In k inherited -> get k o = None -> lookup k o = Inherited.
Proof.
  intros Hk Hget. unfold lookup. rewrite Hget.
  apply inherited_existsb in Hk. by rewrite Hk.
Qed.

End ObjFacts.

(** ** The canonical key *)

Module KeyFacts.
Import Engine.

Lemma digit_range n : In (Base64.digit n) (Base64.pad :: Base64.alphabet).
Proof.
  unfold Base64.digit.
  destruct (nth_in_or_default n Base64.alphabet Base64.pad) as [Hin|Heq].
  - by right.
  - rewrite Heq. by left.
Qed.

(** Every character [btoa] emits is a base64 digit or the padding.  The
    encoder consumes three bytes a turn, so the induction carries the lists
    with one and two more bytes in front. *)
Lemma encode_range bytes :
  base64Text (Base64.encode bytes)
  /\ (forall a, base64Text (Base64.encode (a :: bytes)))
  /\ (forall a b, base64Text (Base64.encode (a :: b :: bytes))).
Proof.
  assert (Hpad : In Base64.pad (Base64.pad :: Base64.alphabet)) by (by left).
  induction bytes as [|c bytes (IH1 & IH2 & IH3)].
  - split; [constructor|].
    split; intros; simpl;
      repeat (constructor; [first [apply digit_range | exact Hpad]|]);
      constructor.
  - split; [apply IH2|]. split; [intros; apply IH3|].
    intros a b. simpl. repeat (constructor; [apply digit_range|]). exact IH1.
Qed.

Lemma btoa_range s : base64Text (Base64.btoa s).
Proof. apply encode_range. Qed.

(** What survives the stripping of [+], [/] and [=] is a letter or a digit. *)
Lemma keySafe_alnum c :
  In c (Base64.pad :: Base64.alphabet) -> keySafe c = true -> isAlnum c = true.
Proof.
  intros Hin Hsafe.
  assert (Hall : forallb (fun c => negb (keySafe c) || isAlnum c)
                   (Base64.pad :: Base64.alphabet) = true) by reflexivity.
  rewrite forallb_forall in Hall. specialize (Hall c Hin).
  rewrite Hsafe in Hall. exact Hall.
Qed.

Lemma length_string_of_list_ascii l :
  String.length (string_of_list_ascii l) = length l.
Proof. induction l as [|c l IH]; simpl; congruence. Qed.

(** Walking rows that all exist never throws, whatever prints the pieces. *)
Lemma scanRows_total code (b : board) rs str :
  Forall (fun r => r < length b) rs -> is_Some (scanRows code b rs str).
Proof.
  intros Hrs. revert str.
  induction Hrs as [|r rs Hr _ IH]; intros str; simpl; [by eexists|].
  destruct (lookup_lt_is_Some_2 b r Hr) as [row ->]. apply IH.
Qed.

Lemma scanRows_code_irrelevant code code' (b : board) rs str str' :
  is_Some (scanRows code b rs str) -> is_Some (scanRows code' b rs str').
Proof.
  revert str str'. induction rs as [|r rs IH]; intros str str'; simpl; [by eexists|].
  destruct (b !! r) as [row|]; [apply IH | done].
Qed.

Lemma seq_below n : Forall (fun r => r < n) (seq 0 n).
Proof. apply List.Forall_forall. intros r Hr. apply in_seq in Hr. lia. Qed.

(** The key of any board that can be walked. *)
Lemma hashPosition_shape (b : board) currentPlayer key :
  hashPosition b currentPlayer = Some key ->
  String.length key <= 8 /\ Forall (fun c => isAlnum c = true) (list_ascii_of_string key).
Proof.
  unfold hashPosition.
  destruct (scanRows pieceCode b (seq 0 8) EmptyString) as [placement|]; [|done].
  intros [= <-]. split.
  - rewrite length_string_of_list_ascii.
    etransitivity; [apply List.filter_length_le|]. apply firstn_le_length.
  - rewrite list_ascii_of_string_of_list_ascii.
    apply List.Forall_forall. intros c Hc. apply filter_In in Hc as [Hc Hsafe].
    apply keySafe_alnum; [|exact Hsafe].
    pose proof (btoa_range
      (placement +:+ (if String.eqb currentPlayer "white" then "w" else "b"))) as Hr.
    unfold base64Text in Hr. rewrite List.Forall_forall in Hr. apply Hr.
    apply list_elem_of_In. eapply subseteq_take. apply list_elem_of_In, Hc.
Qed.

(** *** Keys are never inherited property names

    The key starts with the base64 digit of the first six bits of the
    placement, which starts with [w], [b] or a digit from 1 to 8: the key
    starts with [d], [Y], [M], [N] or [O], and no name of [inherited] does.
    So [positions[hash]] reads an own property or nothing, as [get] does. *)

Lemma headOf_append a b :
  headOf (a +:+ b) = match headOf a with Some c => Some c | None => headOf b end.
Proof. by destruct a. Qed.

Lemma headOf_run n :
  0 < n <= 8 -> exists c, headOf (string_of_nat n) = Some c /\ placementStart c = true.
Proof.
  intros Hn.
  do 9 (destruct n as [|n]; [first [lia | by eexists]|]). lia.
Qed.

Lemma headOf_pieceCode piece :
  exists c, headOf (pieceCode piece) = Some c /\ placementStart c = true.
Proof.
  unfold pieceCode. destruct (String.eqb (Piece.color piece) "white"); by eexists.
Qed.

Lemma headOf_scanCells cells empty :
  0 < empty + length cells <= 8 ->
  exists c, headOf (scanCells pieceCode cells empty) = Some c /\ placementStart c = true.
Proof.
  revert empty. induction cells as [|[piece|] cells IH]; intros empty Hn; simpl in *.
  - destruct (Nat.ltb_spec 0 empty); [|lia]. apply headOf_run. lia.
  - destruct (Nat.ltb_spec 0 empty).
    + destruct (headOf_run empty) as (c & Hc & Hok); [lia|].
      exists c. by rewrite headOf_append, Hc.
    + rewrite headOf_append. simpl. rewrite headOf_append.
      destruct (headOf_pieceCode piece) as (c & Hc & Hok).
      exists c. by rewrite Hc.
  - apply IH. lia.
Qed.

Lemma scanRows_head code (b : board) rs str s c :
  scanRows code b rs str = Some s -> headOf str = Some c -> headOf s = Some c.
Proof.
  revert str. induction rs as [|r rs IH]; intros str; simpl.
  - by intros [= ->].
  - destruct (b !! r) as [row|]; [|done].
    intros Hs Hc. apply (IH _ Hs). by rewrite headOf_append, Hc.
Qed.

Lemma placement_head (b : board) placement :
  scanRows pieceCode b (seq 0 8) EmptyString = Some placement ->
  exists c, headOf placement = Some c /\ placementStart c = true.
Proof.
  change (seq 0 8) with (0 :: seq 1 7). cbn [scanRows].
  destruct (b !! 0) as [row|]; [|done].
  intros Hs.
  destruct (headOf_scanCells (map (cellAt row) (seq 0 8)) 0) as (c & Hc & Hok).
  { rewrite length_map, length_seq. lia. }
  exists c. split; [|exact Hok].
  apply (scanRows_head _ _ _ _ _ _ Hs).
  rewrite headOf_append. simpl. rewrite headOf_append. unfold scanRow. by rewrite Hc.
Qed.

Lemma encode_head a bytes :
  exists rest, Base64.encode (a :: bytes) = Base64.digit (a / 4) :: rest.
Proof.
  destruct bytes as [|b [|c bytes]]; by eexists.
Qed.

Lemma placementStart_digit c :
  placementStart c = true ->
  keyStart (Base64.digit (nat_of_ascii c / 4)) = true
  /\ keySafe (Base64.digit (nat_of_ascii c / 4)) = true.
Proof.
  destruct c as [[] [] [] [] [] [] [] []]; try discriminate; by vm_compute.
Qed.

Lemma hashPosition_start (b : board) currentPlayer key :
  hashPosition b currentPlayer = Some key ->
  exists c, headOf key = Some c /\ keyStart c = true.
Proof.
  unfold hashPosition.
  destruct (scanRows pieceCode b (seq 0 8) EmptyString) as [placement|] eqn:Hs; [|done].
  destruct (placement_head b placement Hs) as (c & Hc & Hok).
  intros [= <-]. unfold Base64.btoa.
  destruct placement as [|c' placement']; [done|]. injection Hc as ->.
  change (map nat_of_ascii
            (list_ascii_of_string
               (String c placement'
                +:+ (if String.eqb currentPlayer "white" then "w" else "b"))))
    with (nat_of_ascii c
          :: map nat_of_ascii
               (list_ascii_of_string
                  (placement' +:+ (if String.eqb currentPlayer "white" then "w" else "b")))).
  destruct (encode_head (nat_of_ascii c)
              (map nat_of_ascii
                 (list_ascii_of_string
                    (placement' +:+ (if String.eqb currentPlayer "white" then "w" else "b")))))
    as [rest ->].
  destruct (placementStart_digit c Hok) as [Hstart Hsafe].
  cbn [take List.filter]. rewrite Hsafe. simpl. by eexists.
Qed.

Lemma hashPosition_own (b : board) currentPlayer key :
  hashPosition b currentPlayer = Some key -> ~ In key inherited.
Proof.
  intros Hkey Hin.
  destruct (hashPosition_start b currentPlayer key Hkey) as (c & Hc & Hok).
  unfold inherited in Hin. simpl in Hin.
  repeat (destruct Hin as [<-|Hin]; [simpl in Hc; injection Hc as <-; discriminate|]).
  destruct Hin.
Qed.

End KeyFacts.

(** C9. For every 8x8 board and side to move, [hashPosition] returns a key
    of at most 8 characters, all of them letters or digits. *)
Theorem hashPosition_key (b : board) (currentPlayer : string) :
  is8x8 b ->
  exists key,
    Engine.hashPosition b currentPlayer = Some key
    /\ String.length key <= 8
    /\ Forall (fun c => isAlnum c = true) (list_ascii_of_string key).
Proof.
  intros [Hrows _].
  destruct (KeyFacts.scanRows_total Engine.pieceCode b (seq 0 8) EmptyString) as [placement Hp].
  { rewrite Hrows. apply KeyFacts.seq_below. }
  assert (Hkey : is_Some (Engine.hashPosition b currentPlayer)).
  { unfold Engine.hashPosition. rewrite Hp. by eexists. }
  destruct Hkey as [key Hkey]. exists key. split; [exact Hkey|].
  eapply KeyFacts.hashPosition_shape, Hkey.
Qed.

Lemma hashPosition_key_witness :
  is8x8 Sample.startBoard
  /\ exists key,
       Engine.hashPosition Sample.startBoard "white" = Some key
       /\ String.length key <= 8
       /\ Forall (fun c => isAlnum c = true) (list_ascii_of_string key).
Proof.
  assert (H : is8x8 Sample.startBoard).
  { split; [reflexivity | repeat constructor]. }
  split; [exact H | exact (hashPosition_key Sample.startBoard "white" H)].
Defined.

(** The stripping does shorten a key: with a piece of unknown type in the
    second cell the third base64 digit is [/]. *)
Example hashPosition_stripped :
  Engine.hashPosition Sample.oddBoard "white" = Some "MXcNi84".
Proof. reflexivity. Qed.

(** ** The tracker and the store *)

Module EngineFacts.
Import Engine.

Lemma hashPosition_boardToFEN (b : board) currentPlayer hash :
  hashPosition b currentPlayer = Some hash -> is_Some (boardToFEN b currentPlayer).
Proof.
  unfold hashPosition, boardToFEN. intros H.
  destruct (KeyFacts.scanRows_code_irrelevant pieceCode Piece.type b (seq 0 8) EmptyString EmptyString)
    as [fen ->].
  - destruct (scanRows pieceCode b (seq 0 8) EmptyString); [by eexists | done].
  - by eexists.
Qed.

Lemma scanRows_rows code (b : board) rs str s :
  scanRows code b rs str = Some s -> List.Forall (fun r => r < length b) rs.
Proof.
  revert str. induction rs as [|r rs IH]; intros str; simpl; [constructor|].
  destruct (b !! r) as [row|] eqn:Hr; [|done].
  intros Hs. constructor; [by eapply lookup_lt_Some | by eapply IH].
Qed.

Lemma boardToFEN_rows (b : board) currentPlayer :
  is_Some (boardToFEN b currentPlayer) -> 8 <= length b.
Proof.
  unfold boardToFEN. intros [fen Hfen].
  destruct (scanRows Piece.type b (seq 0 8) EmptyString) as [s|] eqn:Hs; [|done].
  apply scanRows_rows in Hs. rewrite List.Forall_forall in Hs.
  specialize (Hs 7). rewrite in_seq in Hs. lia.
Qed.

(** The heuristics return on a board of eight rows, and only there. *)
Lemma detectPatterns_rows (b : board) currentPlayer :
  8 <= length b ->
  detectPatterns b currentPlayer
  = Some ((if kingFound b "white" then ["white_king_safe"] else [])
          ++ (if kingFound b "black" then ["black_king_safe"] else [])
          ++ ["white_center"] ++ ["black_center"]
          ++ (if bishopPair b "white" then ["white_bishop_pair"] else [])
          ++ (if bishopPair b "black" then ["black_bishop_pair"] else [])
          ++ (if doubledPawns b "white" then ["white_doubled_pawns"] else [])
          ++ (if doubledPawns b "black" then ["black_doubled_pawns"] else [])).
Proof.
  intros Hlen. unfold detectPatterns, isKingSafe, hasBishopPair, hasDoubledPawns.
  by destruct (Nat.ltb_spec (length b) 8); [lia|].
Qed.

Lemma detectPatterns_short (b : board) currentPlayer :
  length b < 8 -> detectPatterns b currentPlayer = None.
Proof.
  intros Hlen. unfold detectPatterns, isKingSafe.
  by destruct (Nat.ltb_spec (length b) 8); [|lia].
Qed.

(** The positions after a visit: the record of [hash] is created if need
    be and its popularity grows by one; nothing else moves. *)
Lemma updatePositionStats_positions hash (b : board) currentPlayer d d' :
  updatePositionStats hash b currentPlayer d = Some d' ->
  exists pos,
    Database.positions d' = set hash (visit pos) (Database.positions d)
    /\ Database.games d' = Database.games d
    /\ match get hash (Database.positions d) with
       | Some pos0 => pos = pos0
       | None =>
           Position.totalGames pos = 0 /\ Position.popularity pos = 0
           /\ Position.outcomes pos = Outcomes.mk 0 0 0 /\ Position.moves pos = []
       end.
Proof.
  unfold updatePositionStats.
  destruct (get hash (Database.positions d)) as [pos0|] eqn:Hget.
  - intros [= <-]. by exists pos0.
  - destruct (boardToFEN b currentPlayer) as [fen|]; [|done].
    destruct (detectPatterns b currentPlayer) as [patterns|]; [|done].
    intros [= <-]. eexists. simpl. repeat split; reflexivity.
Qed.

(** *** Invariants of the position records

    A property of single records that the three writers of a record keep
    (creation, visit, credit of a finished game) holds of every record after
    any run. *)

Section RecordInvariant.
Variable P : Position.t -> Prop.
Variable R : string -> Prop.
Hypothesis P_new : forall pos,
  Position.totalGames pos = 0 -> Position.popularity pos = 0 ->
  Position.outcomes pos = Outcomes.mk 0 0 0 -> Position.moves pos = [] -> P pos.
Hypothesis P_visit : forall pos, P pos -> P (visit pos).
Hypothesis P_credit : forall result ply pos, R result -> P pos -> P (credit result ply pos).

Lemma fold_keeps result plies seen (positions : obj Position.t) :
  R result ->
  (forall h p, get h positions = Some p -> P p) ->
  forall h p,
    get h (foldl (updateGamePosition result) (seen, positions) plies).2 = Some p -> P p.
Proof using P_credit.
  intros HR. revert seen positions.
  induction plies as [|ply plies IH]; intros seen positions Hall; simpl; [exact Hall|].
  destruct (decide (Ply.hash ply ∈ seen)); [by apply IH|].
  destruct (get (Ply.hash ply) positions) as [position|] eqn:Hget; [|by apply IH].
  apply IH. intros h p. rewrite get_set.
  destruct (String.eqb (Ply.hash ply) h); [|apply Hall].
  intros [= <-]. apply P_credit; [exact HR | by eapply Hall].
Qed.

Lemma perform_keeps c st :
  endsWith R c -> allPositions P st -> allPositions P (perform c st).
Proof using P_new P_visit P_credit.
  intros Hc Hall. destruct c as [|b currentPlayer move|result|]; simpl.
  - exact Hall.
  - unfold recordPosition.
    destruct (hashPosition b currentPlayer) as [hash|]; [|exact Hall].
    destruct (updatePositionStats hash b currentPlayer (db st)) as [d|] eqn:Hd;
      [|exact Hall].
    destruct (updatePositionStats_positions _ _ _ _ _ Hd) as (pos & Hpos & _ & Hold).
    intros h p. unfold positionsOf. simpl. rewrite Hpos, get_set.
    destruct (String.eqb hash h); [|apply Hall].
    intros [= <-]. apply P_visit.
    destruct (get hash (Database.positions (db st))) as [pos0|] eqn:Hget.
    + subst pos. by eapply Hall.
    + destruct Hold as (? & ? & ? & ?). by apply P_new.
  - unfold endGame. destruct (currentGame st) as [game|]; [|exact Hall].
    intros h p. unfold positionsOf, updateGamePositions. simpl.
    apply fold_keeps; [exact Hc | exact Hall].
  - intros h p. unfold positionsOf. simpl. done.
Qed.

Lemma run_keeps cs st :
  Forall (endsWith R) cs -> allPositions P st -> allPositions P (run cs st).
Proof using P_new P_visit P_credit.
  intros Hcs. revert st. unfold run.
  induction Hcs as [|c cs Hc _ IH]; intros st Hall; simpl; [exact Hall|].
  apply IH. by apply perform_keeps.
Qed.

End RecordInvariant.

Lemma countOutcome_sum result o :
  validResult result ->
  Outcomes.white (countOutcome result o) + Outcomes.black (countOutcome result o)
  + Outcomes.draw (countOutcome result o)
  = S (Outcomes.white o + Outcomes.black o + Outcomes.draw o).
Proof.
  intros [->| [->| ->]]; simpl; lia.
Qed.

Lemma newLearner_empty P : allPositions P newLearner.
Proof. intros h p. done. Qed.

End EngineFacts.

(** C1. Starting from a store whose records balance (the empty store of a
    new learner, or of [reset], has none), after any run of calls in which
    every game is ended with [white], [black] or [draw], every position with
    [totalGames > 0] has [outcomes.white + outcomes.black + outcomes.draw]
    equal to [totalGames]. *)
Theorem outcomes_sum_to_totalGames (cs : list Engine.call) (st : Engine.learner) :
  Forall (endsWith validResult) cs ->
  allPositions (fun p => outcomeSum p = Engine.Position.totalGames p) st ->
  forall h p,
    get h (positionsOf (Engine.run cs st)) = Some p ->
    0 < Engine.Position.totalGames p ->
    outcomeSum p = Engine.Position.totalGames p.
Proof.
  intros Hcs Hst h p Hget _.
  refine (EngineFacts.run_keeps _ validResult _ _ _ cs st Hcs Hst h p Hget).
  - intros pos Ht _ Ho _. unfold outcomeSum. rewrite Ht, Ho. reflexivity.
  - intros pos H. exact H.
  - intros result ply pos Hr H. unfold outcomeSum in *. simpl.
    rewrite (EngineFacts.countOutcome_sum result _ Hr). by f_equal.
Qed.

Lemma outcomes_sum_to_totalGames_witness :
  exists p,
    get "d3J3bndi" (positionsOf (Engine.run Sample.shortGame Engine.newLearner)) = Some p
    /\ 0 < Engine.Position.totalGames p
    /\ outcomeSum p = Engine.Position.totalGames p.
Proof.
  eexists. split; [vm_compute; reflexivity|].
  split; [vm_compute; lia|].
  apply (outcomes_sum_to_totalGames Sample.shortGame Engine.newLearner) with "d3J3bndi".
  - repeat (constructor; [simpl; first [exact I | by left]|]). constructor.
  - apply EngineFacts.newLearner_empty.
  - vm_compute. reflexivity.
  - vm_compute. lia.
Defined.

Module FoldFacts.
Import Engine.


(** A move whose statistics exist is counted for the mover. *)
Lemma updateMoves_present result ply m stats (moves : obj MoveStats.t) :
  truthy (Ply.move ply) = Some m ->
  get m moves = Some stats ->
  get m (updateMoves result ply moves) = Some (countMove result (Ply.player ply) stats).
Proof.
  intros Hm Hs. unfold updateMoves. rewrite Hm, Hs. apply get_set_eq.
Qed.

(** A move without statistics is dropped: the guard of the source wants
    the entry to be there already. *)
Lemma updateMoves_absent result ply m (moves : obj MoveStats.t) :
  truthy (Ply.move ply) = Some m ->
  get m moves = None ->
  updateMoves result ply moves = moves.
Proof.
  intros Hm Hs. unfold updateMoves. by rewrite Hm, Hs.
Qed.

(** [countMove] raises exactly one of [wins], [draws], [losses]: [wins] when
    the result is the mover's side, else [draws] for a draw, else [losses]. *)
Lemma countMove_cases result player stats :
  let stats' := countMove result player stats in
  (result = player ->
   MoveStats.wins stats' = S (MoveStats.wins stats)
   /\ MoveStats.draws stats' = MoveStats.draws stats
   /\ MoveStats.losses stats' = MoveStats.losses stats)
  /\ (result <> player -> result = "draw" ->
      MoveStats.wins stats' = MoveStats.wins stats
      /\ MoveStats.draws stats' = S (MoveStats.draws stats)
      /\ MoveStats.losses stats' = MoveStats.losses stats)
  /\ (result <> player -> result <> "draw" ->
      MoveStats.wins stats' = MoveStats.wins stats
      /\ MoveStats.draws stats' = MoveStats.draws stats
      /\ MoveStats.losses stats' = S (MoveStats.losses stats)).
Proof.
  unfold countMove.
  destruct (String.eqb_spec result player) as [Hp|Hp];
    [|destruct (String.eqb_spec result "draw") as [Hd|Hd]];
    simpl; repeat split; intros; try done; congruence.
Qed.

Lemma countMove_played result player stats :
  MoveStats.played (countMove result player stats) = S (MoveStats.played stats).
Proof.
  unfold countMove.
  destruct (String.eqb result player); [done|].
  by destruct (String.eqb result "draw").
Qed.


Lemma seen_add (k h : string) (seen : gset string) :
  h ∈ ({[k]} ∪ seen : gset string) <-> h = k \/ h ∈ seen.
Proof. rewrite elem_of_union, elem_of_singleton. tauto. Qed.

Section Fold.
Variable result : string.
Implicit Types (seen : gset string) (positions : obj Position.t) (plies : list Ply.t).

#[local] Abbreviation fold seen positions plies :=
  (foldl (updateGamePosition result) (seen, positions) plies).2.

(** A hash already seen in this game, or absent from its plies, keeps its
    record. *)
Lemma fold_skip h plies seen positions :
  h ∈ seen \/ ~ In h (map Ply.hash plies) ->
  get h (fold seen positions plies) = get h positions.
Proof.
  revert seen positions.
  induction plies as [|ply plies IH]; intros seen positions Hh; simpl; [done|].
  destruct (decide (Ply.hash ply ∈ seen)) as [Hk|Hk].
  - apply IH. simpl in Hh. tauto.
  - assert (Hne : Ply.hash ply <> h).
    { intros <-. simpl in Hh. tauto. }
    assert (Hh' : h ∈ {[Ply.hash ply]} ∪ seen \/ ~ In h (map Ply.hash plies)).
    { simpl in Hh. destruct Hh as [Hh|Hh]; [left; apply seen_add; tauto | right; tauto]. }
    destruct (get (Ply.hash ply) positions) as [position|].
    + rewrite IH by exact Hh'. by apply get_set_ne.
    + by apply IH.
Qed.

(** A hash without a record gets none. *)
Lemma fold_absent h plies seen positions :
  get h positions = None -> get h (fold seen positions plies) = None.
Proof.
  revert seen positions.
  induction plies as [|ply plies IH]; intros seen positions Hh; simpl; [done|].
  destruct (decide (Ply.hash ply ∈ seen)); [by apply IH|].
  destruct (get (Ply.hash ply) positions) as [position|] eqn:Hk; [|by apply IH].
  apply IH. rewrite get_set.
  destruct (String.eqb_spec (Ply.hash ply) h) as [Heq|_]; [congruence | done].
Qed.

(** A hash with a record that occurs in the plies, and was not seen before,
    is credited exactly once, at its first occurrence. *)
Lemma fold_once h plies seen positions p :
  h ∉ seen -> In h (map Ply.hash plies) -> get h positions = Some p ->
  exists ply,
    In ply plies /\ Ply.hash ply = h
    /\ get h (fold seen positions plies) = Some (credit result ply p).
Proof.
  revert seen positions.
  induction plies as [|ply plies IH]; intros seen positions Hseen Hin Hp; simpl;
    [destruct Hin|].
  destruct (String.eqb_spec (Ply.hash ply) h) as [Heq|Hne].
  - exists ply. split; [by left|]. split; [exact Heq|].
    destruct (decide (Ply.hash ply ∈ seen)) as [Hk|Hk]; [by rewrite Heq in Hk|].
    rewrite Heq, Hp. rewrite fold_skip by (left; apply seen_add; tauto).
    apply get_set_eq.
  - destruct Hin as [Heq|Hin]; [contradiction|].
    destruct (decide (Ply.hash ply ∈ seen)) as [Hk|Hk].
    + destruct (IH seen positions Hseen Hin Hp) as (ply' & Hin' & Hhash & Hget).
      exists ply'. split; [by right | by split].
    + assert (Hseen' : h ∉ {[Ply.hash ply]} ∪ seen).
      { rewrite seen_add. intros [Heq|Hs]; [congruence | contradiction]. }
      destruct (get (Ply.hash ply) positions) as [position|].
      * destruct (IH _ (set (Ply.hash ply) (credit result ply position) positions)
                    Hseen' Hin) as (ply' & Hin' & Hhash & Hget).
        { by rewrite get_set_ne. }
        exists ply'. split; [by right | by split].
      * destruct (IH _ positions Hseen' Hin Hp) as (ply' & Hin' & Hhash & Hget).
        exists ply'. split; [by right | by split].
Qed.

(** Whatever the plies, a record is either left alone or credited once. *)
Lemma fold_cases h plies positions :
  get h (fold ∅ positions plies) = get h positions
  \/ exists ply p,
       In ply plies /\ Ply.hash ply = h /\ get h positions = Some p
       /\ get h (fold ∅ positions plies) = Some (credit result ply p).
Proof.
  destruct (get h positions) as [p|] eqn:Hp.
  - destruct (in_dec string_dec h (map Ply.hash plies)) as [Hin|Hout].
    + right. destruct (fold_once h plies ∅ positions p) as (ply & Hply & Hhash & Hget);
        [apply not_elem_of_empty | done | done |].
      by exists ply, p.
    + left. rewrite fold_skip by (by right). done.
  - left. by apply fold_absent.
Qed.

End Fold.

End FoldFacts.

(** C2. The mover's statistics are updated only for a move that already has
    an entry under the position; nothing in the learner creates one.  At the
    first game of a new learner the position is credited with the game but
    the move played from it has no statistics afterwards. *)
Theorem first_move_statistics_dropped :
  exists p,
    get "d3J3bndi" (positionsOf (Engine.run Sample.oneMoveGame Engine.newLearner)) = Some p
    /\ Engine.Position.totalGames p = 1
    /\ Engine.Outcomes.white (Engine.Position.outcomes p) = 1
    /\ get "e2e4" (Engine.Position.moves p) = None.
Proof.
  eexists. split; [vm_compute; reflexivity|]. by vm_compute.
Qed.

Module TrackerFacts.
Import Engine.

Lemma updatePositionStats_None hash (b : board) currentPlayer d :
  updatePositionStats hash b currentPlayer d = None ->
  get hash (Database.positions d) = None.
Proof.
  unfold updatePositionStats. by destruct (get hash (Database.positions d)).
Qed.

Lemma updatePositionStats_total hash (b : board) currentPlayer d :
  is_Some (boardToFEN b currentPlayer) ->
  is_Some (updatePositionStats hash b currentPlayer d).
Proof.
  intros Hfen. unfold updatePositionStats.
  rewrite (EngineFacts.detectPatterns_rows b currentPlayer)
    by (by eapply EngineFacts.boardToFEN_rows).
  destruct Hfen as [fen ->].
  destruct (get hash (Database.positions d)); by eexists.
Qed.

(** The game in progress after a call of [recordPosition], whether or not
    one was in progress before. *)
Lemma hashesOf_default (g : option Game.t) :
  map Ply.hash (Game.positions (match g with Some game => game | None => newGame end))
  = hashesOf g.
Proof. by destruct g. Qed.

(** A successful [recordPosition]: the record of the hash is visited, the
    hash joins the game in progress. *)
Lemma recordPosition_hash (b : board) currentPlayer move st h :
  hashPosition b currentPlayer = Some h ->
  let st' := (recordPosition b currentPlayer move st).1 in
  (recordPosition b currentPlayer move st).2 = Some h
  /\ (exists pos,
        positionsOf st' = set h (visit pos) (positionsOf st)
        /\ match get h (positionsOf st) with
           | Some pos0 => pos = pos0
           | None => Position.totalGames pos = 0 /\ Position.popularity pos = 0
           end)
  /\ hashesOf (currentGame st') = hashesOf (currentGame st) ++ [h].
Proof.
  intros Hh. unfold recordPosition. rewrite Hh.
  destruct (updatePositionStats_total h b currentPlayer (db st)) as [d Hd].
  { by eapply EngineFacts.hashPosition_boardToFEN. }
  rewrite Hd. simpl. split; [done|]. split.
  - destruct (EngineFacts.updatePositionStats_positions _ _ _ _ _ Hd)
      as (pos & Hpos & _ & Hold).
    exists pos. split; [exact Hpos|]. unfold positionsOf.
    destruct (get h (Database.positions (db st))); [exact Hold | tauto].
  - rewrite map_app. simpl. by rewrite hashesOf_default.
Qed.

Lemma recordPosition_totalGames (b : board) currentPlayer move st h :
  hashPosition b currentPlayer = Some h ->
  is_Some (get h (positionsOf (recordPosition b currentPlayer move st).1))
  /\ totalGamesAt h (recordPosition b currentPlayer move st).1 = totalGamesAt h st.
Proof.
  intros Hh.
  destruct (recordPosition_hash b currentPlayer move st h Hh) as (_ & (pos & Hpos & Hold) & _).
  unfold totalGamesAt. rewrite Hpos, get_set_eq. split; [by eexists|]. simpl.
  destruct (get h (positionsOf st)); [by subst | tauto].
Qed.

Lemma recordPosition_popularity (b : board) currentPlayer move st h :
  (recordPosition b currentPlayer move st).2 = Some h ->
  popularityAt h (recordPosition b currentPlayer move st).1 = S (popularityAt h st).
Proof.
  intros Hret.
  assert (Hh : hashPosition b currentPlayer = Some h).
  { revert Hret. unfold recordPosition.
    destruct (hashPosition b currentPlayer) as [h'|]; [|done].
    by destruct (updatePositionStats h' b currentPlayer (db st)). }
  destruct (recordPosition_hash b currentPlayer move st h Hh) as (_ & (pos & Hpos & Hold) & _).
  unfold popularityAt. rewrite Hpos, get_set_eq. simpl.
  destruct (get h (positionsOf st)); [by subst | f_equal; tauto].
Qed.

(** [endGame] credits a hash of the game that has a record exactly once. *)
Lemma endGame_credits result st game h p :
  currentGame st = Some game ->
  In h (map Ply.hash (Game.positions game)) ->
  get h (positionsOf st) = Some p ->
  totalGamesAt h (endGame result st).1 = S (Position.totalGames p).
Proof.
  intros Hg Hin Hp. unfold endGame. rewrite Hg.
  unfold totalGamesAt, positionsOf, updateGamePositions. simpl.
  destruct (FoldFacts.fold_once result h (Game.positions game) ∅
              (Database.positions (db st)) p) as (ply & _ & _ & ->);
    [apply not_elem_of_empty | done | done | done].
Qed.

Lemma endGame_at_most_once result st h :
  totalGamesAt h (endGame result st).1 <= S (totalGamesAt h st).
Proof.
  unfold endGame. destruct (currentGame st) as [game|]; simpl; [|lia].
  unfold totalGamesAt, positionsOf, updateGamePositions. simpl.
  destruct (FoldFacts.fold_cases result h (Game.positions game)
              (Database.positions (db st))) as [->|(ply & p & _ & _ & -> & ->)].
  - lia.
  - simpl. lia.
Qed.

Lemma perform_popularityAhead c st :
  popularityAhead st -> popularityAhead (perform c st).
Proof.
  intros Hinv. destruct c as [|b currentPlayer move|result|]; simpl.
  - intros h p Hp. split; [by apply (Hinv h p) | intros []].
  - destruct (hashPosition b currentPlayer) as [hash|] eqn:Hh.
    + destruct (recordPosition_hash b currentPlayer move st hash Hh)
        as (_ & (pos & Hpos & Hold) & Hgame).
      intros h p. rewrite Hpos, Hgame, get_set.
      destruct (String.eqb_spec hash h) as [<-|Hne].
      * intros [= <-]. simpl.
        destruct (get hash (positionsOf st)) as [pos0|] eqn:Hget.
        -- subst pos. destruct (Hinv hash pos0 Hget). split; lia.
        -- destruct Hold as [-> ->]. split; lia.
      * intros Hp. destruct (Hinv h p Hp) as [Hle Hlt]. split; [exact Hle|].
        intros Hin. apply Hlt. apply in_app_or in Hin as [Hin|[Heq|[]]]; [exact Hin | done].
    + unfold recordPosition. rewrite Hh. simpl.
      intros h p Hp. destruct (Hinv h p Hp) as [Hle Hlt]. split; [exact Hle|].
      intros Hin. apply Hlt. unfold hashesOf in *.
      by destruct (currentGame st).
  - unfold endGame. destruct (currentGame st) as [game|] eqn:Hg; [|exact Hinv].
    intros h p. unfold positionsOf, updateGamePositions. simpl.
    destruct (FoldFacts.fold_cases result h (Game.positions game)
                (Database.positions (db st))) as [->|(ply & p0 & Hply & Hhash & Hp0 & ->)].
    + intros Hp. split; [by apply (Hinv h p) | intros []].
    + intros [= <-]. split; [|intros []]. simpl.
      apply (Hinv h p0 Hp0). rewrite Hg. simpl. rewrite <- Hhash. by apply in_map.
  - intros h p. unfold positionsOf. simpl. done.
Qed.




Lemma run_popularityAhead cs st :
  popularityAhead st -> popularityAhead (run cs st).
Proof.
  revert st. unfold run.
  induction cs as [|c cs IH]; intros st Hinv; simpl; [exact Hinv|].
  apply IH. by apply perform_popularityAhead.
Qed.

End TrackerFacts.

(** C3. Recording a position twice in one game (two calls of
    [recordPosition] whose boards hash to the same key) and ending the game
    with [white] raises [totalGames] of that position by exactly 1, whatever
    the learner held before. *)
Theorem same_position_twice_counts_once
    (b1 b2 : board) (player1 player2 : string) (move1 move2 : option string)
    (h : string) (st : Engine.learner) :
  Engine.hashPosition b1 player1 = Some h ->
  Engine.hashPosition b2 player2 = Some h ->
  totalGamesAt h
    (Engine.run
       [Engine.RecordPosition b1 player1 move1;
        Engine.RecordPosition b2 player2 move2;
        Engine.EndGame "white"] st)
  = S (totalGamesAt h st).
Proof.
  intros H1 H2. unfold Engine.run. simpl.
  set (st1 := (Engine.recordPosition b1 player1 move1 st).1).
  set (st2 := (Engine.recordPosition b2 player2 move2 st1).1).
  destruct (TrackerFacts.recordPosition_totalGames b1 player1 move1 st h H1) as [_ Ht1].
  destruct (TrackerFacts.recordPosition_totalGames b2 player2 move2 st1 h H2) as [[p Hp] Ht2].
  destruct (TrackerFacts.recordPosition_hash b2 player2 move2 st1 h H2) as (_ & _ & Hgame).
  fold st1 in Ht1. fold st2 in Ht2, Hp, Hgame.
  destruct (Engine.currentGame st2) as [game|] eqn:Hg.
  - rewrite (TrackerFacts.endGame_credits "white" st2 game h p Hg); [| |exact Hp].
    + rewrite <- Ht1, <- Ht2. unfold totalGamesAt. by rewrite Hp.
    + simpl in Hgame. rewrite Hgame. apply in_or_app. right. by left.
  - simpl in Hgame. by destruct (hashesOf (Engine.currentGame st1)).
Qed.

Lemma same_position_twice_counts_once_witness :
  totalGamesAt "d3J3bndi"
    (Engine.run
       [Engine.RecordPosition Sample.startBoard "white" (Some "e2e4");
        Engine.RecordPosition Sample.startBoard "black" None;
        Engine.EndGame "white"] Engine.newLearner)
  = S (totalGamesAt "d3J3bndi" Engine.newLearner).
Proof.
  apply same_position_twice_counts_once; reflexivity.
Defined.

(** C4. From a learner without a game in progress whose records have
    [popularity >= totalGames] (a new learner over the empty store is one),
    every run of [startGame], [recordPosition], [endGame] and [reset] leaves
    [popularity >= totalGames] in every record.  At the state reached, each
    successful recording raises the popularity of its position by one, and
    the end of a game raises [totalGames] of a position by at most one. *)
Theorem popularity_bounds_totalGames (cs : list Engine.call) (st : Engine.learner) :
  Engine.currentGame st = None ->
  allPositions (fun p => Engine.Position.totalGames p <= Engine.Position.popularity p) st ->
  allPositions (fun p => Engine.Position.totalGames p <= Engine.Position.popularity p)
    (Engine.run cs st)
  /\ (forall b currentPlayer move h,
        (Engine.recordPosition b currentPlayer move (Engine.run cs st)).2 = Some h ->
        popularityAt h (Engine.recordPosition b currentPlayer move (Engine.run cs st)).1
        = S (popularityAt h (Engine.run cs st)))
  /\ (forall result h,
        totalGamesAt h (Engine.endGame result (Engine.run cs st)).1
        <= S (totalGamesAt h (Engine.run cs st))).
Proof.
  intros Hg Hst. split; [|split].
  - assert (Hinv : popularityAhead st).
    { intros h p Hp. split; [by apply (Hst h p)|]. rewrite Hg. intros []. }
    intros h p Hp.
    by apply (TrackerFacts.run_popularityAhead cs st Hinv h p).
  - intros b currentPlayer move h. apply TrackerFacts.recordPosition_popularity.
  - intros result h. apply TrackerFacts.endGame_at_most_once.
Qed.

Lemma popularity_bounds_totalGames_witness :
  allPositions (fun p => Engine.Position.totalGames p <= Engine.Position.popularity p)
    (Engine.run Sample.shortGame Engine.newLearner)
  /\ popularityAt "d3J3bndi" (Engine.run Sample.shortGame Engine.newLearner) = 2
  /\ totalGamesAt "d3J3bndi" (Engine.run Sample.shortGame Engine.newLearner) = 1.
Proof.
  split; [|split; reflexivity].
  apply (popularity_bounds_totalGames Sample.shortGame Engine.newLearner).
  - reflexivity.
  - apply EngineFacts.newLearner_empty.
Defined.

(** ** Rounding to a double *)

Module DoubleFacts.
Import Double.
#[local] Open Scope Q_scope.

Lemma two_neq_0 : ~ (2 == 0)%Q.
Proof. discriminate. Qed.

Lemma pow2_pos k : 0 < pow2 k.
Proof. unfold pow2. apply Qpower_0_lt. reflexivity. Qed.

Lemma pow2_plus a b : pow2 (a + b) == pow2 a * pow2 b.
Proof. unfold pow2. apply Qpower_plus, two_neq_0. Qed.

Lemma pow2_le a b : (a <= b)%Z -> pow2 a <= pow2 b.
Proof. intros H. unfold pow2. apply Qpower_le_compat_l; [exact H | discriminate]. Qed.


Lemma pow2_Z a : (0 <= a)%Z -> inject_Z (2 ^ a) == pow2 a.
Proof. intros H. unfold pow2. by apply (Zpower_Qpower 2). Qed.

(** A positive integer lies between two powers of two. *)
Lemma log2_bounds n :
  (0 < n)%Z -> pow2 (Z.log2 n) <= inject_Z n /\ inject_Z n < pow2 (Z.log2 n + 1).
Proof.
  intros Hn. destruct (Z.log2_spec n Hn) as [Hlo Hhi].
  pose proof (Z.log2_nonneg n) as Hnn.
  rewrite <- !pow2_Z by lia. rewrite <- Zle_Qle, <- Zlt_Qlt.
  split; [exact Hlo|]. replace (Z.log2 n + 1)%Z with (Z.succ (Z.log2 n)) by lia. exact Hhi.
Qed.

Lemma Qabs_frac q : Qabs q == inject_Z (Z.abs (Qnum q)) / inject_Z (Zpos (Qden q)).
Proof. destruct q as [n d]. simpl. rewrite (Qmake_Qdiv (Z.abs n) d). reflexivity. Qed.

Lemma exponent_spec q :
  ~ q == 0 -> pow2 (exponent q) <= Qabs q /\ Qabs q < pow2 (exponent q + 1).
Proof.
  intros Hq.
  assert (Hn : (0 < Z.abs (Qnum q))%Z).
  { destruct q as [n d]. unfold Qeq in Hq. simpl in *. lia. }
  assert (Hd : (0 < Zpos (Qden q))%Z) by lia.
  destruct (log2_bounds _ Hn) as [Hnlo Hnhi].
  destruct (log2_bounds _ Hd) as [Hdlo Hdhi].
  assert (Hdpos : 0 < inject_Z (Zpos (Qden q))) by (rewrite <- (Zlt_Qlt 0); lia).
  unfold exponent.
  set (a := Z.log2 (Z.abs (Qnum q))) in *. set (b := Z.log2 (Zpos (Qden q))) in *.
  destruct (Qle_bool (pow2 (a - b)) (Qabs q)) eqn:Hcase.
  - apply Qle_bool_iff in Hcase. split; [exact Hcase|].
    rewrite Qabs_frac. apply Qlt_shift_div_r; [exact Hdpos|].
    eapply Qlt_le_trans; [exact Hnhi|].
    replace (a + 1)%Z with ((a - b + 1) + b)%Z by lia. rewrite pow2_plus.
    apply Qmult_le_l; [apply pow2_pos | exact Hdlo].
  - assert (Hlt : Qabs q < pow2 (a - b)).
    { apply Qnot_le_lt. intros H. apply Qle_bool_iff in H. congruence. }
    split; [|replace (a - b - 1 + 1)%Z with (a - b)%Z by lia; exact Hlt].
    rewrite Qabs_frac. apply Qle_shift_div_l; [exact Hdpos|].
    eapply Qle_trans; [|exact Hnlo].
    replace a with ((a - b - 1) + (b + 1))%Z at 2 by lia. rewrite pow2_plus.
    apply Qmult_le_l; [apply pow2_pos | apply Qlt_le_weak, Hdhi].
Qed.

Lemma nearestEven_bounds m :
  (Qfloor m <= nearestEven m <= Qfloor m + 1)%Z.
Proof.
  unfold nearestEven. destruct (Qcompare _ _); [destruct (Z.even _)| |]; lia.
Qed.


Lemma nearestEven_comp m m' : m == m' -> nearestEven m = nearestEven m'.
Proof.
  intros H. unfold nearestEven. rewrite (Qfloor_comp _ _ H).
  assert (Hc : Qcompare (m - inject_Z (Qfloor m')) (1 # 2)
               = Qcompare (m' - inject_Z (Qfloor m')) (1 # 2)) by (by rewrite H).
  by rewrite Hc.
Qed.

(** The significand of a nonzero number has 53 bits. *)
Lemma significand_bounds q :
  ~ q == 0 ->
  (2 ^ 52 <= nearestEven (Qabs q * pow2 (52 - exponent q)) <= 2 ^ 53)%Z.
Proof.
  intros Hq. destruct (exponent_spec q Hq) as [Hlo Hhi].
  set (e := exponent q) in *. set (x := Qabs q * pow2 (52 - e)).
  assert (Hx : pow2 52 <= x /\ x < pow2 53).
  { unfold x. split.
    - replace 52%Z with (e + (52 - e))%Z at 1 by lia. rewrite pow2_plus.
      apply Qmult_le_compat_r; [exact Hlo | apply Qlt_le_weak, pow2_pos].
    - replace 53%Z with ((e + 1) + (52 - e))%Z by lia. rewrite pow2_plus.
      apply Qmult_lt_compat_r; [apply pow2_pos | exact Hhi]. }
  destruct Hx as [Hx52 Hx53]. rewrite <- pow2_Z in Hx52, Hx53 by lia.
  pose proof (nearestEven_bounds x) as [Hne1 Hne2].
  assert (H1 : (2 ^ 52 <= Qfloor x)%Z).
  { rewrite <- (Qfloor_Z (2 ^ 52)). by apply Qfloor_resp_le. }
  assert (H2 : (Qfloor x < 2 ^ 53)%Z).
  { rewrite Zlt_Qlt. eapply Qle_lt_trans; [apply Qfloor_le | exact Hx53]. }
  lia.
Qed.

Lemma round_0 q : q == 0 -> round q = 0.
Proof. intros H. unfold round. apply Qeq_bool_iff in H. by rewrite H. Qed.

Lemma round_eq q :
  ~ q == 0 ->
  round q
  == (if Qle_bool 0 q then 1 else -1)
     * inject_Z (nearestEven (Qabs q * pow2 (52 - exponent q)))
     * pow2 (exponent q - 52).
Proof.
  intros Hq. unfold round.
  destruct (Qeq_bool q 0) eqn:H0; [by apply Qeq_bool_iff in H0|].
  rewrite Qred_correct. destruct (Qle_bool 0 q); ring.
Qed.

Lemma round_pos q : 0 < q -> 0 < round q.
Proof.
  intros Hq. assert (Hne : ~ q == 0) by (intros H; rewrite H in Hq; discriminate).
  rewrite (round_eq q Hne).
  assert (Hle : Qle_bool 0 q = true) by (apply Qle_bool_iff; by apply Qlt_le_weak).
  rewrite Hle. destruct (significand_bounds q Hne) as [Hm _].
  apply Qmult_lt_0_compat; [|apply pow2_pos]. rewrite Qmult_1_l.
  rewrite <- (Zlt_Qlt 0). lia.
Qed.

Lemma round_neg q : q < 0 -> round q < 0.
Proof.
  intros Hq. assert (Hne : ~ q == 0) by (intros H; rewrite H in Hq; discriminate).
  rewrite (round_eq q Hne).
  assert (Hle : Qle_bool 0 q = false).
  { apply not_true_iff_false. intros H. apply Qle_bool_iff in H. by apply Qle_not_lt in H. }
  rewrite Hle. destruct (significand_bounds q Hne) as [Hm _].
  setoid_replace (-1 * inject_Z (nearestEven (Qabs q * pow2 (52 - exponent q)))
                  * pow2 (exponent q - 52))
    with (- (inject_Z (nearestEven (Qabs q * pow2 (52 - exponent q)))
             * pow2 (exponent q - 52))) using relation Qeq by ring.
  apply (Qopp_lt_compat 0). apply Qmult_lt_0_compat; [|apply pow2_pos].
  rewrite <- (Zlt_Qlt 0). lia.
Qed.

(** Rounding keeps the sign. *)
Lemma round_sign q : 0 < round q <-> 0 < q.
Proof.
  split; [|apply round_pos]. intros Hr.
  destruct (Q_dec q 0) as [[Hneg|Hpos]|Hz]; [|exact Hpos|].
  - apply round_neg in Hneg. exfalso. apply (Qlt_irrefl 0). by apply Qlt_trans with (round q).
  - rewrite (round_0 q Hz) in Hr. discriminate.
Qed.



(** Rounding respects equality of rationals. *)
Lemma exponent_unique q e :
  pow2 e <= Qabs q -> Qabs q < pow2 (e + 1) -> ~ q == 0 -> exponent q = e.
Proof.
  intros Hlo Hhi Hq. destruct (exponent_spec q Hq) as [Hlo' Hhi'].
  assert (H1 : (e < exponent q + 1)%Z).
  { apply Z.nle_gt. intros Hle. apply pow2_le in Hle.
    apply (Qlt_irrefl (Qabs q)). apply Qlt_le_trans with (pow2 (exponent q + 1)); [done|].
    by apply Qle_trans with (pow2 e). }
  assert (H2 : (exponent q < e + 1)%Z).
  { apply Z.nle_gt. intros Hle. apply pow2_le in Hle.
    apply (Qlt_irrefl (Qabs q)). apply Qlt_le_trans with (pow2 (e + 1)); [done|].
    by apply Qle_trans with (pow2 (exponent q)). }
  lia.
Qed.

Lemma round_comp q q' : q == q' -> round q = round q'.
Proof.
  intros Heq. destruct (Qeq_dec q 0) as [Hz|Hq].
  - rewrite (round_0 q Hz). symmetry. apply round_0. by rewrite <- Heq.
  - assert (Hq' : ~ q' == 0) by (by rewrite <- Heq).
    assert (He : exponent q' = exponent q).
    { destruct (exponent_spec q Hq) as [Hlo Hhi].
      apply exponent_unique; [by rewrite <- Heq | by rewrite <- Heq | done]. }
    unfold round.
    destruct (Qeq_bool q 0) eqn:E; [by apply Qeq_bool_iff in E|].
    destruct (Qeq_bool q' 0) eqn:E'; [by apply Qeq_bool_iff in E'|].
    cbv zeta. rewrite He.
    rewrite (nearestEven_comp (Qabs q' * pow2 (52 - exponent q))
               (Qabs q * pow2 (52 - exponent q)))
      by (apply Qmult_comp; [apply Qabs_wd; symmetry; exact Heq | reflexivity]).
    assert (Hs : Qle_bool 0 q' = Qle_bool 0 q).
    { destruct (Qle_bool 0 q) eqn:L.
      - apply Qle_bool_iff. apply Qle_bool_iff in L. by rewrite <- Heq.
      - apply not_true_iff_false. intros L'. apply Qle_bool_iff in L'.
        apply not_true_iff_false in L. apply L. apply Qle_bool_iff. by rewrite Heq. }
    by rewrite Hs.
Qed.

Lemma nearestEven_close m : Qabs (inject_Z (nearestEven m) - m) <= 1 # 2.
Proof.
  pose proof (Qfloor_le m) as Hlo. pose proof (Qlt_floor m) as Hhi.
  unfold nearestEven. set (f := Qfloor m) in *.
  assert (Hup : inject_Z (f + 1) == inject_Z f + 1) by (rewrite inject_Z_plus; reflexivity).
  apply Qabs_Qle_condition.
  destruct (Qcompare (m - inject_Z f) (1 # 2)) eqn:C.
  - apply Qeq_alt in C.
    assert (Hm : m == inject_Z f + (1 # 2)) by (rewrite <- C; ring).
    destruct (Z.even f).
    + rewrite Hm. split.
      * setoid_replace (inject_Z f - (inject_Z f + (1 # 2))) with (- (1 # 2))
          using relation Qeq by ring. apply Qle_refl.
      * setoid_replace (inject_Z f - (inject_Z f + (1 # 2))) with (- (1 # 2))
          using relation Qeq by ring. discriminate.
    + rewrite Hup, Hm. split.
      * setoid_replace (inject_Z f + 1 - (inject_Z f + (1 # 2))) with (1 # 2)
          using relation Qeq by ring. discriminate.
      * setoid_replace (inject_Z f + 1 - (inject_Z f + (1 # 2))) with (1 # 2)
          using relation Qeq by ring. apply Qle_refl.
  - apply Qlt_alt in C. split.
    + apply Qplus_le_l with (z := m - inject_Z f + (1 # 2)).
      setoid_replace (- (1 # 2) + (m - inject_Z f + (1 # 2))) with (m - inject_Z f)
        using relation Qeq by ring.
      setoid_replace (inject_Z f - m + (m - inject_Z f + (1 # 2))) with (1 # 2)
        using relation Qeq by ring.
      by apply Qlt_le_weak.
    + apply Qplus_le_l with (z := m).
      setoid_replace (inject_Z f - m + m) with (inject_Z f) using relation Qeq by ring.
      apply Qle_trans with m; [exact Hlo|].
      apply Qplus_le_l with (z := - m).
      setoid_replace (m + - m) with 0 using relation Qeq by ring.
      setoid_replace ((1 # 2) + m + - m) with (1 # 2) using relation Qeq by ring.
      discriminate.
  - apply Qgt_alt in C. rewrite Hup. split.
    + apply Qplus_le_l with (z := m + (1 # 2)).
      setoid_replace (- (1 # 2) + (m + (1 # 2))) with m using relation Qeq by ring.
      setoid_replace (inject_Z f + 1 - m + (m + (1 # 2))) with (inject_Z f + 1 + (1 # 2))
        using relation Qeq by ring.
      apply Qle_trans with (inject_Z f + 1).
      * rewrite <- Hup. by apply Qlt_le_weak.
      * apply Qplus_le_r with (z := - (inject_Z f + 1)).
        setoid_replace (- (inject_Z f + 1) + (inject_Z f + 1)) with 0
          using relation Qeq by ring.
        setoid_replace (- (inject_Z f + 1) + (inject_Z f + 1 + (1 # 2))) with (1 # 2)
          using relation Qeq by ring.
        discriminate.
    + apply Qplus_le_l with (z := m - inject_Z f - (1 # 2)).
      setoid_replace (inject_Z f + 1 - m + (m - inject_Z f - (1 # 2))) with (1 # 2)
        using relation Qeq by ring.
      setoid_replace ((1 # 2) + (m - inject_Z f - (1 # 2))) with (m - inject_Z f)
        using relation Qeq by ring.
      by apply Qlt_le_weak.
Qed.

(** The error of rounding is at most half a unit of the last place. *)
Lemma round_error q :
  ~ q == 0 -> Qabs (round q - q) <= pow2 (exponent q - 53).
Proof.
  intros Hq. rewrite (round_eq q Hq). set (e := exponent q).
  set (m := Qabs q * pow2 (52 - e)).
  pose proof (nearestEven_close m) as Hclose.
  assert (Hm : Qabs q == m * pow2 (e - 52)).
  { unfold m. rewrite <- Qmult_assoc, <- pow2_plus.
    replace (52 - e + (e - 52))%Z with 0%Z by lia. unfold pow2. simpl. ring. }
  assert (Hhalf : pow2 (e - 53) == (1 # 2) * pow2 (e - 52)).
  { replace (e - 53)%Z with (-1 + (e - 52))%Z by lia. by rewrite pow2_plus. }
  assert (Hscale : forall s : Q, Qabs s == 1 ->
            Qabs (s * inject_Z (nearestEven m) * pow2 (e - 52) - s * Qabs q)
            <= pow2 (e - 53)).
  { intros s Hs.
    setoid_replace (s * inject_Z (nearestEven m) * pow2 (e - 52) - s * Qabs q)
      with (s * ((inject_Z (nearestEven m) - m) * pow2 (e - 52)))
      using relation Qeq by (rewrite Hm; ring).
    rewrite !Qabs_Qmult, Hs, Qmult_1_l, Hhalf.
    rewrite (Qabs_pos (pow2 (e - 52))) by apply Qlt_le_weak, pow2_pos.
    apply Qmult_le_compat_r; [exact Hclose | apply Qlt_le_weak, pow2_pos]. }
  destruct (Qle_bool 0 q) eqn:L.
  - apply Qle_bool_iff in L. specialize (Hscale 1 (reflexivity _)).
    rewrite (Qabs_pos q L) in Hscale.
    setoid_replace (1 * inject_Z (nearestEven m) * pow2 (e - 52) - q)
      with (1 * inject_Z (nearestEven m) * pow2 (e - 52) - 1 * q)
      using relation Qeq by ring.
    exact Hscale.
  - assert (Hneg : q <= 0).
    { apply Qlt_le_weak, Qnot_le_lt. intros L'. apply Qle_bool_iff in L'. congruence. }
    specialize (Hscale (-1) (reflexivity _)).
    rewrite (Qabs_neg q Hneg) in Hscale.
    setoid_replace (-1 * inject_Z (nearestEven m) * pow2 (e - 52) - q)
      with (-1 * inject_Z (nearestEven m) * pow2 (e - 52) - -1 * - q)
      using relation Qeq by ring.
    exact Hscale.
Qed.

(** The doubles of [0.1] and of [0.1 + 0.2], which is not the double of
    [0.3]. *)
Example round_tenth :
  round (1 # 10) == 3602879701896397 # 36028797018963968
  /\ round (round (1 # 10) + round (2 # 10)) == 5404319552844596 # 18014398509481984
  /\ round (3 # 10) == 5404319552844595 # 18014398509481984.
Proof. by vm_compute. Qed.

(** ** The operations on finite numbers *)

Lemma div_counters w t :
  (0 < t)%nat -> div (of_nat w) (of_nat t) = Finite (round (num w / num t)).
Proof.
  intros Ht. unfold div, of_nat.
  destruct (Qeq_bool (num t) 0) eqn:E; [|done].
  apply Qeq_bool_iff in E. unfold num, Qeq in E. simpl in E. lia.
Qed.

Lemma gtb_iff a b : Qgtb a b = true <-> b < a.
Proof.
  unfold Qgtb. rewrite negb_true_iff, <- not_true_iff_false, Qle_bool_iff.
  split; [apply Qnot_le_lt | apply Qlt_not_le].
Qed.

(** The comparator [b - a] of a descending sort puts [a] after [b] exactly
    when [a] is the smaller: the rounded difference has the sign of the
    exact one. *)
Lemma order_sub x y :
  Qgtb (order (sub (Finite y) (Finite x))) 0 = true <-> x < y.
Proof.
  cbn [sub opp add order]. rewrite gtb_iff, round_sign. split.
  - intros H. apply Qlt_minus_iff. exact H.
  - intros H. apply Qlt_minus_iff in H. exact H.
Qed.

End DoubleFacts.

(** ** Sorting by a descending key *)

Module SortFacts.
Import JsArray.

Section ByKey.
Context {A : Type} (key : A -> Q).

#[local] Abbreviation cmp := (fun a b : A => (key b - key a)%Q).



Lemma insert_Permutation x l : Permutation (x :: l) (insert cmp x l).
Proof.
  induction l as [|y l IH]; simpl; [done|].
  destruct (Qgtb (cmp x y) 0); [|done].
  rewrite perm_swap. by constructor.
Qed.

Lemma sort_Permutation l : Permutation l (sort cmp l).
Proof.
  induction l as [|x l IH]; simpl; [done|].
  rewrite <- insert_Permutation. by constructor.
Qed.






(** The head of a ranking is a best element, and the first of the best. *)
Lemma rankedBy_head l l' top :
  rankedBy key l l' -> head l' = Some top ->
  In top l
  /\ (forall x, In x l -> (key x <= key top)%Q)
  /\ head (List.filter (fun a => Qeq_bool (key a) (key top)) l) = Some top.
Proof.
  intros (Hperm & Hdesc & Hties) Hhead.
  destruct l' as [|t l']; [done|]. injection Hhead as ->.
  split; [|split].
  - apply (Permutation_in _ (Permutation_sym Hperm)). by left.
  - intros x Hx. apply (Permutation_in _ Hperm) in Hx as [->|Hx].
    + apply Qle_refl.
    + apply StronglySorted_inv in Hdesc as [_ Hall].
      rewrite List.Forall_forall in Hall. by apply Hall.
  - rewrite <- Hties. cbn [List.filter].
    assert (Heq : Qeq_bool (key top) (key top) = true) by (apply Qeq_bool_iff; reflexivity).
    by rewrite Heq.
Qed.

End ByKey.

(** The same for a comparator that is not literally [key b - key a] but has
    its sign on the elements that satisfy [P], as the rounded difference of
    two finite doubles has. *)
Section ByComparator.
Context {A : Type} (cmp : A -> A -> Q) (key : A -> Q) (P : A -> Prop).
Hypothesis cmp_sign :
  forall x y, P x -> P y -> (Qgtb (cmp x y) 0 = true <-> (key x < key y)%Q).

Lemma permuted_insert x l : Permutation (x :: l) (insert cmp x l).
Proof.
  induction l as [|y l IH]; simpl; [done|].
  destruct (Qgtb (cmp x y) 0); [|done].
  rewrite perm_swap. by constructor.
Qed.

Lemma permuted l : Permutation l (sort cmp l).
Proof.
  induction l as [|x l IH]; simpl; [done|].
  rewrite <- permuted_insert. by constructor.
Qed.

Lemma all_insert x l : P x -> List.Forall P l -> List.Forall P (insert cmp x l).
Proof.
  intros Hx Hl. rewrite List.Forall_forall in *. intros z Hz.
  apply (Permutation_in _ (Permutation_sym (permuted_insert x l))) in Hz as [<-|Hz];
    [exact Hx | by apply Hl].
Qed.

Lemma all_sort l : List.Forall P l -> List.Forall P (sort cmp l).
Proof.
  intros Hl. rewrite List.Forall_forall in *. intros z Hz.
  apply (Permutation_in _ (Permutation_sym (permuted l))) in Hz. by apply Hl.
Qed.

Lemma ordered_insert x l :
  P x -> List.Forall P l -> descending key l -> descending key (insert cmp x l).
Proof.
  unfold descending. intros Hx Hall Hdesc. revert Hall.
  induction Hdesc as [|y l Hl IH Hy]; intros Hall; simpl.
  - repeat constructor.
  - apply List.Forall_cons_iff in Hall as [HPy Hall].
    destruct (Qgtb (cmp x y) 0) eqn:Hxy.
    + apply (cmp_sign x y Hx HPy) in Hxy. constructor; [by apply IH|].
      rewrite <- permuted_insert. constructor; [by apply Qlt_le_weak | exact Hy].
    + assert (Hle : (key y <= key x)%Q).
      { apply Qnot_lt_le. intros Hlt. apply (cmp_sign x y Hx HPy) in Hlt. congruence. }
      constructor; [by constructor|].
      constructor; [exact Hle|].
      eapply Forall_impl; [exact Hy|]. intros z Hz. simpl in Hz.
      by apply Qle_trans with (key y).
Qed.

Lemma ordered l : List.Forall P l -> descending key (sort cmp l).
Proof.
  induction l as [|x l IH]; intros Hall; simpl; [constructor|].
  apply List.Forall_cons_iff in Hall as [Hx Hall].
  apply ordered_insert; [exact Hx | by apply all_sort | by apply IH].
Qed.

Lemma tied_insert x l k :
  P x -> List.Forall P l ->
  List.filter (fun a => Qeq_bool (key a) k) (insert cmp x l)
  = List.filter (fun a => Qeq_bool (key a) k) (x :: l).
Proof.
  intros Hx. induction l as [|y l IH]; intros Hall; [done|].
  apply List.Forall_cons_iff in Hall as [HPy Hall].
  cbn [insert]. destruct (Qgtb (cmp x y) 0) eqn:Hxy; [|done].
  apply (cmp_sign x y Hx HPy) in Hxy.
  cbn [List.filter] in *. rewrite (IH Hall).
  destruct (Qeq_bool (key x) k) eqn:Ex; [|done].
  destruct (Qeq_bool (key y) k) eqn:Ey; [|done].
  apply Qeq_bool_iff in Ex, Ey. rewrite Ex, Ey in Hxy.
  by apply Qlt_irrefl in Hxy.
Qed.

Lemma tied l : List.Forall P l -> tiesInOrder key l (sort cmp l).
Proof.
  intros Hall k. induction l as [|x l IH]; [done|].
  apply List.Forall_cons_iff in Hall as [Hx Hall].
  cbn [sort]. rewrite tied_insert by (done || by apply all_sort).
  cbn [List.filter]. by rewrite IH.
Qed.

Lemma ranked l : List.Forall P l -> rankedBy key l (sort cmp l).
Proof.
  intros Hall. split; [apply permuted|]. split; [by apply ordered | by apply tied].
Qed.

End ByComparator.

(** The descending sort of finite doubles. *)
Lemma ranked_doubles {A : Type} (f : A -> Double.t) l :
  List.Forall (fun a => Double.isFinite (f a)) l ->
  rankedBy (fun a => Double.value (f a)) l
    (sort (fun a b => Double.order (Double.sub (f b) (f a))) l).
Proof.
  apply (ranked _ _ (fun a => Double.isFinite (f a))).
  intros x y Hx Hy. destruct (f x) as [| |qx]; [done..|].
  destruct (f y) as [| |qy]; [done..|].
  apply DoubleFacts.order_sub.
Qed.

End SortFacts.

(** ** The inconsistency scan *)

Module ScanFacts.
Import Engine.

(** With a game counted, white's share and its deviation are finite. *)
Lemma deviation_finite p :
  0 < Position.totalGames p ->
  exists q, Double.sub (actualRate p) expectedRate = Double.Finite q.
Proof.
  intros Ht. unfold actualRate. rewrite DoubleFacts.div_counters by done.
  by eexists.
Qed.

(** The loop of [findInconsistencies] keeps, in order, the reports of the
    positions that pass both tests. *)
Lemma inspect_fold threshold (entries : list (string * Position.t)) acc e :
  In e (foldl (inspect threshold) acc entries) <->
  In e acc
  \/ exists h p,
       In (h, p) entries /\ 5 <= Position.totalGames p /\ deviates threshold p
       /\ e = inconsistency h p.
Proof.
  revert acc. induction entries as [|[h p] entries IH]; intros acc; cbn [foldl In].
  - split; [by left | intros [H|(? & ? & [] & _)]; exact H].
  - rewrite IH. unfold inspect.
    destruct (Nat.ltb_spec (Position.totalGames p) 5) as [Hlt|Hge].
    + split.
      * intros [H|(h' & p' & Hin & Hrest)]; [by left|].
        right. exists h', p'. split; [by right | exact Hrest].
      * intros [H|(h' & p' & [[= -> ->]|Hin] & Hge & Hrest)]; [by left | lia |].
        right. by exists h', p'.
    + destruct (Double.gtb (Double.abs (Double.sub (actualRate p) expectedRate)) threshold)
        eqn:Hdev.
      * split.
        -- intros [H|(h' & p' & Hin & Hrest)].
           ++ apply in_app_or in H as [H|[<-|[]]]; [by left|].
              right. exists h, p. split; [by left|]. by split.
           ++ right. exists h', p'. split; [by right | exact Hrest].
        -- intros [H|(h' & p' & [[= -> ->]|Hin] & Hrest)].
           ++ left. apply in_or_app. by left.
           ++ left. apply in_or_app. right. left. symmetry. apply Hrest.
           ++ right. by exists h', p'.
      * assert (Hno : ~ deviates threshold p).
        { unfold deviates, deviationOf, whiteShare.
          unfold actualRate, expectedRate in Hdev. congruence. }
        split.
        -- intros [H|(h' & p' & Hin & Hrest)]; [by left|].
           right. exists h', p'. split; [by right | exact Hrest].
        -- intros [H|(h' & p' & [[= -> ->]|Hin] & Hge' & Hd & Hrest)];
             [by left | contradiction |].
           right. by exists h', p'.
Qed.

(** Every report of the loop carries a finite deviation. *)
Lemma inspect_finite threshold (entries : list (string * Position.t)) acc :
  List.Forall (fun e => Double.isFinite (Double.abs (Inconsistency.deviation e))) acc ->
  List.Forall (fun e => Double.isFinite (Double.abs (Inconsistency.deviation e)))
    (foldl (inspect threshold) acc entries).
Proof.
  intros Hacc. rewrite List.Forall_forall in *. intros e He.
  apply inspect_fold in He as [He|(h & p & _ & Hge & _ & ->)]; [by apply Hacc|].
  destruct (deviation_finite p) as [q Hq]; [lia|].
  cbn [inconsistency Inconsistency.deviation]. by rewrite Hq.
Qed.

Lemma findInconsistencies_ranked threshold st :
  rankedBy magnitude
    (foldl (inspect threshold) [] (entries (Database.positions (db st))))
    (findInconsistencies threshold st).
Proof.
  apply (SortFacts.ranked_doubles (fun e => Double.abs (Inconsistency.deviation e))).
  apply inspect_finite. constructor.
Qed.

Lemma findInconsistencies_In threshold st e :
  In e (findInconsistencies threshold st) <->
  exists h p,
    In (h, p) (positionsOf st) /\ 5 <= Position.totalGames p
    /\ deviates threshold p /\ e = inconsistency h p.
Proof.
  destruct (findInconsistencies_ranked threshold st) as [Hperm _]. split.
  - intros H. apply (Permutation_in _ (Permutation_sym Hperm)) in H.
    apply inspect_fold in H as [[]|H]. exact H.
  - intros H. apply (Permutation_in _ Hperm).
    apply inspect_fold. by right.
Qed.

End ScanFacts.

(** C6. [findInconsistencies] never reports a position with fewer than 5
    games; it reports a position with at least 5 games exactly when
    [|outcomes.white/totalGames - 0.5|], computed in doubles as the source
    computes it, exceeds the threshold; a report carries the hash, the
    [fen], the game count and the patterns of its position, 0.5 as
    [expected], the computed share of white as [actual] and their computed
    difference, a finite number, as [deviation]; and the list is in
    descending order of the absolute value of that deviation, reports of
    the same magnitude in the order of the store. *)
Theorem findInconsistencies_spec (threshold : Double.t) (st : Engine.learner) :
  NoDup (keys (positionsOf st)) ->
  (forall h p,
     get h (positionsOf st) = Some p ->
     Engine.Position.totalGames p < 5 ->
     ~ reported h (Engine.findInconsistencies threshold st))
  /\ (forall h p,
        get h (positionsOf st) = Some p ->
        5 <= Engine.Position.totalGames p ->
        (reported h (Engine.findInconsistencies threshold st) <-> deviates threshold p))
  /\ (forall e,
        In e (Engine.findInconsistencies threshold st) ->
        exists p,
          get (Engine.Inconsistency.hash e) (positionsOf st) = Some p
          /\ Engine.Inconsistency.fen e = Engine.Position.fen p
          /\ Engine.Inconsistency.expected e = Double.Finite (1 # 2)
          /\ Engine.Inconsistency.actual e = whiteShare p
          /\ Engine.Inconsistency.games e = Engine.Position.totalGames p
          /\ Engine.Inconsistency.patterns e = Engine.Position.patterns p
          /\ Engine.Inconsistency.deviation e = deviationOf p
          /\ Double.isFinite (Engine.Inconsistency.deviation e))
  /\ descending magnitude (Engine.findInconsistencies threshold st)
  /\ (forall k,
        List.filter (fun e => Qeq_bool (magnitude e) k)
          (Engine.findInconsistencies threshold st)
        = List.filter (fun e => Qeq_bool (magnitude e) k)
            (foldl (Engine.inspect threshold) [] (positionsOf st))).
Proof.
  intros Hnd.
  assert (Hrep : forall h p,
            get h (positionsOf st) = Some p ->
            reported h (Engine.findInconsistencies threshold st) ->
            5 <= Engine.Position.totalGames p /\ deviates threshold p).
  { intros h p Hp (e & He & Hh).
    apply ScanFacts.findInconsistencies_In in He as (h' & p' & Hin & Hge & Hdev & ->).
    simpl in Hh. subst h'.
    apply (NoDup_keys_get _ _ _ Hnd) in Hin.
    assert (p' = p) by congruence. by subst. }
  destruct (ScanFacts.findInconsistencies_ranked threshold st) as (_ & Hdesc & Hties).
  split; [|split; [|split; [|split]]].
  - intros h p Hp Hlt Hr. destruct (Hrep h p Hp Hr). lia.
  - intros h p Hp Hge. split; [intros Hr; by destruct (Hrep h p Hp Hr)|].
    intros Hdev. exists (Engine.inconsistency h p). split; [|done].
    apply ScanFacts.findInconsistencies_In. exists h, p.
    split; [by apply get_In | done].
  - intros e He.
    apply ScanFacts.findInconsistencies_In in He as (h & p & Hin & Hge & _ & ->).
    exists p. split; [by apply (NoDup_keys_get _ _ _ Hnd)|].
    repeat (split; [reflexivity|]).
    destruct (ScanFacts.deviation_finite p) as [q Hq]; [lia|].
    change (Double.isFinite (Double.sub (Engine.actualRate p) Engine.expectedRate)).
    by rewrite Hq.
  - exact Hdesc.
  - exact Hties.
Qed.

Lemma findInconsistencies_spec_witness :
  reported "A" (Engine.findInconsistencies (Double.literal (1 # 5)) Sample.threePositions)
  /\ ~ reported "B"
         (Engine.findInconsistencies (Double.literal (1 # 5)) Sample.threePositions)
  /\ ~ reported "C"
         (Engine.findInconsistencies (Double.literal (1 # 5)) Sample.threePositions).
Proof.
  assert (Hnd : NoDup (keys (positionsOf Sample.threePositions))).
  { repeat (apply NoDup_cons; split;
              [rewrite list_elem_of_In; simpl; intuition discriminate|]).
    apply NoDup_nil_2. }
  destruct (findInconsistencies_spec (Double.literal (1 # 5)) Sample.threePositions Hnd)
    as (Hfew & Henough & _).
  split; [|split].
  - eapply Henough; [reflexivity | simpl; lia | by vm_compute].
  - eapply Hfew; [reflexivity | simpl; lia].
  - intros Hr. eapply Henough in Hr; [|reflexivity | simpl; lia].
    revert Hr. by vm_compute.
Defined.

(** The comparison is the one of the doubles, not of the rationals they
    stand for: at threshold [0.3] a position of which white won 4 games of
    5 is reported, its computed deviation [0.30000000000000004] being above
    the double [0.3], and one of which white won 1 of 5 is not, its computed
    deviation being the double [0.3] itself; the exact deviations are both
    3/10.  Likewise at threshold [0.05] with 11 and with 9 wins of 20
    games. *)
Example findInconsistencies_rounds :
  map Engine.Inconsistency.hash
    (Engine.findInconsistencies (Double.literal (3 # 10)) Sample.closeShares)
  = ["high"]
  /\ map Engine.Inconsistency.hash
       (Engine.findInconsistencies (Double.literal (1 # 20)) Sample.nearEven)
     = ["more"].
Proof. by vm_compute. Qed.

(** ** Move suggestions *)

Module SuggestFacts.

Lemma suggestion_rate color m stats :
  0 < Engine.MoveStats.played stats ->
  Engine.Suggestion.winRate (Engine.suggestion color (m, stats))
  = Double.Finite (Double.round (Spec.winRate color stats)).
Proof.
  intros Hp. unfold Engine.suggestion, Spec.winRate. cbn [Engine.Suggestion.winRate].
  destruct (Engine.isBlack color); by rewrite DoubleFacts.div_counters.
Qed.

Lemma scoreMove_score color m stats :
  0 < Engine.MoveStats.played stats ->
  Learn.Scored.score (Learn.scoreMove color (m, stats))
  = Double.Finite (roundedScore color stats).
Proof.
  intros Hp. unfold Learn.scoreMove, roundedScore, Spec.winRate, Engine.isBlack.
  cbn [Learn.Scored.score].
  rewrite (DoubleFacts.div_counters _ 20) by lia.
  destruct (String.eqb color "black"); by rewrite DoubleFacts.div_counters.
Qed.

Lemma suggestions_finite color moves :
  allPlayed moves ->
  List.Forall (fun s => Double.isFinite (Engine.Suggestion.winRate s))
    (map (Engine.suggestion color) (entries moves)).
Proof.
  unfold allPlayed, entries. intros H. apply List.Forall_map.
  eapply List.Forall_impl; [|exact H]. intros [m stats] Hp.
  by rewrite suggestion_rate.
Qed.

Lemma scores_finite color moves :
  allPlayed moves ->
  List.Forall (fun s => Double.isFinite (Learn.Scored.score s))
    (map (Learn.scoreMove color) (entries moves)).
Proof.
  unfold allPlayed, entries. intros H. apply List.Forall_map.
  eapply List.Forall_impl; [|exact H]. intros [m stats] Hp.
  by rewrite scoreMove_score.
Qed.

End SuggestFacts.

(** C5, as stated, fails on both learners, whether the score of the
    specification is taken exactly or computed in doubles.  The map-keyed
    learner adds no exploration bonus: for white it puts the move with rate
    9/20 before the one with rate 2/5, which the bonus of the specification
    would lift to 0.475.  The list-keyed learner does not clamp its bonus at
    0: a move played 40 times with rate 0.9 scores 0.8 and loses to one with
    0.85. *)
Lemma suggestions_differ_from_spec_ranking :
  map Engine.Suggestion.move
    (Engine.getMoveSuggestions "P" (Some "white") Sample.quietStore)
  <> Spec.ranking (Some "white") Sample.quietMoves
  /\ map Engine.Suggestion.move
       (Engine.getMoveSuggestions "P" (Some "white") Sample.quietStore)
     <> Spec.computedRanking (Some "white") Sample.quietMoves
  /\ option_map (option_map Learn.Scored.move)
       (Learn.suggestMove Sample.startBoard "white" Sample.busyPositions)
     <> Some (head (Spec.ranking (Some "white") Sample.busyMoves))
  /\ option_map (option_map Learn.Scored.move)
       (Learn.suggestMove Sample.startBoard "white" Sample.busyPositions)
     <> Some (head (Spec.computedRanking (Some "white") Sample.busyMoves)).
Proof.
  repeat split; vm_compute; discriminate.
Qed.

(** C5, amended.  For a known position whose moves have all been played:
    [getMoveSuggestions] rates a move with the double nearest to
    [wins/played], or to [losses/played] when asked for black, adds no
    bonus, and returns all moves in descending order of that rate, ties in
    input order; [suggestMove] of the list-keyed learner scores a move with
    its rate plus [0.1 * (1 - played/20)], which is not clamped at 0, each
    of the five operations rounded to a double, and returns only the first
    move of the descending order of that computed score, the earliest of
    the best. *)
Theorem move_suggestions_ranked :
  (forall h color st pos,
     get h (positionsOf st) = Some pos ->
     allPlayed (Engine.Position.moves pos) ->
     rankedBy (fun s => Double.value (Engine.Suggestion.winRate s))
       (map (Engine.suggestion color) (entries (Engine.Position.moves pos)))
       (Engine.getMoveSuggestions h color st)
     /\ forall m stats,
          0 < Engine.MoveStats.played stats ->
          Engine.Suggestion.move (Engine.suggestion color (m, stats)) = m
          /\ Engine.Suggestion.winRate (Engine.suggestion color (m, stats))
             = Double.Finite (Double.round (Spec.winRate color stats)))
  /\ (forall b color positions hash pos,
        Learn.hashPosition b = Some hash ->
        List.find (fun p => String.eqb (Learn.Position.hash p) hash) positions = Some pos ->
        Learn.Position.moves pos <> [] ->
        allPlayed (Learn.Position.moves pos) ->
        let scored := map (Learn.scoreMove color) (entries (Learn.Position.moves pos)) in
        let value := fun x => Double.value (Learn.Scored.score x) in
        (exists top,
           Learn.suggestMove b color positions = Some (Some top)
           /\ In top scored
           /\ (forall x, In x scored -> (value x <= value top)%Q)
           /\ head (List.filter (fun x => Qeq_bool (value x) (value top)) scored)
              = Some top)
        /\ forall m stats,
             0 < Engine.MoveStats.played stats ->
             Learn.Scored.move (Learn.scoreMove color (m, stats)) = m
             /\ Learn.Scored.score (Learn.scoreMove color (m, stats))
                = Double.Finite (roundedScore color stats)).
Proof.
  split.
  - intros h color st pos Hpos Hall. split.
    + unfold Engine.getMoveSuggestions. unfold positionsOf in Hpos. rewrite Hpos.
      apply (SortFacts.ranked_doubles Engine.Suggestion.winRate).
      by apply SuggestFacts.suggestions_finite.
    + intros m stats Hp. split; [done | by apply SuggestFacts.suggestion_rate].
  - intros b color positions hash pos Hhash Hfind Hmoves Hall scored value. split.
    + unfold Learn.suggestMove. rewrite Hhash, Hfind.
      assert (Hlen : (length (keys (Learn.Position.moves pos)) =? 0) = false).
      { destruct (Learn.Position.moves pos); [done | reflexivity]. }
      rewrite Hlen. fold scored.
      pose proof (SortFacts.ranked_doubles Learn.Scored.score scored
                    (SuggestFacts.scores_finite color _ Hall)) as Hranked.
      destruct (head (JsArray.sort
                        (fun a b =>
                           Double.order
                             (Double.sub (Learn.Scored.score b) (Learn.Scored.score a)))
                        scored)) as [top|] eqn:Htop.
      * exists top. split; [done|].
        by apply (SortFacts.rankedBy_head value scored _ top Hranked).
      * exfalso. destruct Hranked as (Hperm & _).
        destruct (JsArray.sort _ scored); [|done].
        apply Permutation_sym, Permutation_nil in Hperm. subst scored.
        unfold entries in Hperm. by destruct (Learn.Position.moves pos).
    + intros m stats Hp. split; [done | by apply SuggestFacts.scoreMove_score].
Qed.

Lemma move_suggestions_ranked_witness :
  rankedBy (fun s => Double.value (Engine.Suggestion.winRate s))
    (map (Engine.suggestion (Some "white")) (entries Sample.quietMoves))
    (Engine.getMoveSuggestions "P" (Some "white") Sample.quietStore)
  /\ exists top,
       Learn.suggestMove Sample.startBoard "white" Sample.closePositions
       = Some (Some top)
       /\ Learn.Scored.move top = "b".
Proof.
  destruct move_suggestions_ranked as [Hmap Hlist].
  assert (Hquiet : allPlayed Sample.quietMoves).
  { repeat (constructor; [simpl; lia|]). constructor. }
  assert (Hclose : allPlayed Sample.closeMoves).
  { repeat (constructor; [simpl; lia|]). constructor. }
  split.
  - apply (Hmap "P" (Some "white") Sample.quietStore
             (Engine.Position.mk "P" "8/8/8/8/8/8/8/8 w" 0 (Engine.Outcomes.mk 0 0 0)
                Sample.quietMoves [] 0)); [reflexivity | exact Hquiet].
  - destruct (Hlist Sample.startBoard "white" Sample.closePositions "d3J3a3di"
                (Learn.Position.mk "d3J3a3di" Sample.closeMoves))
      as [(top & Htop & _) _]; [by vm_compute | reflexivity | discriminate | exact Hclose |].
    exists top. split; [exact Htop|].
    revert Htop. vm_compute. by intros [= <-].
Defined.

(** The order is the one of the computed scores.  The exact scores of the
    two moves of [Sample.closeMoves] are both 17/20, so that exact
    arithmetic would return the first, [a]; the doubles are
    [0.85] for [a] and [0.8500000000000001] for [b], and [b] is returned. *)
Example suggestMove_rounds :
  (Spec.winRate (Some "white") (Engine.MoveStats.mk 20 17 3 0)
   + (1 # 10) * (1 - num 20 / 20)
   == Spec.winRate (Some "white") (Engine.MoveStats.mk 10 8 2 0)
      + (1 # 10) * (1 - num 10 / 20))%Q
  /\ (roundedScore "white" (Engine.MoveStats.mk 20 17 3 0)
      < roundedScore "white" (Engine.MoveStats.mk 10 8 2 0))%Q
  /\ option_map (option_map Learn.Scored.move)
       (Learn.suggestMove Sample.startBoard "white" Sample.closePositions)
     = Some (Some "b").
Proof. by vm_compute. Qed.

(** ** The opening tree *)

Module OpeningFacts.
Import Engine.

Lemma find_snoc {A : Type} (f : A -> bool) l x :
  List.find f (l ++ [x])
  = match List.find f l with
    | Some y => Some y
    | None => if f x then Some x else None
    end.
Proof.
  induction l as [|y l IH]; simpl; [done|]. by destruct (f y).
Qed.

Lemma count_snoc {A : Type} (f : A -> bool) l x :
  count f (l ++ [x]) = count f l + (if f x then 1 else 0).
Proof.
  unfold count. rewrite List.filter_app, length_app. simpl. by destruct (f x).
Qed.

Lemma find_None_count {A : Type} (f g : A -> bool) l :
  List.find f l = None -> count (fun x => f x && g x) l = 0.
Proof.
  unfold count. induction l as [|y l IH]; simpl; [done|].
  destruct (f y); [done | exact IH].
Qed.

Lemma find_None_count0 {A : Type} (f : A -> bool) l :
  List.find f l = None -> count f l = 0.
Proof.
  unfold count. induction l as [|y l IH]; simpl; [done|].
  destruct (f y); [done | exact IH].
Qed.

Lemma find_ext_in {A : Type} (f g : A -> bool) l :
  (forall x, In x l -> f x = g x) -> List.find f l = List.find g l.
Proof.
  induction l as [|y l IH]; intros H; simpl; [done|].
  rewrite <- (H y) by (by left). destruct (f y); [done|].
  apply IH. intros x Hx. apply H. by right.
Qed.

Lemma count_ext_in {A : Type} (f g : A -> bool) l :
  (forall x, In x l -> f x = g x) -> count f l = count g l.
Proof.
  intros H. unfold count. f_equal. by apply List.filter_ext_in.
Qed.

Lemma tallyOf_ext depth sel sel' games :
  (forall g, In g games -> sel g = sel' g) ->
  tallyOf depth sel games = tallyOf depth sel' games.
Proof.
  intros H. unfold tallyOf.
  rewrite (find_ext_in sel sel' games H).
  rewrite (count_ext_in sel sel' games H).
  rewrite (count_ext_in (fun g => sel g && wonBy "white" g)
             (fun g => sel' g && wonBy "white" g) games)
    by (intros g Hg; by rewrite (H g Hg)).
  rewrite (count_ext_in (fun g => sel g && wonBy "black" g)
             (fun g => sel' g && wonBy "black" g) games)
    by (intros g Hg; by rewrite (H g Hg)).
  rewrite (count_ext_in (fun g => sel g && neither g)
             (fun g => sel' g && neither g) games)
    by (intros g Hg; by rewrite (H g Hg)).
  done.
Qed.

Lemma white_not_black result :
  resultIs result "white" = true -> resultIs result "black" = false.
Proof.
  destruct result as [r|]; simpl; [|done].
  intros H. apply String.eqb_eq in H. by subst.
Qed.

(** What one game does to the tally of a set of games it belongs to. *)
Lemma tallyOf_snoc_in depth sel games g :
  sel g = true ->
  tallyOf depth sel (games ++ [g])
  = Some (countGame (Game.result g)
            (match tallyOf depth sel games with
             | Some o => o
             | None => Opening.mk (take depth (Game.moves g)) 0 0 0 0
             end)).
Proof.
  intros Hsel. unfold tallyOf. rewrite find_snoc, !count_snoc, Hsel.
  unfold neither, wonBy, countGame. simpl.
  destruct (List.find sel games) as [g0|] eqn:Hfind.
  - destruct (resultIs (Game.result g) "white") eqn:Hw.
    + rewrite (white_not_black _ Hw). simpl. f_equal. f_equal; lia.
    + destruct (resultIs (Game.result g) "black"); simpl; f_equal; f_equal; lia.
  - rewrite (find_None_count0 _ _ Hfind), !(find_None_count _ _ _ Hfind).
    destruct (resultIs (Game.result g) "white") eqn:Hw.
    + rewrite (white_not_black _ Hw). done.
    + by destruct (resultIs (Game.result g) "black").
Qed.

Lemma tallyOf_snoc_out depth sel games g :
  sel g = false -> tallyOf depth sel (games ++ [g]) = tallyOf depth sel games.
Proof.
  intros Hsel. unfold tallyOf. rewrite find_snoc, !count_snoc, Hsel. simpl.
  rewrite !Nat.add_0_r. by destruct (List.find sel games).
Qed.

(** One turn of the loop, seen from a key that names no member of
    [Object.prototype]. *)
Lemma tally_get depth (table : obj Opening.t) g k :
  ~ In k inherited ->
  get k (tally depth table g)
  = if inOpening depth k g
    then Some (countGame (Game.result g)
                 (match get k table with
                  | Some o => o
                  | None => Opening.mk (take depth (Game.moves g)) 0 0 0 0
                  end))
    else get k table.
Proof.
  intros Hk. unfold tally, inOpening, eligible.
  destruct (Nat.ltb_spec (length (Game.moves g)) depth) as [Hlt|Hge].
  - destruct (Nat.leb_spec depth (length (Game.moves g))); [lia | done].
  - destruct (Nat.leb_spec depth (length (Game.moves g))); [|lia]. simpl.
    destruct (String.eqb_spec (openingKey depth g) k) as [->|Hne].
    + rewrite lookup_own by done.
      destruct (get k table); by rewrite get_set_eq.
    + unfold lookup. destruct (get (openingKey depth g) table);
        [by rewrite get_set_ne|].
      destruct (existsb _ inherited); [done | by rewrite get_set_ne].
Qed.

(** A key that names a member of [Object.prototype] gets no entry. *)
Lemma tally_inherited depth (table : obj Opening.t) g k :
  In k inherited -> get k table = None -> get k (tally depth table g) = None.
Proof.
  intros Hk Hnone. unfold tally.
  destruct (length (Game.moves g) <? depth); [done|].
  destruct (String.eqb_spec (openingKey depth g) k) as [->|Hne].
  - by rewrite lookup_inherited.
  - unfold lookup. destruct (get (openingKey depth g) table);
      [by rewrite get_set_ne|].
    destruct (existsb _ inherited); [done | by rewrite get_set_ne].
Qed.

(** The dictionary of [getOpeningTree] holds, under each key that names no
    member of [Object.prototype], the tally of the games with that key, and
    nothing under the other keys. *)
Lemma openings_get depth games k :
  ~ In k inherited ->
  get k (openings depth games) = tallyOf depth (inOpening depth k) games.
Proof.
  intros Hk. unfold openings.
  induction games as [|g games IH] using rev_ind; [done|].
  rewrite foldl_snoc, tally_get, IH by done.
  destruct (inOpening depth k g) eqn:Hsel.
  - by rewrite tallyOf_snoc_in.
  - by rewrite tallyOf_snoc_out.
Qed.

Lemma openings_inherited depth games k :
  In k inherited -> get k (openings depth games) = None.
Proof.
  intros Hk. unfold openings.
  induction games as [|g games IH] using rev_ind; [done|].
  rewrite foldl_snoc. by apply tally_inherited.
Qed.

Lemma openings_NoDup depth games : NoDup (keys (openings depth games)).
Proof.
  unfold openings.
  induction games as [|g games IH] using rev_ind; [apply NoDup_nil_2|].
  rewrite foldl_snoc. unfold tally at 1.
  destruct (length (Game.moves g) <? depth); [exact IH|].
  destruct (lookup _ _); [by apply set_keys_NoDup | exact IH | by apply set_keys_NoDup].
Qed.

Lemma tallyOf_keyOf depth k games o :
  tallyOf depth (inOpening depth k) games = Some o -> keyOf o = k.
Proof.
  unfold tallyOf.
  destruct (List.find (inOpening depth k) games) as [g0|] eqn:Hfind; [|done].
  intros [= <-]. apply find_some in Hfind as [_ Hsel].
  unfold inOpening in Hsel. apply andb_prop in Hsel as [_ Hkey].
  apply String.eqb_eq in Hkey. exact Hkey.
Qed.

(** A game with at least [depth] moves has a tally under its key. *)
Lemma tallyOf_exists depth games g :
  In g games -> eligible depth g = true ->
  is_Some (tallyOf depth (inOpening depth (openingKey depth g)) games).
Proof.
  intros Hg He. unfold tallyOf.
  destruct (List.find (inOpening depth (openingKey depth g)) games) eqn:Hfind;
    [by eexists|].
  exfalso. apply (find_none _ _ Hfind) in Hg.
  unfold inOpening in Hg. by rewrite He, String.eqb_refl in Hg.
Qed.

Lemma entry_own depth games k o :
  In (k, o) (openings depth games) ->
  ~ In k inherited /\ tallyOf depth (inOpening depth k) games = Some o.
Proof.
  intros Hin. apply NoDup_keys_get in Hin; [|apply openings_NoDup].
  destruct (in_dec string_dec k inherited) as [Hk|Hk].
  - by rewrite openings_inherited in Hin.
  - split; [exact Hk|]. by rewrite <- openings_get.
Qed.

Lemma values_tally depth games o :
  In o (values (openings depth games))
  <-> exists k, ~ In k inherited /\ tallyOf depth (inOpening depth k) games = Some o.
Proof.
  split.
  - intros Hin. apply in_map_iff in Hin as ([k o'] & Heq & Hin). simpl in Heq. subst o'.
    exists k. by apply entry_own.
  - intros (k & Hown & Hk). rewrite <- openings_get in Hk by done. apply get_In in Hk.
    by apply (in_map snd) in Hk.
Qed.

Lemma keys_values depth games :
  map keyOf (values (openings depth games)) = keys (openings depth games).
Proof.
  unfold values, keys. rewrite map_map. apply map_ext_in.
  intros [k o] Hin. simpl.
  apply (tallyOf_keyOf depth k games). by apply entry_own.
Qed.



End OpeningFacts.




(** ** Import *)

Module PersistenceFacts.
Import Persistence.

(** The stamp touches nothing but [metadata]. *)
Lemma stamp_read now v v' k :
  stamp now v = Some v' -> k <> "metadata" -> read k v' = read k v.
Proof.
  unfold stamp. destruct (read "metadata" v) as [metadata|]; [|done].
  destruct (assign "lastUpdated" (Str now) metadata) as [metadata'|]; [|done].
  intros Hv Hk. destruct v; simpl in Hv; try done; injection Hv as <-; simpl;
    by apply get_set_ne.
Qed.

(** In [metadata] it sets [lastUpdated] and nothing else. *)
Lemma stamp_metadata now v v' :
  stamp now v = Some v' ->
  exists metadata metadata',
    read "metadata" v = Some metadata
    /\ read "metadata" v' = Some metadata'
    /\ read "lastUpdated" metadata' = Some (Str now)
    /\ forall k, k <> "lastUpdated" -> read k metadata' = read k metadata.
Proof.
  unfold stamp. destruct (read "metadata" v) as [metadata|] eqn:Hmd; [|done].
  destruct (assign "lastUpdated" (Str now) metadata) as [metadata'|] eqn:Ha; [|done].
  intros Hv. exists metadata, metadata'. split; [done|].
  split; [|split].
  - destruct v; simpl in Hv; try done; injection Hv as <-; simpl; apply get_set_eq.
  - destruct metadata; simpl in Ha; try done; injection Ha as <-; simpl;
      apply get_set_eq.
  - intros k Hk.
    destruct metadata; simpl in Ha; try done; injection Ha as <-; simpl;
      by apply get_set_ne.
Qed.

(** Without a [metadata] property the statement throws and the value
    stays as it is. *)
Lemma stamp_no_metadata now v : read "metadata" v = None -> stamp now v = None.
Proof. unfold stamp. by intros ->. Qed.

Section Save.
Variable JSON_parse : string -> option value.
Variable JSON_stringify : value -> string.

Lemma saveDatabase_db e st :
  db (saveDatabase JSON_stringify e st).1
  = match stamp (now e) (db st) with
    | Some db' => db'
    | None => db st
    end.
Proof.
  unfold saveDatabase. destruct (stamp (now e) (db st)); [|done].
  by destruct (writable e).
Qed.

End Save.

End PersistenceFacts.

(** C7. When [JSON.parse] fails on the input, [importDatabase] returns
    [false] without throwing and leaves the learner, its store included, as
    it was. *)
Theorem importDatabase_rejects_malformed
    (JSON_parse : string -> option Persistence.value)
    (JSON_stringify : Persistence.value -> string)
    (e : Persistence.env) (jsonData : string) (st : Persistence.learner) :
  JSON_parse jsonData = None ->
  Persistence.importDatabase JSON_parse JSON_stringify e jsonData st = (st, false).
Proof.
  intros Hparse. unfold Persistence.importDatabase. by rewrite Hparse.
Qed.

Lemma importDatabase_rejects_malformed_witness :
  Persistence.importDatabase Sample.parseLiteral Sample.printOpaque Sample.noon
    "{positions:" Sample.emptyStore
  = (Sample.emptyStore, false).
Proof.
  apply importDatabase_rejects_malformed. reflexivity.
Defined.

(** C10. When the input parses, [importDatabase] returns [true] and the
    store becomes the parsed value, whatever its shape: the learner
    afterwards is the one [saveDatabase] leaves when it starts from the
    parsed value.  The save only stamps [metadata.lastUpdated], and only
    when there is a [metadata] object to stamp: a value without a
    [metadata] property ([null], a number, an object that lacks the field)
    is kept exactly as parsed, and every other property is kept as parsed
    in any case. *)
Theorem importDatabase_accepts_any_document
    (JSON_parse : string -> option Persistence.value)
    (JSON_stringify : Persistence.value -> string)
    (e : Persistence.env) (jsonData : string) (st : Persistence.learner)
    (parsed : Persistence.value) :
  JSON_parse jsonData = Some parsed ->
  let after := Persistence.importDatabase JSON_parse JSON_stringify e jsonData st in
  after.2 = true
  /\ after.1
     = (Persistence.saveDatabase JSON_stringify e
          (Persistence.mkLearner parsed (Persistence.storage st))).1
  /\ (Persistence.read "metadata" parsed = None -> Persistence.db after.1 = parsed)
  /\ (forall k, k <> "metadata" ->
        Persistence.read k (Persistence.db after.1) = Persistence.read k parsed).
Proof.
  intros Hparse after. subst after. unfold Persistence.importDatabase.
  rewrite Hparse. cbn [fst snd].
  split; [done|]. split; [done|].
  rewrite PersistenceFacts.saveDatabase_db. cbn [Persistence.db].
  split.
  - intros Hmd. by rewrite PersistenceFacts.stamp_no_metadata.
  - intros k Hk.
    destruct (Persistence.stamp (Persistence.now e) parsed) as [db'|] eqn:Hs; [|done].
    by apply (PersistenceFacts.stamp_read (Persistence.now e)).
Qed.

Lemma importDatabase_accepts_any_document_witness :
  (Persistence.importDatabase Sample.parseLiteral Sample.printOpaque Sample.noon
     "null" Sample.emptyStore).2 = true
  /\ Persistence.db
       (Persistence.importDatabase Sample.parseLiteral Sample.printOpaque Sample.noon
          "null" Sample.emptyStore).1 = Persistence.Null.
Proof.
  destruct (importDatabase_accepts_any_document Sample.parseLiteral Sample.printOpaque
              Sample.noon "null" Sample.emptyStore Persistence.Null)
    as (Hok & _ & Hdb & _); [reflexivity|].
  split; [exact Hok | by apply Hdb].
Defined.

(** Documents of any shape go through: a number, an object without fields,
    and an object whose [metadata] is stamped by the save. *)
Example importDatabase_number :
  Persistence.importDatabase Sample.parseLiteral Sample.printOpaque Sample.noon
    "42" Sample.emptyStore
  = (Persistence.mkLearner (Persistence.Number 42) None, true).
Proof. reflexivity. Qed.

Example importDatabase_empty_object :
  Persistence.importDatabase Sample.parseLiteral Sample.printOpaque Sample.noon
    "{}" Sample.emptyStore
  = (Persistence.mkLearner (Persistence.Object []) None, true).
Proof. reflexivity. Qed.

Example importDatabase_stamps_metadata :
  Persistence.importDatabase Sample.parseLiteral Sample.printOpaque Sample.noon
    Sample.bareMetadata Sample.emptyStore
  = (Persistence.mkLearner
       (Persistence.Object
          [("metadata",
            Persistence.Object
              [("lastUpdated", Persistence.Str "2024-01-01T12:00:00.000Z")])])
       (Some "(document)"),
     true).
Proof. reflexivity. Qed.

(** ** More on the canonical key *)

Module KeyMoreFacts.
Import Engine.

Lemma chars_append a b :
  list_ascii_of_string (a +:+ b) = list_ascii_of_string a ++ list_ascii_of_string b.
Proof. induction a as [|c a IH]; simpl; [done | by rewrite IH]. Qed.

(** The outer loop only ever appends to the string it is given. *)
Lemma scanRows_chars code (b : board) rs str s :
  scanRows code b rs str = Some s ->
  exists t, list_ascii_of_string s = list_ascii_of_string str ++ t
            /\ length (List.filter (fun r => r <? 7) rs) <= length t.
Proof.
  revert str. induction rs as [|r rs IH]; intros str; simpl.
  - intros [= ->]. exists []. by rewrite app_nil_r.
  - destruct (b !! r) as [row|]; [|done].
    intros Hs. destruct (IH _ Hs) as (t & Ht & Hlen).
    rewrite !chars_append, <- app_assoc in Ht.
    eexists. split; [exact Ht|].
    rewrite !length_app. destruct (r <? 7); simpl in *; lia.
Qed.

(** The walk throws exactly when one of its rows is missing. *)
Lemma scanRows_None code (b : board) rs str :
  scanRows code b rs str = None <-> exists r, In r rs /\ length b <= r.
Proof.
  revert str. induction rs as [|r rs IH]; intros str; simpl.
  - split; [done | intros (r & [] & _)].
  - destruct (b !! r) as [row|] eqn:Hr.
    + rewrite IH. apply lookup_lt_Some in Hr. split.
      * intros (r' & Hin & Hle). exists r'. split; [by right | done].
      * intros (r' & [<-|Hin] & Hle); [lia|]. by exists r'.
    + apply lookup_ge_None in Hr. split; [|done].
      intros _. exists r. split; [by left | done].
Qed.

Lemma placementOf_length (b : board) placement :
  placementOf b = Some placement -> 7 <= length (list_ascii_of_string placement).
Proof.
  intros Hs. apply scanRows_chars in Hs as (t & -> & Hlen). simpl in *. lia.
Qed.

(** The first eight digits of [btoa] are those of the first six bytes. *)
Lemma encode_take8 bytes :
  6 <= length bytes ->
  take 8 (Base64.encode bytes) = Base64.encode (take 6 bytes).
Proof.
  intros Hlen.
  do 6 (destruct bytes as [|? bytes]; [simpl in Hlen; lia|]).
  reflexivity.
Qed.

Lemma btoa_take8 s t :
  6 <= length (list_ascii_of_string s) ->
  take 8 (Base64.btoa (s +:+ t))
  = Base64.encode (map nat_of_ascii (take 6 (list_ascii_of_string s))).
Proof.
  intros Hlen. unfold Base64.btoa.
  rewrite encode_take8 by (rewrite length_map, chars_append, length_app; lia).
  rewrite chars_append, <- (firstn_map nat_of_ascii), map_app.
  rewrite take_app_le by (rewrite length_map; lia).
  by rewrite (firstn_map nat_of_ascii).
Qed.

(** The key of a board, from the first six characters of its placement. *)
Lemma hashPosition_prefix (b : board) currentPlayer placement :
  placementOf b = Some placement ->
  hashPosition b currentPlayer
  = Some (string_of_list_ascii
            (List.filter keySafe
               (Base64.encode
                  (map nat_of_ascii (take 6 (list_ascii_of_string placement)))))).
Proof.
  intros Hs. unfold hashPosition. unfold placementOf in Hs. rewrite Hs.
  rewrite btoa_take8; [done|].
  apply placementOf_length in Hs. lia.
Qed.

End KeyMoreFacts.

(** X1. The key does not depend on the side to move: the marker is appended
    after the placement, which is at least seven characters long, and the
    key is the base64 of the first six. *)
Theorem hashPosition_ignores_side_to_move (b : board) (player1 player2 : string) :
  Engine.hashPosition b player1 = Engine.hashPosition b player2.
Proof.
  destruct (placementOf b) as [placement|] eqn:Hs.
  - by rewrite !(KeyMoreFacts.hashPosition_prefix b _ placement Hs).
  - unfold Engine.hashPosition. unfold placementOf in Hs. by rewrite Hs.
Qed.

(** X2. [hashPosition] throws exactly on a board with fewer than eight
    rows; rows of any length are read, missing cells as empty. *)
Theorem hashPosition_throws_iff (b : board) (currentPlayer : string) :
  Engine.hashPosition b currentPlayer = None <-> length b < 8.
Proof.
  unfold Engine.hashPosition.
  destruct (scanRows Engine.pieceCode b (seq 0 8) EmptyString) as [placement|] eqn:Hs.
  - split; [done|]. intros Hlen.
    assert (Hnone : scanRows Engine.pieceCode b (seq 0 8) EmptyString = None).
    { apply KeyMoreFacts.scanRows_None. exists 7. split; [|lia].
      apply in_seq. lia. }
    congruence.
  - split; [|done]. intros _.
    apply KeyMoreFacts.scanRows_None in Hs as (r & Hin & Hle).
    apply in_seq in Hin. lia.
Qed.

Module KeyShapeFacts.
Import Engine.

Ltac placement_chars :=
  repeat (apply List.Forall_cons; [unfold inPlacement; simpl; tauto|]);
  apply List.Forall_nil.

Lemma pieceToChar_length type :
  1 <= length (list_ascii_of_string (pieceToChar type)).
Proof.
  unfold pieceToChar, memberText.
  repeat match goal with |- context [if ?c then _ else _] => destruct c end;
    simpl; lia.
Qed.

Lemma pieceCode_length piece :
  2 <= length (list_ascii_of_string (pieceCode piece)).
Proof.
  unfold pieceCode. rewrite KeyMoreFacts.chars_append, length_app.
  pose proof (pieceToChar_length (Piece.pieceType piece)).
  destruct (String.eqb (Piece.color piece) "white"); simpl; lia.
Qed.

(** The cells the inner loop visits, when the row starts with three given
    cells. *)
Lemma cells_of_row (row : list (option Piece.t)) x y z :
  take 3 row = [x; y; z] ->
  exists cells, map (cellAt row) (seq 0 8) = x :: y :: z :: cells.
Proof.
  destruct row as [|x' [|y' [|z' row]]]; try discriminate.
  intros [= -> -> ->]. by eexists.
Qed.

(** A placement whose first rank starts with three pieces starts with their
    three codes, of two characters or more each. *)
Lemma placement_three_pieces (b : board) row p q r placement :
  b !! 0 = Some row ->
  take 3 row = [Some p; Some q; Some r] ->
  placementOf b = Some placement ->
  take 6 (list_ascii_of_string placement)
  = take 6 (list_ascii_of_string (pieceCode p) ++ list_ascii_of_string (pieceCode q)
            ++ list_ascii_of_string (pieceCode r)).
Proof.
  intros Hrow Hcells. unfold placementOf.
  change (seq 0 8) with (0 :: seq 1 7). cbn [scanRows]. rewrite Hrow.
  intros Hs. apply KeyMoreFacts.scanRows_chars in Hs as (t & -> & _).
  destruct (cells_of_row row _ _ _ Hcells) as [cells Hc].
  unfold scanRow. rewrite Hc. cbn [scanCells Nat.ltb Nat.leb].
  rewrite !KeyMoreFacts.chars_append. cbn [list_ascii_of_string app].
  rewrite <- !app_assoc.
  pose proof (pieceCode_length p) as Hp.
  pose proof (pieceCode_length q) as Hq.
  pose proof (pieceCode_length r) as Hr.
  rewrite !app_assoc. rewrite <- (app_assoc _ _ t).
  rewrite <- (app_assoc _ (list_ascii_of_string (scanCells pieceCode cells 0)) _).
  by rewrite take_app_le by (rewrite !length_app; lia).
Qed.

(** *** Boards of known pieces *)

Lemma run_chars n :
  0 < n <= 8 -> Forall inPlacement (list_ascii_of_string (string_of_nat n)).
Proof.
  intros Hn.
  do 9 (destruct n as [|n];
        [first [lia | placement_chars]|]).
  lia.
Qed.

Lemma pieceCode_chars piece :
  knownType (Piece.pieceType piece) = true ->
  Forall inPlacement (list_ascii_of_string (pieceCode piece)).
Proof.
  unfold knownType, pieceCode, pieceToChar. intros Hk.
  rewrite KeyMoreFacts.chars_append. apply Forall_app. split.
  - destruct (String.eqb (Piece.color piece) "white"); placement_chars.
  - repeat match goal with
           | |- context [if ?c then _ else _] => destruct c eqn:?
           end;
      try placement_chars; simpl in Hk; discriminate.
Qed.

Lemma scanCells_chars cells empty :
  Forall knownCell cells ->
  empty + length cells <= 8 ->
  Forall inPlacement (list_ascii_of_string (scanCells pieceCode cells empty)).
Proof.
  intros Hk. revert empty.
  induction Hk as [|[piece|] cells Hc _ IH]; intros empty Hn; simpl in *.
  - destruct (Nat.ltb_spec 0 empty); [apply run_chars; lia | constructor].
  - rewrite !KeyMoreFacts.chars_append. apply Forall_app. split.
    + destruct (Nat.ltb_spec 0 empty); [apply run_chars; lia | constructor].
    + apply Forall_app. split; [by apply pieceCode_chars | apply IH; lia].
  - apply IH. lia.
Qed.

Lemma scanRow_chars (row : list (option Piece.t)) :
  Forall knownCell row ->
  Forall inPlacement (list_ascii_of_string (scanRow pieceCode row)).
Proof.
  intros Hrow. unfold scanRow. apply scanCells_chars.
  - apply List.Forall_forall. intros cell Hin.
    apply in_map_iff in Hin as (c & <- & _). unfold cellAt.
    destruct (nth_in_or_default c row None) as [Hin|Heq]; [|by rewrite Heq].
    rewrite List.Forall_forall in Hrow. by apply Hrow.
  - rewrite length_map, length_seq. lia.
Qed.

Lemma scanRows_known (b : board) rs str s :
  Forall (Forall knownCell) b ->
  Forall inPlacement (list_ascii_of_string str) ->
  scanRows pieceCode b rs str = Some s ->
  Forall inPlacement (list_ascii_of_string s).
Proof.
  intros Hb. revert str. induction rs as [|r rs IH]; intros str Hstr; simpl.
  - by intros [= <-].
  - destruct (b !! r) as [row|] eqn:Hr; [|done].
    apply IH. rewrite !KeyMoreFacts.chars_append.
    apply Forall_app. split; [exact Hstr|]. apply Forall_app. split.
    + apply scanRow_chars. rewrite List.Forall_forall in Hb. apply Hb.
      apply list_elem_of_In. by eapply list_elem_of_lookup_2.
    + destruct (r <? 7); placement_chars.
Qed.

(** No base64 digit of placement characters is [+] or [/]. *)
Lemma placement_digits_safe a b :
  inPlacement a -> inPlacement b ->
  let x := nat_of_ascii a in
  let y := nat_of_ascii b in
  keySafe (Base64.digit (x / 4)) = true
  /\ keySafe (Base64.digit ((x mod 4) * 16 + y / 16)) = true
  /\ keySafe (Base64.digit ((x mod 16) * 4 + y / 64)) = true
  /\ keySafe (Base64.digit (x mod 64)) = true.
Proof.
  intros Ha Hb.
  assert (Hall :
    forallb (fun a =>
      forallb (fun b =>
        let x := nat_of_ascii a in
        let y := nat_of_ascii b in
        keySafe (Base64.digit (x / 4))
        && keySafe (Base64.digit ((x mod 4) * 16 + y / 16))
        && keySafe (Base64.digit ((x mod 16) * 4 + y / 64))
        && keySafe (Base64.digit (x mod 64))) placementChars) placementChars = true)
    by (vm_compute; reflexivity).
  rewrite forallb_forall in Hall. specialize (Hall a Ha).
  rewrite forallb_forall in Hall. specialize (Hall b Hb).
  cbv zeta in Hall. apply andb_prop in Hall as [Hall H4].
  apply andb_prop in Hall as [Hall H3]. apply andb_prop in Hall as [H1 H2].
  done.
Qed.

Lemma six_safe bytes :
  length bytes = 6 -> Forall inPlacement bytes ->
  List.filter keySafe (Base64.encode (map nat_of_ascii bytes))
  = Base64.encode (map nat_of_ascii bytes)
  /\ length (Base64.encode (map nat_of_ascii bytes)) = 8.
Proof.
  intros Hlen Hall.
  destruct bytes as [|a [|b [|c [|d [|e [|f [|g bytes]]]]]]]; try discriminate.
  apply Forall_cons in Hall as [Ha Hall]. apply Forall_cons in Hall as [Hb Hall].
  apply Forall_cons in Hall as [Hc Hall]. apply Forall_cons in Hall as [Hd Hall].
  apply Forall_cons in Hall as [He Hall]. apply Forall_cons in Hall as [Hf _].
  destruct (placement_digits_safe a b Ha Hb) as (H1 & H2 & _ & _).
  destruct (placement_digits_safe b c Hb Hc) as (_ & _ & H3 & _).
  destruct (placement_digits_safe c c Hc Hc) as (_ & _ & _ & H4).
  destruct (placement_digits_safe d e Hd He) as (H5 & H6 & _ & _).
  destruct (placement_digits_safe e f He Hf) as (_ & _ & H7 & _).
  destruct (placement_digits_safe f f Hf Hf) as (_ & _ & _ & H8).
  cbv zeta in *.
  cbn [map Base64.encode List.filter].
  rewrite H1, H2, H3, H4, H5, H6, H7, H8. done.
Qed.

End KeyShapeFacts.

(** X3. Two boards whose first rank starts with three pieces of the same
    colours and types get the same key, whatever else is on the boards and
    whoever is to move: the key is the base64 of the six characters that
    print these three pieces. *)
Theorem hashPosition_collides_on_first_three_pieces
    (b1 b2 : board) (row1 row2 : list (option Piece.t))
    (p1 q1 r1 p2 q2 r2 : Piece.t) (player1 player2 : string) :
  8 <= length b1 -> 8 <= length b2 ->
  b1 !! 0 = Some row1 -> b2 !! 0 = Some row2 ->
  take 3 row1 = [Some p1; Some q1; Some r1] ->
  take 3 row2 = [Some p2; Some q2; Some r2] ->
  Engine.pieceCode p1 = Engine.pieceCode p2 ->
  Engine.pieceCode q1 = Engine.pieceCode q2 ->
  Engine.pieceCode r1 = Engine.pieceCode r2 ->
  Engine.hashPosition b1 player1 = Engine.hashPosition b2 player2
  /\ is_Some (Engine.hashPosition b1 player1).
Proof.
  intros Hl1 Hl2 Hrow1 Hrow2 Hc1 Hc2 Hp Hq Hr.
  assert (Hs : forall b : board, 8 <= length b -> is_Some (placementOf b)).
  { intros b Hl. apply KeyFacts.scanRows_total.
    apply List.Forall_forall. intros r Hin. apply in_seq in Hin. lia. }
  destruct (Hs b1 Hl1) as [s1 Hs1]. destruct (Hs b2 Hl2) as [s2 Hs2].
  rewrite (KeyMoreFacts.hashPosition_prefix b1 _ s1 Hs1).
  rewrite (KeyMoreFacts.hashPosition_prefix b2 _ s2 Hs2).
  rewrite (KeyShapeFacts.placement_three_pieces b1 row1 p1 q1 r1 s1 Hrow1 Hc1 Hs1).
  rewrite (KeyShapeFacts.placement_three_pieces b2 row2 p2 q2 r2 s2 Hrow2 Hc2 Hs2).
  rewrite Hp, Hq, Hr. split; [done | by eexists].
Qed.

(** X4. On a board of at least eight rows whose pieces all have a type of
    the table, [hashPosition] returns a key of exactly eight characters:
    nothing is stripped. *)
Theorem hashPosition_key_length_known_pieces
    (b : board) (currentPlayer : string) :
  knownPieces b ->
  8 <= length b ->
  exists key,
    Engine.hashPosition b currentPlayer = Some key /\ String.length key = 8.
Proof.
  intros Hk Hrows.
  destruct (placementOf b) as [placement|] eqn:Hs.
  - rewrite (KeyMoreFacts.hashPosition_prefix b _ placement Hs).
    eexists. split; [reflexivity|].
    pose proof (KeyMoreFacts.placementOf_length b placement Hs) as Hlen.
    assert (Hin : Forall inPlacement (list_ascii_of_string placement)).
    { apply (KeyShapeFacts.scanRows_known b (seq 0 8) EmptyString); [|constructor|exact Hs].
      unfold knownPieces in Hk. exact Hk. }
    destruct (KeyShapeFacts.six_safe (take 6 (list_ascii_of_string placement)))
      as [Hsafe Hlen8].
    + rewrite length_take. lia.
    + by apply Forall_take.
    + rewrite Hsafe, KeyFacts.length_string_of_list_ascii. exact Hlen8.
  - unfold placementOf in Hs.
    apply KeyMoreFacts.scanRows_None in Hs as (r & Hin & Hle).
    apply in_seq in Hin. lia.
Qed.

Lemma hashPosition_collides_on_first_three_pieces_witness :
  Engine.hashPosition Sample.startBoard "white"
  = Engine.hashPosition Sample.cornerBoard "black"
  /\ is_Some (Engine.hashPosition Sample.startBoard "white").
Proof.
  eapply (hashPosition_collides_on_first_three_pieces
            Sample.startBoard Sample.cornerBoard);
    try reflexivity; simpl; lia.
Defined.

Lemma hashPosition_key_length_known_pieces_witness :
  exists key,
    Engine.hashPosition Sample.startBoard "white" = Some key
    /\ String.length key = 8.
Proof.
  apply (hashPosition_key_length_known_pieces Sample.startBoard "white").
  - unfold knownPieces, Sample.startBoard. repeat constructor.
  - simpl. lia.
Defined.

(** ** One call, seen from one record *)

Module StepFacts.
Import Engine.

Lemma updatePositionStats_set hash (b : board) currentPlayer d d' :
  updatePositionStats hash b currentPlayer d = Some d' ->
  Database.games d' = Database.games d
  /\ Database.totalGames d' = Database.totalGames d
  /\ exists pos,
       Database.positions d' = set hash (visit pos) (Database.positions d)
       /\ match get hash (Database.positions d) with
          | Some pos0 => pos = pos0
          | None =>
              exists fen patterns,
                detectPatterns b currentPlayer = Some patterns
                /\ pos = freshRecord hash fen patterns
          end.
Proof.
  unfold updatePositionStats.
  destruct (get hash (Database.positions d)) as [pos0|] eqn:Hget.
  - intros [= <-]. repeat split. by exists pos0.
  - destruct (boardToFEN b currentPlayer) as [fen|]; [|done].
    destruct (detectPatterns b currentPlayer) as [patterns|]; [|done].
    intros [= <-]. repeat split. eexists. split; [reflexivity|]. by exists fen, patterns.
Qed.

(** Every call but [reset] leaves a record alone, visits it, credits it or
    creates it. *)
Lemma perform_recordStep c st h :
  c <> Reset ->
  recordStep c h (get h (positionsOf st)) (get h (positionsOf (perform c st))).
Proof.
  assert (Hsame : forall o : option Position.t, recordStep c h o o).
  { intros [p|]; simpl; [by left | done]. }
  intros Hc. destruct c as [|b currentPlayer move|result|]; simpl; [apply Hsame| | |done].
  - unfold recordPosition.
    destruct (hashPosition b currentPlayer) as [hash|] eqn:Hh; [|apply Hsame].
    destruct (updatePositionStats hash b currentPlayer (db st)) as [d|] eqn:Hd;
      [|apply Hsame].
    destruct (updatePositionStats_set _ _ _ _ _ Hd) as (_ & _ & pos & Hpos & Hold).
    unfold positionsOf in *. cbn [fst db]. rewrite Hpos, get_set.
    destruct (String.eqb_spec hash h) as [->|Hne]; [|apply Hsame].
    destruct (get h (Database.positions (db st))) as [pos0|]; simpl.
    + subst pos. right. left. by exists b, currentPlayer, move.
    + destruct Hold as (fen & patterns & Hpat & ->).
      by exists b, currentPlayer, move, fen, patterns.
  - unfold endGame. destruct (currentGame st) as [game|]; [|apply Hsame].
    unfold positionsOf, updateGamePositions. simpl.
    destruct (FoldFacts.fold_cases result h (Game.positions game)
                (Database.positions (db st))) as [->|(ply & p & _ & _ & -> & ->)].
    + apply Hsame.
    + simpl. right. right. by exists result, ply.
Qed.

(** A property of a record and its key that the four ways of [recordStep]
    keep holds along any run without [reset]. *)
Lemma run_recordStep (P : string -> Position.t -> Position.t -> Prop) cs st :
  (forall h p, P h p p) ->
  (forall c h p p' p'',
     P h p p' -> recordStep c h (Some p') (Some p'') -> P h p p'') ->
  ~ In Reset cs ->
  forall h p,
    get h (positionsOf st) = Some p ->
    exists p', get h (positionsOf (run cs st)) = Some p' /\ P h p p'.
Proof.
  intros Hrefl Hstep. unfold run.
  enough (H : forall st0 h p p0,
            ~ In Reset cs ->
            get h (positionsOf st0) = Some p0 -> P h p p0 ->
            exists p', get h (positionsOf (foldl (fun st c => perform c st) st0 cs))
                       = Some p' /\ P h p p').
  { intros Hcs h p Hp. by apply (H st h p p). }
  induction cs as [|c cs IH]; intros st0 h p p0 Hcs Hp0 HP; simpl.
  - by exists p0.
  - assert (Hc : c <> Reset) by (intros ->; apply Hcs; by left).
    pose proof (perform_recordStep c st0 h Hc) as Hs. rewrite Hp0 in Hs.
    destruct (get h (positionsOf (perform c st0))) as [p1|] eqn:Hp1; [|done].
    apply (IH (perform c st0) h p p1); [intros Hin; apply Hcs; by right | done |].
    by apply (Hstep c h p p0 p1).
Qed.

End StepFacts.

Module StoreFacts.
Import Engine.

Lemma countOutcome_grows result o :
  Outcomes.white o <= Outcomes.white (countOutcome result o)
  /\ Outcomes.black o <= Outcomes.black (countOutcome result o)
  /\ Outcomes.draw o <= Outcomes.draw (countOutcome result o).
Proof.
  unfold countOutcome.
  destruct (String.eqb result "white"); [simpl; lia|].
  destruct (String.eqb result "black"); [simpl; lia|].
  destruct (String.eqb result "draw"); simpl; lia.
Qed.

Lemma grownFrom_step c h p p' p'' :
  grownFrom p p' -> recordStep c h (Some p') (Some p'') -> grownFrom p p''.
Proof.
  unfold grownFrom.
  intros (Hh & Hf & Hp & Ht & Hpop & Hw & Hb & Hd) Hstep. simpl in Hstep.
  destruct Hstep as [->|[(b & cp & move & _ & ->)|(result & ply & _ & ->)]]; simpl.
  - done.
  - repeat split; try done; lia.
  - destruct (countOutcome_grows result (Position.outcomes p')) as (Hw' & Hb' & Hd').
    repeat split; try done; lia.
Qed.

(** What a call does to the list of games and to their count. *)
Lemma perform_games c st :
  (gamesStored (perform c st) = gamesStored st
   /\ gamesCounted (perform c st) = gamesCounted st)
  \/ (exists result game,
        c = EndGame result /\ currentGame st = Some game
        /\ gamesStored (perform c st)
           = gamesStored st
             ++ [Game.mk (Game.positions game) (Game.moves game) (Some result)]
        /\ gamesCounted (perform c st) = S (gamesCounted st))
  \/ (c = Reset /\ gamesStored (perform c st) = []
      /\ gamesCounted (perform c st) = 0).
Proof.
  unfold gamesStored, gamesCounted.
  destruct c as [|b currentPlayer move|result|]; simpl.
  - by left.
  - left. unfold recordPosition.
    destruct (hashPosition b currentPlayer) as [hash|]; [|done].
    destruct (updatePositionStats hash b currentPlayer (db st)) as [d|] eqn:Hd; [|done].
    simpl. by destruct (StepFacts.updatePositionStats_set _ _ _ _ _ Hd) as (-> & -> & _).
  - unfold endGame. destruct (currentGame st) as [game|] eqn:Hg; [|by left].
    right. left. by exists result, game.
  - right. right. done.
Qed.

Lemma call_eq_Reset (c : call) : c = Reset \/ c <> Reset.
Proof. destruct c; [by right | by right | by right | by left]. Qed.

Lemma keyed_perform c st :
  (forall h p, get h (positionsOf st) = Some p -> Position.hash p = h) ->
  forall h p, get h (positionsOf (perform c st)) = Some p -> Position.hash p = h.
Proof.
  intros Hinv h p' Hp'.
  destruct (call_eq_Reset c) as [->|Hc]; [done|].
  pose proof (StepFacts.perform_recordStep c st h Hc) as Hs. rewrite Hp' in Hs.
  destruct (get h (positionsOf st)) as [p|] eqn:Hp; simpl in Hs.
  - destruct Hs as [->|[(b & cp & move & _ & ->)|(result & ply & _ & ->)]]; simpl;
      by apply Hinv.
  - by destruct Hs as (b & cp & move & fen & patterns & _ & _ & _ & ->).
Qed.

Lemma keyed_run cs st :
  (forall h p, get h (positionsOf st) = Some p -> Position.hash p = h) ->
  forall h p, get h (positionsOf (run cs st)) = Some p -> Position.hash p = h.
Proof.
  revert st. unfold run. induction cs as [|c cs IH]; intros st Hinv; simpl; [done|].
  apply IH. by apply keyed_perform.
Qed.

Lemma counted_perform c st :
  gamesCounted st = length (gamesStored st) ->
  gamesCounted (perform c st) = length (gamesStored (perform c st)).
Proof.
  intros Hinv.
  destruct (perform_games c st)
    as [[-> ->]|[(result & game & _ & _ & -> & ->)|(_ & -> & ->)]].
  - done.
  - rewrite length_app. simpl. lia.
  - done.
Qed.

Lemma bounded_perform c st :
  (forall h p, get h (positionsOf st) = Some p -> Position.totalGames p <= gamesCounted st) ->
  forall h p,
    get h (positionsOf (perform c st)) = Some p ->
    Position.totalGames p <= gamesCounted (perform c st).
Proof.
  intros Hinv h p' Hp'. destruct c as [|b currentPlayer move|result|].
  - by apply (Hinv h).
  - assert (Hc : RecordPosition b currentPlayer move <> Reset) by done.
    pose proof (StepFacts.perform_recordStep _ st h Hc) as Hs. rewrite Hp' in Hs.
    destruct (perform_games (RecordPosition b currentPlayer move) st)
      as [[_ ->]|[(? & ? & [=] & _)|([=] & _)]].
    destruct (get h (positionsOf st)) as [p|] eqn:Hp; simpl in Hs.
    + destruct Hs as [->|[(? & ? & ? & _ & ->)|(? & ? & [=] & _)]]; simpl;
        by apply (Hinv h).
    + destruct Hs as (? & ? & ? & fen & patterns & _ & _ & _ & ->). simpl. lia.
  - revert Hp'. simpl. unfold endGame.
    destruct (currentGame st) as [game|]; [|by apply Hinv].
    unfold positionsOf, gamesCounted, updateGamePositions. simpl.
    destruct (FoldFacts.fold_cases result h (Game.positions game)
                (Database.positions (db st))) as [->|(ply & p & _ & _ & Hp & ->)].
    + intros Hp. apply (Hinv h) in Hp. unfold gamesCounted in Hp. lia.
    + intros [= <-]. apply (Hinv h) in Hp. unfold gamesCounted in Hp. simpl. lia.
  - done.
Qed.

Lemma bounded_run cs st :
  (forall h p, get h (positionsOf st) = Some p -> Position.totalGames p <= gamesCounted st) ->
  forall h p,
    get h (positionsOf (run cs st)) = Some p ->
    Position.totalGames p <= gamesCounted (run cs st).
Proof.
  revert st. unfold run. induction cs as [|c cs IH]; intros st Hinv; simpl; [done|].
  apply IH. by apply bounded_perform.
Qed.


Lemma movesOfPlies_push g hash move currentPlayer :
  movesOfPlies g ->
  movesOfPlies
    (Game.mk (Game.positions g ++ [Ply.mk hash move currentPlayer])
       (match truthy move with
        | Some m => Game.moves g ++ [m]
        | None => Game.moves g
        end)
       (Game.result g)).
Proof.
  unfold movesOfPlies. intros Hg. simpl. rewrite omap_app. simpl. rewrite <- Hg.
  destruct (truthy move); simpl; [done | by rewrite app_nil_r].
Qed.

Lemma gamesWellFormed_perform c st :
  gamesWellFormed st -> gamesWellFormed (perform c st).
Proof.
  intros [Hstored Hcurrent]. unfold gamesWellFormed.
  destruct c as [|b currentPlayer move|result|]; simpl.
  - split; [exact Hstored|]. by intros g [= <-].
  - set (game0 := match currentGame st with
                   | Some game => game
                   | None => newGame
                   end).
    assert (Hgame : movesOfPlies game0 /\ Game.result game0 = None).
    { subst game0. destruct (currentGame st) as [game|]; [by apply Hcurrent | done]. }
    destruct Hgame as [Hm Hr].
    pose proof (perform_games (RecordPosition b currentPlayer move) st) as Hg.
    destruct Hg as [[Hg _]|[(? & ? & [=] & _)|([=] & _)]].
    unfold gamesStored in Hg. simpl in Hg. rewrite Hg. split; [exact Hstored|].
    unfold recordPosition. fold game0.
    destruct (hashPosition b currentPlayer) as [hash|];
      [|simpl; by intros g [= <-]].
    destruct (updatePositionStats hash b currentPlayer (db st)) as [d|].
    + cbn [fst currentGame]. intros g [= <-].
      split; [apply movesOfPlies_push, Hm | exact Hr].
    + cbn [fst currentGame]. intros g [= <-].
      split; [apply movesOfPlies_push, Hm | exact Hr].
  - unfold endGame.
    destruct (currentGame st) as [game|] eqn:Hg;
      [|split; [exact Hstored | simpl; by rewrite Hg]].
    simpl. split; [|done].
    apply Forall_app. split; [exact Hstored|].
    apply Forall_singleton. destruct (Hcurrent game eq_refl) as [Hm _].
    split; [exact Hm | by eexists].
  - split; [constructor | exact Hcurrent].
Qed.

End StoreFacts.

Lemma ex_and_l {A : Type} (P : Prop) (Q : A -> Prop) :
  P -> (exists x, Q x) -> exists x, P /\ Q x.
Proof. intros HP [x HQ]. by exists x. Qed.

(** X5. Without [reset] a record is never lost nor rebuilt: after any run
    of the other calls the record of a hash is still there, with the hash,
    placement summary and patterns it had, and with no counter
    ([totalGames], [popularity], the three outcomes) below its old value. *)
Theorem records_persist_and_grow
    (cs : list Engine.call) (st : Engine.learner) (h : string) (p : Engine.Position.t) :
  ~ In Engine.Reset cs ->
  get h (positionsOf st) = Some p ->
  exists p', get h (positionsOf (Engine.run cs st)) = Some p' /\ grownFrom p p'.
Proof.
  intros Hcs Hp.
  apply (StepFacts.run_recordStep (fun _ => grownFrom) cs st); [| |done..].
  - intros _ q. unfold grownFrom. repeat split; lia.
  - intros c h0 q q' q''. apply StoreFacts.grownFrom_step.
Qed.

Lemma records_persist_and_grow_witness :
  exists p',
    get "A" (positionsOf (Engine.run Sample.shortGame Sample.threePositions)) = Some p'
    /\ grownFrom (Sample.record "A" 5 5).2 p'.
Proof.
  apply (records_persist_and_grow Sample.shortGame Sample.threePositions "A").
  - simpl. intuition discriminate.
  - reflexivity.
Defined.

(** X6. In a store built by the learner every record carries its own key:
    [positions[h].hash] is [h], after any run from a store with that
    property (the empty store has it). *)
Theorem record_hash_is_its_key (cs : list Engine.call) (st : Engine.learner) :
  (forall h p, get h (positionsOf st) = Some p -> Engine.Position.hash p = h) ->
  forall h p,
    get h (positionsOf (Engine.run cs st)) = Some p -> Engine.Position.hash p = h.
Proof. apply StoreFacts.keyed_run. Qed.

Lemma record_hash_is_its_key_witness :
  exists p,
    get "d3J3bndi" (positionsOf (Engine.run Sample.shortGame Engine.newLearner)) = Some p
    /\ Engine.Position.hash p = "d3J3bndi".
Proof.
  eexists. split; [reflexivity|].
  apply (record_hash_is_its_key Sample.shortGame Engine.newLearner).
  - intros h p. discriminate.
  - reflexivity.
Defined.

(** X7. [metadata.totalGames] is the length of the list of stored games:
    [endGame] pushes one game and counts one, [reset] empties both, nothing
    else touches either. *)
Theorem totalGames_counts_stored_games (cs : list Engine.call) (st : Engine.learner) :
  gamesCounted st = length (gamesStored st) ->
  gamesCounted (Engine.run cs st) = length (gamesStored (Engine.run cs st)).
Proof.
  revert st. unfold Engine.run.
  induction cs as [|c cs IH]; intros st Hinv; simpl; [done|].
  apply IH. by apply StoreFacts.counted_perform.
Qed.

Lemma totalGames_counts_stored_games_witness :
  gamesCounted (Engine.run Sample.shortGame Engine.newLearner)
  = length (gamesStored (Engine.run Sample.shortGame Engine.newLearner)).
Proof.
  apply (totalGames_counts_stored_games Sample.shortGame Engine.newLearner).
  reflexivity.
Defined.

(** X8. No position has more games than the learner has finished: a game
    adds one to [metadata.totalGames] and at most one to the [totalGames] of
    a position. *)
Theorem position_totalGames_bounded (cs : list Engine.call) (st : Engine.learner) :
  (forall h p,
     get h (positionsOf st) = Some p -> Engine.Position.totalGames p <= gamesCounted st) ->
  forall h p,
    get h (positionsOf (Engine.run cs st)) = Some p ->
    Engine.Position.totalGames p <= gamesCounted (Engine.run cs st).
Proof. apply StoreFacts.bounded_run. Qed.

Lemma position_totalGames_bounded_witness :
  exists p,
    get "d3J3bndi" (positionsOf (Engine.run Sample.shortGame Engine.newLearner)) = Some p
    /\ Engine.Position.totalGames p
       <= gamesCounted (Engine.run Sample.shortGame Engine.newLearner).
Proof.
  eexists. split; [reflexivity|].
  apply (position_totalGames_bounded Sample.shortGame Engine.newLearner) with "d3J3bndi".
  - intros h p. discriminate.
  - reflexivity.
Defined.




(** X11. A result other than [white], [black] and [draw] is counted as a
    game but in no outcome: [endGame] raises [totalGames] of every recorded
    position of the game and leaves its three outcomes as they were. *)
Theorem unknown_result_counts_no_outcome
    (result : string) (st : Engine.learner) (game : Engine.Game.t)
    (h : string) (p : Engine.Position.t) :
  ~ validResult result ->
  Engine.currentGame st = Some game ->
  In h (map Engine.Ply.hash (Engine.Game.positions game)) ->
  get h (positionsOf st) = Some p ->
  exists p',
    get h (positionsOf (Engine.endGame result st).1) = Some p'
    /\ Engine.Position.totalGames p' = S (Engine.Position.totalGames p)
    /\ Engine.Position.outcomes p' = Engine.Position.outcomes p.
Proof.
  intros Hr Hg Hin Hp. unfold Engine.endGame. rewrite Hg.
  unfold positionsOf, Engine.updateGamePositions. simpl.
  destruct (FoldFacts.fold_once result h (Engine.Game.positions game) ∅
              (Engine.Database.positions (Engine.db st)) p) as (ply & _ & _ & ->);
    [apply not_elem_of_empty | done | done |].
  eexists. split; [reflexivity|]. split; [done|]. simpl.
  unfold Engine.countOutcome, validResult in *.
  destruct (String.eqb_spec result "white"); [tauto|].
  destruct (String.eqb_spec result "black"); [tauto|].
  destruct (String.eqb_spec result "draw"); [tauto | done].
Qed.

Lemma unknown_result_counts_no_outcome_witness :
  exists p p',
    get "d3J3bndi"
      (positionsOf
         (Engine.recordPosition Sample.startBoard "white" None Engine.newLearner).1)
    = Some p
    /\ get "d3J3bndi"
         (positionsOf
            (Engine.endGame "resigned"
               (Engine.recordPosition Sample.startBoard "white" None Engine.newLearner).1).1)
       = Some p'
    /\ Engine.Position.totalGames p' = S (Engine.Position.totalGames p)
    /\ Engine.Position.outcomes p' = Engine.Position.outcomes p.
Proof.
  eexists. apply ex_and_l; [reflexivity|].
  eapply (unknown_result_counts_no_outcome "resigned"
            (Engine.recordPosition Sample.startBoard "white" None Engine.newLearner).1).
  - intros [H|[H|H]]; discriminate.
  - reflexivity.
  - left. reflexivity.
  - reflexivity.
Defined.

(** X12. The games the learner holds are well formed after any run: every
    stored game has a result, the game in progress has none, and the
    [moves] of each are the non-empty moves of its [positions], in order. *)
Theorem games_stay_well_formed (cs : list Engine.call) (st : Engine.learner) :
  gamesWellFormed st -> gamesWellFormed (Engine.run cs st).
Proof.
  revert st. unfold Engine.run.
  induction cs as [|c cs IH]; intros st Hinv; simpl; [done|].
  apply IH. by apply StoreFacts.gamesWellFormed_perform.
Qed.

Lemma games_stay_well_formed_witness :
  gamesWellFormed (Engine.run Sample.shortGame Engine.newLearner).
Proof.
  apply (games_stay_well_formed Sample.shortGame Engine.newLearner).
  split; [constructor | discriminate].
Defined.

(** X13. Records are created by [recordPosition] alone: a hash without a
    record gets one only if a call of the run records a board with that
    hash.  In particular [endGame] credits no position whose record a
    [reset] has cleared during the game. *)
Theorem records_only_from_recordPosition
    (cs : list Engine.call) (st : Engine.learner) (h : string) :
  get h (positionsOf st) = None ->
  (forall b currentPlayer move,
     In (Engine.RecordPosition b currentPlayer move) cs ->
     Engine.hashPosition b currentPlayer <> Some h) ->
  get h (positionsOf (Engine.run cs st)) = None.
Proof.
  revert st. unfold Engine.run.
  induction cs as [|c cs IH]; intros st Hnone Hcs; simpl; [done|].
  apply IH; [|intros b cp move Hin; apply (Hcs b cp move); by right].
  destruct (StoreFacts.call_eq_Reset c) as [->|Hc]; [done|].
  pose proof (StepFacts.perform_recordStep c st h Hc) as Hs. rewrite Hnone in Hs.
  destruct (get h (positionsOf (Engine.perform c st))) as [p'|]; [|done].
  simpl in Hs. destruct Hs as (b & cp & move & fen & patterns & -> & Hh & _).
  exfalso. apply (Hcs b cp move); [by left | done].
Qed.

Lemma records_only_from_recordPosition_witness :
  get "d3J3bndi"
    (positionsOf
       (Engine.run
          [Engine.RecordPosition Sample.startBoard "white" None; Engine.Reset;
           Engine.RecordPosition Sample.emptyBoard "black" None;
           Engine.EndGame "white"]
          Engine.newLearner))
  = None.
Proof.
  change (get "d3J3bndi"
            (positionsOf
               (Engine.run
                  [Engine.RecordPosition Sample.emptyBoard "black" None;
                   Engine.EndGame "white"]
                  (Engine.run
                     [Engine.RecordPosition Sample.startBoard "white" None; Engine.Reset]
                     Engine.newLearner))) = None).
  apply records_only_from_recordPosition; [reflexivity|].
  intros b cp move [[= <- <- <-]|[[=]|[]]]. vm_compute. discriminate.
Defined.

(** ** Pattern tags *)

Module PatternFacts.
Import Engine.

Lemma squares_In r c : In (r, c) squares <-> r < 8 /\ c < 8.
Proof.
  unfold squares. rewrite <- list_elem_of_In, list_elem_of_bind. split.
  - intros (r' & Hin & Hr). apply list_elem_of_bind in Hin as (c' & Hin & Hc).
    apply list_elem_of_singleton in Hin as [= -> ->].
    apply elem_of_seq in Hr, Hc. lia.
  - intros [Hr Hc]. exists r. split; [|apply elem_of_seq; lia].
    apply list_elem_of_bind. exists c. split; [|apply elem_of_seq; lia].
    by apply list_elem_of_singleton.
Qed.

Lemma squares_NoDup : NoDup squares.
Proof. apply (bool_decide_unpack _). by vm_compute. Qed.

Lemma In_tag (c : bool) (x tag : string) :
  In tag (if c then [x] else []) <-> tag = x /\ c = true.
Proof. destruct c; simpl; intuition congruence. Qed.

(** The tags of a board of eight rows, one by one. *)
Lemma tags_In (whiteKing blackKing whiteBishops blackBishops whitePawns blackPawns : bool)
    tag :
  In tag ((if whiteKing then ["white_king_safe"] else [])
          ++ (if blackKing then ["black_king_safe"] else [])
          ++ ["white_center"] ++ ["black_center"]
          ++ (if whiteBishops then ["white_bishop_pair"] else [])
          ++ (if blackBishops then ["black_bishop_pair"] else [])
          ++ (if whitePawns then ["white_doubled_pawns"] else [])
          ++ (if blackPawns then ["black_doubled_pawns"] else []))
  <-> (tag = "white_king_safe" /\ whiteKing = true)
      \/ (tag = "black_king_safe" /\ blackKing = true)
      \/ tag = "white_center"
      \/ tag = "black_center"
      \/ (tag = "white_bishop_pair" /\ whiteBishops = true)
      \/ (tag = "black_bishop_pair" /\ blackBishops = true)
      \/ (tag = "white_doubled_pawns" /\ whitePawns = true)
      \/ (tag = "black_doubled_pawns" /\ blackPawns = true).
Proof.
  rewrite !in_app_iff, !In_tag. simpl. intuition congruence.
Qed.

Ltac tag_iff :=
  rewrite tags_In; split;
  [ intros H; decompose [or and] H; first [assumption | discriminate]
  | intros H;
    repeat first [left; split; [reflexivity | exact H] | right
                 | split; [reflexivity | exact H]] ].

Lemma kingFound_iff (b : board) color :
  kingFound b color = true <-> exists r c, holds b "king" color r c.
Proof.
  unfold kingFound, holds. rewrite existsb_exists. split.
  - intros ([r c] & Hin & Hp). apply squares_In in Hin. exists r, c. tauto.
  - intros (r & c & Hr & Hc & Hp). exists (r, c). split; [by apply squares_In | done].
Qed.

(** At least two elements of a list pass a test exactly when two
    different ones do. *)
Lemma two_pass {A : Type} (f : A -> bool) (l : list A) :
  NoDup l ->
  2 <= length (List.filter f l) <->
  exists x y, x <> y /\ In x l /\ In y l /\ f x = true /\ f y = true.
Proof.
  intros Hnd. split.
  - induction Hnd as [|a l Ha Hnd IH]; simpl; [lia|].
    destruct (f a) eqn:Hfa.
    + simpl. intros Hlen.
      destruct (List.filter f l) as [|y m] eqn:Hm; [simpl in Hlen; lia|].
      assert (Hy : In y (List.filter f l)) by (rewrite Hm; by left).
      apply filter_In in Hy as [Hy Hfy].
      exists a, y. split; [|tauto].
      intros ->. apply Ha. by apply list_elem_of_In.
    + intros Hlen. destruct (IH Hlen) as (x & y & ? & ? & ? & ? & ?).
      exists x, y. tauto.
  - intros (x & y & Hne & Hx & Hy & Hfx & Hfy).
    assert (Hx' : In x (List.filter f l)) by (apply filter_In; tauto).
    assert (Hy' : In y (List.filter f l)) by (apply filter_In; tauto).
    destruct (List.filter f l) as [|u [|v m]]; simpl in *; [tauto | | lia].
    intuition congruence.
Qed.

Lemma bishopPair_iff (b : board) color :
  bishopPair b color = true <->
  exists r1 c1 r2 c2,
    (r1, c1) <> (r2, c2) /\ holds b "bishop" color r1 c1 /\ holds b "bishop" color r2 c2.
Proof.
  unfold bishopPair, holds. rewrite Nat.leb_le, (two_pass _ _ squares_NoDup). split.
  - intros ([r1 c1] & [r2 c2] & Hne & H1 & H2 & Hp1 & Hp2).
    apply squares_In in H1, H2. exists r1, c1, r2, c2. tauto.
  - intros (r1 & c1 & r2 & c2 & Hne & (? & ? & ?) & (? & ? & ?)).
    exists (r1, c1), (r2, c2). rewrite !squares_In. tauto.
Qed.

Lemma doubledPawns_iff (b : board) color :
  doubledPawns b color = true <->
  exists c r1 r2, r1 <> r2 /\ holds b "pawn" color r1 c /\ holds b "pawn" color r2 c.
Proof.
  unfold doubledPawns, holds. rewrite existsb_exists. split.
  - intros (c & Hc & Hlen). apply in_seq in Hc.
    apply Nat.ltb_lt in Hlen. apply (two_pass _ _ (NoDup_seq 0 8)) in Hlen
      as (r1 & r2 & Hne & H1 & H2 & Hp1 & Hp2).
    apply in_seq in H1, H2. exists c, r1, r2. repeat split; try done; lia.
  - intros (c & r1 & r2 & Hne & (? & ? & ?) & (? & ? & ?)).
    exists c. split; [apply in_seq; lia|].
    apply Nat.ltb_lt. apply (two_pass _ _ (NoDup_seq 0 8)).
    exists r1, r2. rewrite !in_seq. repeat split; try done; lia.
Qed.

End PatternFacts.

(** X14. [detectPatterns] throws on a board with fewer than eight rows, a
    cell of a missing row being read, and returns on every other board.
    There the king-safety tag of a colour is set exactly when a king of
    that colour stands somewhere in the 8x8 window, attacked or not, and the
    two centre tags are always set. *)
Theorem king_and_centre_tags (b : board) (currentPlayer : string) :
  match Engine.detectPatterns b currentPlayer with
  | None => length b < 8
  | Some tags =>
      8 <= length b
      /\ (In "white_king_safe" tags <-> exists r c, holds b "king" "white" r c)
      /\ (In "black_king_safe" tags <-> exists r c, holds b "king" "black" r c)
      /\ In "white_center" tags
      /\ In "black_center" tags
  end.
Proof.
  destruct (Nat.lt_ge_cases (length b) 8) as [Hlt|Hge].
  - by rewrite EngineFacts.detectPatterns_short.
  - rewrite EngineFacts.detectPatterns_rows by done.
    split; [done|].
    rewrite <- !PatternFacts.kingFound_iff.
    split; [PatternFacts.tag_iff|]. split; [PatternFacts.tag_iff|].
    rewrite !PatternFacts.tags_In. split; [do 2 right; by left | do 3 right; by left].
Qed.

(** X15. On a board of eight rows or more, where [detectPatterns] returns,
    the bishop-pair tag of a colour is set exactly when two different
    squares hold bishops of that colour, whatever the colours of the
    squares; the doubled-pawns tag exactly when some file holds pawns of
    that colour on two different ranks.  On a shorter board the call
    throws. *)
Theorem bishop_pair_and_doubled_pawn_tags (b : board) (currentPlayer color : string) :
  (color = "white" \/ color = "black") ->
  match Engine.detectPatterns b currentPlayer with
  | None => length b < 8
  | Some tags =>
      8 <= length b
      /\ (In (color +:+ "_bishop_pair") tags
          <-> exists r1 c1 r2 c2,
                (r1, c1) <> (r2, c2)
                /\ holds b "bishop" color r1 c1 /\ holds b "bishop" color r2 c2)
      /\ (In (color +:+ "_doubled_pawns") tags
          <-> exists c r1 r2,
                r1 <> r2 /\ holds b "pawn" color r1 c /\ holds b "pawn" color r2 c)
  end.
Proof.
  intros Hcolor.
  destruct (Nat.lt_ge_cases (length b) 8) as [Hlt|Hge].
  - by rewrite EngineFacts.detectPatterns_short.
  - rewrite EngineFacts.detectPatterns_rows by done.
    split; [done|].
    rewrite <- PatternFacts.bishopPair_iff, <- PatternFacts.doubledPawns_iff.
    destruct Hcolor as [->| ->]; cbn [String.append];
      split; PatternFacts.tag_iff.
Qed.

Lemma bishop_pair_and_doubled_pawn_tags_witness :
  exists tags,
    Engine.detectPatterns Sample.startBoard "white" = Some tags
    /\ In "white_bishop_pair" tags
    /\ ~ In "white_doubled_pawns" tags.
Proof.
  pose proof (bishop_pair_and_doubled_pawn_tags Sample.startBoard "white" "white"
                (or_introl eq_refl)) as H.
  destruct (Engine.detectPatterns Sample.startBoard "white") as [tags|] eqn:Htags;
    [|by vm_compute in H; lia].
  destruct H as (_ & Hb & Hp). exists tags. split; [done|]. split.
  - apply Hb. exists 0, 2, 0, 5. unfold holds. repeat split; try lia. discriminate.
  - intros Hin. revert Hin. injection Htags as <-. vm_compute. intuition discriminate.
Defined.

(** The tags of the starting position, and a board cut to seven rows. *)
Example detectPatterns_examples :
  Engine.detectPatterns Sample.startBoard "white"
  = Some ["white_king_safe"; "black_king_safe"; "white_center"; "black_center";
          "white_bishop_pair"; "black_bishop_pair"]
  /\ Engine.detectPatterns (take 7 Sample.startBoard) "white" = None.
Proof. split; reflexivity. Qed.

Module OpeningMoreFacts.
Import Engine.

(** The selected games split into those won by white, by black and by
    neither. *)
Lemma count_split (sel : Game.t -> bool) games :
  count sel games
  = count (fun g => sel g && wonBy "white" g) games
    + count (fun g => sel g && wonBy "black" g) games
    + count (fun g => sel g && neither g) games.
Proof.
  unfold count. induction games as [|g games IH]; simpl; [done|].
  unfold neither, wonBy in *.
  destruct (sel g); simpl; [|exact IH].
  destruct (resultIs (Game.result g) "white") eqn:Hw; simpl.
  - rewrite (OpeningFacts.white_not_black _ Hw). simpl. lia.
  - destruct (resultIs (Game.result g) "black"); simpl; lia.
Qed.

Lemma count_le {A : Type} (f : A -> bool) l : count f l <= length l.
Proof. unfold count. apply List.filter_length_le. Qed.

Lemma count_true {A : Type} (l : list A) : count (fun _ => true) l = length l.
Proof. unfold count. induction l as [|x l IH]; simpl; [done | by rewrite IH]. Qed.

Lemma find_Some_count {A : Type} (f : A -> bool) l x :
  List.find f l = Some x -> 1 <= count f l.
Proof.
  unfold count. induction l as [|y l IH]; simpl; [done|].
  destruct (f y); simpl; [lia | exact IH].
Qed.

Lemma tallyOf_entry depth k games o :
  tallyOf depth (inOpening depth k) games = Some o ->
  Opening.games o = Opening.wins o + Opening.losses o + Opening.draws o
  /\ 1 <= Opening.games o <= length games
  /\ length (Opening.moves o) = depth.
Proof.
  unfold tallyOf.
  destruct (List.find (inOpening depth k) games) as [g0|] eqn:Hfind; [|done].
  intros [= <-]. simpl. split; [apply count_split|]. split.
  - split; [by apply (find_Some_count _ _ g0) | apply count_le].
  - apply find_some in Hfind as [_ Hsel].
    unfold inOpening, eligible in Hsel. apply andb_prop in Hsel as [He _].
    apply Nat.leb_le in He. rewrite length_take. lia.
Qed.

Lemma tree_values depth st o :
  In o (getOpeningTree depth st) ->
  In o (values (openings depth (Database.games (db st)))).
Proof.
  unfold getOpeningTree. intros Ho.
  eapply Permutation_in.
  - apply Permutation_sym,
      (SortFacts.sort_Permutation (fun o => num (Opening.games o))).
  - apply list_elem_of_In. eapply subseteq_take. apply list_elem_of_In, Ho.
Qed.

Lemma tree_nil depth st :
  getOpeningTree depth st = []
  <-> values (openings depth (Database.games (db st))) = [].
Proof.
  unfold getOpeningTree.
  set (vs := values (openings depth (Database.games (db st)))).
  pose proof (SortFacts.sort_Permutation (fun o => num (Opening.games o)) vs) as Hperm.
  simpl in Hperm. split.
  - intros Hnil. destruct (JsArray.sort _ vs) as [|x l] eqn:Hs; [|done].
    by apply Permutation_nil, Permutation_sym.
  - intros Hnil. rewrite Hnil in *. by apply Permutation_nil in Hperm as ->.
Qed.

(** With no moves to join every game has the empty key. *)
Lemma inOpening_0 k g : inOpening 0 k g = String.eqb EmptyString k.
Proof. unfold inOpening, eligible, openingKey. by rewrite take_0. Qed.

End OpeningMoreFacts.

(** X16. Every entry of the opening tree is balanced: its [games] is the sum
    of its [wins], [losses] and [draws], at least one and at most the number
    of stored games, and its [moves] are exactly [depth] moves. *)
Theorem opening_entries_balanced
    (depth : nat) (st : Engine.learner) (o : Engine.Opening.t) :
  In o (Engine.getOpeningTree depth st) ->
  Engine.Opening.games o
  = Engine.Opening.wins o + Engine.Opening.losses o + Engine.Opening.draws o
  /\ 1 <= Engine.Opening.games o <= length (Engine.Database.games (Engine.db st))
  /\ length (Engine.Opening.moves o) = depth.
Proof.
  intros Ho. apply OpeningMoreFacts.tree_values, OpeningFacts.values_tally in Ho
    as (k & _ & Hk).
  by apply (OpeningMoreFacts.tallyOf_entry depth k).
Qed.

Lemma opening_entries_balanced_witness :
  In (Engine.Opening.mk ["e4"; "e5"] 3 2 1 0)
    (Engine.getOpeningTree 2 (Sample.storeOf Sample.fiveGames))
  /\ 3 = 2 + 1 + 0
  /\ 1 <= 3 <= length Sample.fiveGames
  /\ length ["e4"; "e5"] = 2.
Proof.
  assert (Ho : In (Engine.Opening.mk ["e4"; "e5"] 3 2 1 0)
                 (Engine.getOpeningTree 2 (Sample.storeOf Sample.fiveGames)))
    by (left; reflexivity).
  split; [exact Ho|].
  exact (opening_entries_balanced 2 (Sample.storeOf Sample.fiveGames) _ Ho).
Defined.

(** X17. The opening tree is empty exactly when every stored game has
    fewer than [depth] moves or a joined text of its first [depth] moves
    that names a member of [Object.prototype]: these games are skipped,
    every other game is counted in some entry. *)
Theorem opening_tree_empty_iff (depth : nat) (st : Engine.learner) :
  Engine.getOpeningTree depth st = []
  <-> forall g, In g (Engine.Database.games (Engine.db st)) ->
        length (Engine.Game.moves g) < depth
        \/ In (Engine.openingKey depth g) inherited.
Proof.
  rewrite OpeningMoreFacts.tree_nil. split.
  - intros Hnil g Hg.
    destruct (Nat.lt_ge_cases (length (Engine.Game.moves g)) depth) as [|Hge];
      [by left|].
    destruct (in_dec string_dec (Engine.openingKey depth g) inherited) as [|Hown];
      [by right|].
    assert (He : eligible depth g = true) by (by apply Nat.leb_le).
    destruct (OpeningFacts.tallyOf_exists depth _ g Hg He) as [o Ho].
    assert (Hin : In o (values (Engine.openings depth
                                  (Engine.Database.games (Engine.db st))))).
    { apply OpeningFacts.values_tally. by eexists. }
    rewrite Hnil in Hin. destruct Hin.
  - intros Hskip.
    destruct (values (Engine.openings depth (Engine.Database.games (Engine.db st))))
      as [|o vs] eqn:Hvs; [done|].
    assert (Hin : In o (values (Engine.openings depth
                                  (Engine.Database.games (Engine.db st)))))
      by (rewrite Hvs; by left).
    apply OpeningFacts.values_tally in Hin as (k & Hown & Hk).
    unfold tallyOf in Hk.
    destruct (List.find (inOpening depth k) (Engine.Database.games (Engine.db st)))
      as [g0|] eqn:Hfind; [|done].
    apply find_some in Hfind as [Hg0 Hsel].
    unfold inOpening, eligible in Hsel. apply andb_prop in Hsel as [He Hkey].
    apply Nat.leb_le in He. apply String.eqb_eq in Hkey.
    destruct (Hskip g0 Hg0) as [Hshort|Hmember]; [lia|].
    rewrite Hkey in Hmember. contradiction.
Qed.

(** The tree of a store whose only game has the single move [constructor]
    is empty at depth 1, and has one entry when the move is [e4]. *)
Example opening_tree_member_key :
  Engine.getOpeningTree 1 (Sample.storeOf Sample.memberGames) = []
  /\ Engine.getOpeningTree 1 (Sample.storeOf [Sample.finished ["e4"] "white"])
     = [Engine.Opening.mk ["e4"] 1 1 0 0].
Proof. split; reflexivity. Qed.

(** X18. At depth 0 all games fall under the empty key: the tree of a store
    with at least one game is a single entry with no moves that counts every
    stored game. *)
Theorem opening_tree_depth_0 (st : Engine.learner) :
  let games := Engine.Database.games (Engine.db st) in
  games <> [] ->
  Engine.getOpeningTree 0 st
  = [Engine.Opening.mk [] (length games)
       (count (wonBy "white") games) (count (wonBy "black") games)
       (count neither games)].
Proof.
  intros games Hne.
  assert (Hall : tallyOf 0 (inOpening 0 EmptyString) games
                 = Some (Engine.Opening.mk [] (length games)
                           (count (wonBy "white") games) (count (wonBy "black") games)
                           (count neither games))).
  { rewrite (OpeningFacts.tallyOf_ext 0 _ (fun _ => true) games)
      by (intros g _; by rewrite OpeningMoreFacts.inOpening_0).
    unfold tallyOf. destruct games as [|g games']; [done|].
    simpl List.find. cbv iota. rewrite take_0, OpeningMoreFacts.count_true.
    reflexivity. }
  assert (Hvals : values (Engine.openings 0 games)
                  = [Engine.Opening.mk [] (length games)
                       (count (wonBy "white") games) (count (wonBy "black") games)
                       (count neither games)]).
  { pose proof (OpeningFacts.openings_NoDup 0 games) as Hnd.
    rewrite <- OpeningFacts.keys_values in Hnd.
    assert (Hkey : forall o, In o (values (Engine.openings 0 games)) ->
              o = Engine.Opening.mk [] (length games)
                    (count (wonBy "white") games) (count (wonBy "black") games)
                    (count neither games)).
    { intros o Ho. apply OpeningFacts.values_tally in Ho as (k & _ & Hk).
      assert (k = EmptyString) as ->.
      { unfold tallyOf in Hk.
        destruct (List.find (inOpening 0 k) games) as [g0|] eqn:Hfind; [|done].
        apply find_some in Hfind as [_ Hsel].
        rewrite OpeningMoreFacts.inOpening_0 in Hsel.
        apply String.eqb_eq in Hsel. done. }
      congruence. }
    assert (Hin : In (Engine.Opening.mk [] (length games)
                        (count (wonBy "white") games) (count (wonBy "black") games)
                        (count neither games))
                    (values (Engine.openings 0 games))).
    { apply OpeningFacts.values_tally. exists EmptyString. split; [|done].
      unfold inherited. simpl. intuition discriminate. }
    destruct (values (Engine.openings 0 games)) as [|o1 [|o2 vs]]; [destruct Hin | |].
    - f_equal. apply Hkey. by left.
    - exfalso. rewrite (Hkey o1), (Hkey o2) in Hnd by (simpl; tauto).
      simpl in Hnd. apply NoDup_cons in Hnd as [Hnotin _].
      apply Hnotin. by left. }
  unfold Engine.getOpeningTree. fold games. by rewrite Hvals.
Qed.

Lemma opening_tree_depth_0_witness :
  Engine.getOpeningTree 0 (Sample.storeOf Sample.fiveGames)
  = [Engine.Opening.mk [] 5 3 1 1].
Proof.
  apply (opening_tree_depth_0 (Sample.storeOf Sample.fiveGames)). done.
Defined.

(** X19. What a save does and does not do.  It returns [true] exactly when
    the store has a [metadata] it can stamp and the write goes through; the
    storage then holds the text of the store in memory, whose
    [metadata.lastUpdated] is the current time.  When it returns [false] the
    storage is as it was.  In both cases every property of the store other
    than [metadata] is as it was. *)
Theorem saveDatabase_effects
    (JSON_stringify : Persistence.value -> string)
    (e : Persistence.env) (st : Persistence.learner) :
  let after := Persistence.saveDatabase JSON_stringify e st in
  (after.2 = true
   <-> is_Some (Persistence.stamp (Persistence.now e) (Persistence.db st))
       /\ Persistence.writable e = true)
  /\ (after.2 = true ->
      Persistence.storage after.1 = Some (JSON_stringify (Persistence.db after.1))
      /\ exists metadata,
           Persistence.read "metadata" (Persistence.db after.1) = Some metadata
           /\ Persistence.read "lastUpdated" metadata
              = Some (Persistence.Str (Persistence.now e)))
  /\ (after.2 = false -> Persistence.storage after.1 = Persistence.storage st)
  /\ (forall k, k <> "metadata" ->
        Persistence.read k (Persistence.db after.1)
        = Persistence.read k (Persistence.db st)).
Proof.
  intros after. subst after. unfold Persistence.saveDatabase.
  destruct (Persistence.stamp (Persistence.now e) (Persistence.db st)) as [db'|] eqn:Hs.
  - pose proof (PersistenceFacts.stamp_metadata _ _ _ Hs)
      as (metadata & metadata' & _ & Hmd' & Hlast & _).
    pose proof (fun k => PersistenceFacts.stamp_read _ _ _ k Hs) as Hread.
    destruct (Persistence.writable e); cbn [fst snd Persistence.db Persistence.storage].
    + split; [split; [by split; [eexists|] | done]|].
      split; [intros _; split; [done | by exists metadata']|].
      split; [done|]. intros k Hk. by apply Hread.
    + split; [split; [done | by intros [_ ?]]|].
      split; [done|]. split; [done|].
      intros k Hk. by apply Hread.
  - cbn [fst snd]. split; [split; [done | by intros [[? ?] _]]|].
    split; [done|]. split; done.
Qed.

(** X20. A save that succeeds can be loaded back: when the platform parses
    the text it printed for the saved store back to that store, a learner
    constructed over the same storage starts from the store the save left in
    memory. *)
Theorem save_then_load
    (JSON_parse : string -> option Persistence.value)
    (JSON_stringify : Persistence.value -> string)
    (e e' : Persistence.env) (st : Persistence.learner) :
  let after := Persistence.saveDatabase JSON_stringify e st in
  after.2 = true ->
  JSON_stringify (Persistence.db after.1) <> EmptyString ->
  JSON_parse (JSON_stringify (Persistence.db after.1)) = Some (Persistence.db after.1) ->
  Persistence.loadDatabase JSON_parse e' (Persistence.storage after.1)
  = Persistence.db after.1.
Proof.
  intros after. subst after. unfold Persistence.saveDatabase.
  destruct (Persistence.stamp (Persistence.now e) (Persistence.db st)) as [db'|]; [|done].
  destruct (Persistence.writable e); [|done].
  cbn [fst snd Persistence.db Persistence.storage]. intros _ Hne Hround.
  unfold Persistence.loadDatabase.
  destruct (String.eqb_spec (JSON_stringify db') EmptyString) as [Heq|_]; [done|].
  by rewrite Hround.
Qed.

Lemma save_then_load_witness :
  Persistence.loadDatabase Sample.parseStored Sample.noon
    (Persistence.storage
       (Persistence.saveDatabase Sample.printOpaque Sample.noon Sample.emptyStore).1)
  = Sample.stampedStore.
Proof.
  apply (save_then_load Sample.parseStored Sample.printOpaque Sample.noon Sample.noon
           Sample.emptyStore); [reflexivity | done | reflexivity].
Defined.

Module ThresholdFacts.
Import Engine.







End ThresholdFacts.



Module LearnKeyFacts.

(** A digit below 64 is a character of the alphabet, not the padding. *)
Lemma digit_alphabet n : n < 64 -> In (Base64.digit n) Base64.alphabet.
Proof. intros Hn. unfold Base64.digit. apply nth_In. exact Hn. Qed.

(** Six bytes encode to eight digits, without padding. *)
Lemma encode_six bytes :
  length bytes = 6 -> Forall (fun a => a < 256) bytes ->
  length (Base64.encode bytes) = 8
  /\ Forall (fun c => In c Base64.alphabet) (Base64.encode bytes).
Proof.
  intros Hlen Hb.
  do 6 (destruct bytes as [|? bytes]; [simpl in Hlen; lia|]).
  destruct bytes; [|simpl in Hlen; lia].
  repeat match goal with
         | H : Forall _ (_ :: _) |- _ => apply Forall_cons in H as [? H]
         end.
  split; [reflexivity|]. cbn [Base64.encode].
  repeat (apply List.Forall_cons;
          [apply digit_alphabet;
           first [apply Nat.Div0.div_lt_upper_bound; lia
                 | apply Nat.mod_upper_bound; lia
                 | idtac]|]);
    try apply List.Forall_nil.
  all: match goal with
       | |- ?a mod ?m * ?k + ?b / ?d < 64 =>
           pose proof (Nat.mod_upper_bound a m ltac:(lia));
           assert (b / d < k) by (apply Nat.Div0.div_lt_upper_bound; lia); lia
       end.
Qed.

Lemma bytes_below s :
  Forall (fun a => a < 256) (map nat_of_ascii (list_ascii_of_string s)).
Proof.
  apply List.Forall_forall. intros a Ha. apply in_map_iff in Ha as (c & <- & _).
  apply nat_ascii_bounded.
Qed.

(** The pieces for which [btoa] throws. *)
Lemma pieceCode_None piece :
  Learn.pieceCode piece = None
  <-> Learn.firstChar (Piece.color piece) = Learn.Wide
      \/ Learn.firstChar (Piece.pieceType piece) = Learn.Wide.
Proof.
  unfold Learn.pieceCode.
  destruct (Learn.firstChar (Piece.color piece)),
    (Learn.firstChar (Piece.pieceType piece)); split; intros H;
    first [done | by destruct H | by left | by right].
Qed.

Lemma wide_widePiece b : Learn.wide b = true <-> widePiece b.
Proof.
  unfold Learn.wide, widePiece. rewrite existsb_exists. split.
  - intros (row & Hrow & Hcell).
    apply list_elem_of_In, list_elem_of_lookup in Hrow as [r Hr].
    apply lookup_take_Some in Hr as [Hr Hlt].
    apply existsb_exists in Hcell as (c & Hc & Hcell). apply in_seq in Hc.
    destruct (cellAt row c) as [piece|] eqn:Hpiece; [|done].
    destruct (Learn.pieceCode piece) eqn:Hcode; [done|].
    exists r, c, row, piece. repeat (split; [done || lia|]).
    by apply pieceCode_None.
  - intros (r & c & row & piece & Hr & Hc & Hrow & Hpiece & Hwide).
    exists row. split.
    + apply list_elem_of_In, list_elem_of_lookup. exists r.
      by apply lookup_take_Some.
    + apply existsb_exists. exists c. split; [apply in_seq; lia|].
      rewrite Hpiece. apply pieceCode_None in Hwide. by rewrite Hwide.
Qed.

End LearnKeyFacts.

(** X22. The key of the list-keyed learner: [hashPosition] of [learn.js]
    throws on a board with fewer than eight rows, where the walk reads a
    cell of a missing row, and on a board with a piece in the 8x8 window
    whose colour or type starts with a character above U+00FF, which [btoa]
    refuses; on every other board it returns exactly eight base64 digits,
    never the padding: the text it encodes is at least seven characters
    long and the key is the encoding of the first six. *)
Theorem learn_hashPosition_key (b : board) :
  match Learn.hashPosition b with
  | None => length b < 8 \/ widePiece b
  | Some key =>
      8 <= length b
      /\ ~ widePiece b
      /\ String.length key = 8
      /\ Forall (fun c => In c Base64.alphabet) (list_ascii_of_string key)
  end.
Proof.
  unfold Learn.hashPosition.
  set (code := fun piece => default EmptyString (Learn.pieceCode piece)).
  destruct (scanRows code b (seq 0 8) EmptyString) as [str|] eqn:Hs.
  - destruct (Learn.wide b) eqn:Hw.
    { right. by apply LearnKeyFacts.wide_widePiece. }
    split; [|split].
    + destruct (Nat.lt_ge_cases (length b) 8) as [Hlt|]; [|done].
      assert (Hnone : scanRows code b (seq 0 8) EmptyString = None).
      { apply KeyMoreFacts.scanRows_None. exists 7. split; [apply in_seq|]; lia. }
      congruence.
    + intros Hwide. apply LearnKeyFacts.wide_widePiece in Hwide. congruence.
    + apply KeyMoreFacts.scanRows_chars in Hs as (t & Hstr & Hlen).
      simpl in Hstr, Hlen.
      unfold Base64.btoa.
      rewrite KeyMoreFacts.encode_take8 by (rewrite length_map, Hstr; lia).
      rewrite KeyFacts.length_string_of_list_ascii, list_ascii_of_string_of_list_ascii.
      apply LearnKeyFacts.encode_six.
      * rewrite length_take, length_map, Hstr. lia.
      * apply Forall_take, LearnKeyFacts.bytes_below.
  - left. apply KeyMoreFacts.scanRows_None in Hs as (r & Hin & Hle).
    apply in_seq in Hin. lia.
Qed.

(** A colour that starts with a character outside Latin-1 makes the call
    throw; one that starts with a Latin-1 letter above U+007F does not, and
    the letter is encoded as one byte. *)
Example learn_hashPosition_glyph :
  Learn.hashPosition Sample.glyphBoard = None
  /\ Learn.hashPosition Sample.accentBoard = Some "6XI3Lzgv"
  /\ Learn.hashPosition Sample.startBoard = Some "d3J3a3di".
Proof. by vm_compute. Qed.

Module LearnFacts.
Import Learn.

Lemma find_updateFirst hash f positions :
  (forall p, Position.hash (f p) = Position.hash p) ->
  List.find (fun p => String.eqb (Position.hash p) hash) (updateFirst hash f positions)
  = option_map f (List.find (fun p => String.eqb (Position.hash p) hash) positions).
Proof.
  intros Hf. induction positions as [|p ps IH]; simpl; [done|].
  destruct (String.eqb (Position.hash p) hash) eqn:Hp; simpl.
  - by rewrite Hf, Hp.
  - by rewrite Hp.
Qed.

Lemma In_updateFirst hash f positions p :
  In p (updateFirst hash f positions) ->
  In p positions \/ exists p0, In p0 positions /\ p = f p0.
Proof.
  induction positions as [|q ps IH]; simpl; [done|].
  destruct (String.eqb (Position.hash q) hash); simpl.
  - intros [<-|Hin]; [right; exists q; tauto | tauto].
  - intros [<-|Hin]; [tauto|]. destruct (IH Hin) as [|(p0 & ? & ?)]; [tauto|].
    right. exists p0. tauto.
Qed.

Lemma recordIn_hash move result pos :
  Position.hash (recordIn move result pos) = Position.hash pos.
Proof. unfold recordIn. by destruct (lookup move (Position.moves pos)). Qed.

(** The call returns exactly for a board with a key and a record. *)
Lemma recordMove_returns b move result positions :
  is_Some (recordMove b move result positions)
  <-> exists hash pos,
        hashPosition b = Some hash
        /\ List.find (fun p => String.eqb (Position.hash p) hash) positions = Some pos.
Proof.
  unfold recordMove. split.
  - intros [positions' H]. destruct (hashPosition b) as [hash|]; [|done].
    destruct (List.find _ positions) as [pos|] eqn:Hfind; [|done].
    by exists hash, pos.
  - intros (hash & pos & -> & ->). by eexists.
Qed.

(** The record after the call, seen from the board. *)
Lemma recordMove_find b move result positions positions' hash :
  hashPosition b = Some hash ->
  recordMove b move result positions = Some positions' ->
  exists pos,
    List.find (fun p => String.eqb (Position.hash p) hash) positions = Some pos
    /\ List.find (fun p => String.eqb (Position.hash p) hash) positions'
       = Some (recordIn move result pos).
Proof.
  intros Hhash. unfold recordMove. rewrite Hhash.
  destruct (List.find _ positions) as [pos|] eqn:Hfind; [|done].
  intros [= <-]. exists pos. split; [done|].
  rewrite find_updateFirst by apply recordIn_hash. by rewrite Hfind.
Qed.

Lemma countResult_balanced result stats :
  Engine.MoveStats.played stats
  = Engine.MoveStats.wins stats + Engine.MoveStats.losses stats
    + Engine.MoveStats.draws stats ->
  balanced (countResult result stats).
Proof.
  intros Hs. unfold balanced, countResult.
  destruct (String.eqb result "white"); [simpl; lia|].
  destruct (String.eqb result "black"); simpl; lia.
Qed.

Lemma countResult_played result stats :
  Engine.MoveStats.played (countResult result stats)
  = S (Engine.MoveStats.played stats).
Proof.
  unfold countResult. destruct (String.eqb result "white"); [done|].
  by destruct (String.eqb result "black").
Qed.

Lemma In_set {V : Type} k (v : V) o k' v' :
  In (k', v') (set k v o) -> (k' = k /\ v' = v) \/ In (k', v') o.
Proof.
  induction o as [|[k0 v0] o IH]; simpl.
  - intros [[= <- <-]|[]]. by left.
  - destruct (String.eqb k k0); simpl.
    + intros [[= <- <-]|Hin]; [by left | tauto].
    + intros [Heq|Hin]; [tauto|]. destruct (IH Hin); tauto.
Qed.

Lemma recordIn_balanced move result pos :
  (forall m stats, In (m, stats) (Position.moves pos) -> balanced stats) ->
  forall m stats, In (m, stats) (Position.moves (recordIn move result pos)) ->
    balanced stats.
Proof.
  intros Hpos m stats. unfold recordIn, lookup.
  destruct (get move (Position.moves pos)) as [stats0|] eqn:Hget.
  - simpl. intros Hin. apply In_set in Hin as [[-> ->]|Hin]; [|by eapply Hpos].
    apply countResult_balanced. apply get_In in Hget. by apply (Hpos move stats0).
  - destruct (existsb _ inherited); [by apply Hpos|].
    simpl. intros Hin. apply In_set in Hin as [[-> ->]|Hin]; [|by eapply Hpos].
    by apply countResult_balanced.
Qed.

Lemma recordMove_balanced b move result positions positions' :
  allBalanced positions ->
  recordMove b move result positions = Some positions' ->
  allBalanced positions'.
Proof.
  intros Hall. unfold recordMove.
  destruct (hashPosition b) as [hash|]; [|done].
  destruct (List.find _ positions) as [pos0|] eqn:Hfind; [|done].
  intros [= <-] pos m stats Hin Hm.
  apply In_updateFirst in Hin as [Hin|(p0 & Hin & ->)]; [by eapply Hall|].
  revert m stats Hm. apply recordIn_balanced. intros m stats. by apply Hall.
Qed.

End LearnFacts.

(** X23. A move that [recordMove] has recorded is counted and can be
    suggested.  The call returns exactly when the board has a key and the
    list a record with that key; then, for a move that is not named like a
    member of [Object.prototype], [played] of the move at the position is
    one more than before (1 for a first entry), and [suggestMove] for the
    same board returns a suggestion, not [null]. *)
Theorem recordMove_then_suggestMove
    (b : board) (move result color : string)
    (positions positions' : list Learn.Position.t) :
  ~ In move inherited ->
  Learn.recordMove b move result positions = Some positions' ->
  (exists hash pos,
     Learn.hashPosition b = Some hash
     /\ List.find (fun p => String.eqb (Learn.Position.hash p) hash) positions
        = Some pos)
  /\ playedAt b move positions' = S (playedAt b move positions)
  /\ exists s, Learn.suggestMove b color positions' = Some (Some s).
Proof.
  intros Hown Hrec.
  assert (Hret : is_Some (Learn.recordMove b move result positions)) by (by eexists).
  apply LearnFacts.recordMove_returns in Hret as (hash & pos0 & Hhash & Hfind0).
  split; [by exists hash, pos0|].
  destruct (LearnFacts.recordMove_find _ _ _ _ _ _ Hhash Hrec) as (pos1 & Hfind1 & Hfind).
  assert (pos1 = pos0) as -> by congruence.
  assert (Hin : Learn.recordIn move result pos0
                = Learn.Position.mk (Learn.Position.hash pos0)
                    (set move
                       (Learn.countResult result
                          (default (Engine.MoveStats.mk 0 0 0 0)
                             (get move (Learn.Position.moves pos0))))
                       (Learn.Position.moves pos0))).
  { unfold Learn.recordIn. rewrite lookup_own by done.
    by destruct (get move (Learn.Position.moves pos0)). }
  split.
  - unfold playedAt. rewrite Hhash, Hfind, Hfind0, Hin.
    cbn [Learn.Position.moves]. rewrite get_set_eq, LearnFacts.countResult_played.
    by destruct (get move (Learn.Position.moves pos0)).
  - unfold Learn.suggestMove. rewrite Hhash, Hfind, Hin.
    cbn [Learn.Position.moves].
    set (moves := set move _ (Learn.Position.moves pos0)).
    assert (Hne : moves <> []).
    { intros Hnil. assert (Hget : get move moves = None) by (by rewrite Hnil).
      unfold moves in Hget. by rewrite get_set_eq in Hget. }
    destruct moves as [|entry moves]; [done|].
    cbn [keys map length Nat.eqb].
    set (scored := map (Learn.scoreMove color) (entries (entry :: moves))).
    set (sorted := JsArray.sort _ scored).
    assert (Hperm : Permutation scored sorted) by apply SortFacts.permuted.
    clearbody sorted. destruct sorted as [|top rest].
    + apply Permutation_sym, Permutation_nil in Hperm. done.
    + exists top. reflexivity.
Qed.

Lemma recordMove_then_suggestMove_witness :
  (exists hash pos,
     Learn.hashPosition Sample.startBoard = Some hash
     /\ List.find (fun p => String.eqb (Learn.Position.hash p) hash) Sample.busyPositions
        = Some pos)
  /\ playedAt Sample.startBoard "e2e4"
       [Learn.Position.mk "d3J3a3di"
          [("a", Engine.MoveStats.mk 40 36 4 0); ("b", Engine.MoveStats.mk 20 17 3 0);
           ("e2e4", Engine.MoveStats.mk 1 1 0 0)]]
     = S (playedAt Sample.startBoard "e2e4" Sample.busyPositions)
  /\ exists s,
       Learn.suggestMove Sample.startBoard "white"
         [Learn.Position.mk "d3J3a3di"
            [("a", Engine.MoveStats.mk 40 36 4 0); ("b", Engine.MoveStats.mk 20 17 3 0);
             ("e2e4", Engine.MoveStats.mk 1 1 0 0)]]
       = Some (Some s).
Proof.
  apply (recordMove_then_suggestMove Sample.startBoard "e2e4" "white" "white"
           Sample.busyPositions).
  - unfold inherited. simpl. intuition discriminate.
  - by vm_compute.
Defined.

(** For a position it has not stored the call throws, the empty list
    included; a move named [constructor] is counted on the member every
    object inherits, the record keeps no entry for it, and [suggestMove]
    still has nothing to suggest. *)
Example recordMove_unseen_or_member :
  Learn.recordMove Sample.startBoard "e2e4" "white" [] = None
  /\ Learn.recordMove Sample.startBoard "constructor" "white"
       [Learn.Position.mk "d3J3a3di" []]
     = Some [Learn.Position.mk "d3J3a3di" []]
  /\ Learn.suggestMove Sample.startBoard "white" [Learn.Position.mk "d3J3a3di" []]
     = Some None.
Proof. by vm_compute. Qed.

(** X24. The move statistics [recordMove] keeps are balanced: in a list
    built by any run of calls from a list with that property, every entry
    has [played = wins + losses + draws] and [played >= 1], so the rates
    [suggestMove] computes never divide by zero. *)
Theorem recordMove_keeps_balance
    (calls : list (board * string * string))
    (positions positions' : list Learn.Position.t) :
  allBalanced positions ->
  recordMoves calls positions = Some positions' ->
  allBalanced positions'.
Proof.
  revert positions. induction calls as [|[[b move] result] calls IH];
    intros positions Hall; simpl.
  - by intros [= <-].
  - destruct (Learn.recordMove b move result positions) as [ps|] eqn:Hrec;
      [|done].
    apply IH. by eapply LearnFacts.recordMove_balanced.
Qed.

Lemma recordMove_keeps_balance_witness :
  allBalanced Sample.busyPositions
  /\ recordMoves
       [(Sample.startBoard, "e2e4", "white"); (Sample.startBoard, "b", "draw");
        (Sample.startBoard, "e2e4", "black")] Sample.busyPositions
     = Some [Learn.Position.mk "d3J3a3di"
               [("a", Engine.MoveStats.mk 40 36 4 0);
                ("b", Engine.MoveStats.mk 21 17 3 1);
                ("e2e4", Engine.MoveStats.mk 2 1 1 0)]]
  /\ allBalanced
       [Learn.Position.mk "d3J3a3di"
          [("a", Engine.MoveStats.mk 40 36 4 0);
           ("b", Engine.MoveStats.mk 21 17 3 1);
           ("e2e4", Engine.MoveStats.mk 2 1 1 0)]].
Proof.
  assert (Hstored : allBalanced Sample.busyPositions).
  { intros pos move stats [<-|[]] [[= <- <-]|[[= <- <-]|[]]];
      unfold balanced; simpl; lia. }
  split; [exact Hstored|]. split; [by vm_compute|].
  apply (recordMove_keeps_balance
           [(Sample.startBoard, "e2e4", "white"); (Sample.startBoard, "b", "draw");
            (Sample.startBoard, "e2e4", "black")] Sample.busyPositions).
  - exact Hstored.
  - by vm_compute.
Defined.

Module ShuffleFacts.
Import Distribution.

Lemma insert_swap_head {A : Type} (a y : A) arr j :
  arr !! j = Some y -> Permutation (a :: arr) (y :: <[j := a]> arr).
Proof.
  revert j. induction arr as [|b t IH]; intros [|j] Hj; simpl in *; try done.
  - injection Hj as ->. apply perm_swap.
  - transitivity (b :: a :: t); [apply perm_swap|].
    transitivity (b :: y :: <[j := a]> t); [|apply perm_swap].
    constructor. by apply IH.
Qed.

Lemma swap_Permutation {A : Type} i j (arr : list A) : Permutation arr (swap i j arr).
Proof.
  unfold swap.
  destruct (arr !! i) as [x|] eqn:Hi; [|done].
  destruct (arr !! j) as [y|] eqn:Hj; [|done].
  revert i j Hi Hj. induction arr as [|a t IH]; intros [|i] [|j] Hi Hj;
    simpl in *; try done.
  - by injection Hj as ->.
  - injection Hi as ->. by apply insert_swap_head.
  - injection Hj as ->. by apply insert_swap_head.
  - constructor. by apply IH.
Qed.

Lemma shuffleFrom_Permutation {A : Type} random i (arr : list A) n :
  Permutation arr (shuffleFrom random i arr n).1
  /\ (shuffleFrom random i arr n).2 = n + i.
Proof.
  revert arr n. induction i as [|i IH]; intros arr n; cbn [shuffleFrom].
  - split; [done | simpl; lia].
  - set (arr' := swap (S i) _ arr).
    destruct (IH arr' (S n)) as [Hp Hn].
    split; [|rewrite Hn; lia].
    etransitivity; [|exact Hp]. apply swap_Permutation.
Qed.


Lemma dice_inUnit : inUnit Sample.dice.
Proof.
  intros n. unfold Sample.dice, Qle, Qlt. simpl.
  pose proof (Nat.mod_upper_bound (n * 37 + 11) 101 ltac:(lia)). lia.
Qed.

End ShuffleFacts.



Module BoardFacts.
Import Distribution.

#[local] Arguments place : simpl never.
#[local] Arguments put : simpl never.

Lemma place_put sq piece (b : board) :
  sq.1 < length b -> place sq piece b = Some (put b (sq, piece)).
Proof.
  intros Hr. unfold place, put. simpl.
  by destruct (lookup_lt_is_Some_2 b sq.1 Hr) as [row ->].
Qed.

Lemma put_is8x8 (b : board) entry : is8x8 b -> is8x8 (put b entry).
Proof.
  intros [Hlen Hrows]. unfold put.
  destruct (b !! entry.1.1) as [row|] eqn:Hrow; [|done].
  split; [by rewrite length_insert|].
  apply Forall_insert; [exact Hrows|].
  rewrite length_insert.
  rewrite List.Forall_forall in Hrows. apply Hrows.
  apply list_elem_of_In. by eapply list_elem_of_lookup_2.
Qed.

Lemma put_length (b : board) entry : length (put b entry) = length b.
Proof.
  unfold put. destruct (b !! entry.1.1); [by rewrite length_insert | done].
Qed.

Lemma puts_length (b : board) entries : length (foldl put b entries) = length b.
Proof.
  revert b. induction entries as [|e entries IH]; intros b; simpl; [done|].
  by rewrite IH, put_length.
Qed.

Lemma puts_is8x8 (b : board) entries : is8x8 b -> is8x8 (foldl put b entries).
Proof.
  revert b. induction entries as [|e entries IH]; intros b Hb; simpl; [done|].
  apply IH. by apply put_is8x8.
Qed.

Lemma placeAll_eval color (b0 : board) l0 l1 l2 l3 l4 l5 l6 l7 d0 d1 d2 d3 d4 d5 d6 d7 n :
  color = "white" \/ color = "black" ->
  is8x8 b0 ->
  Forall (fun sq => sq.1 < 8)
    [l0; l1; l2; l3; l4; l5; l6; l7; d0; d1; d2; d3; d4; d5; d6; d7] ->
  foldl (placeRequirement color)
    (Some (mkSide b0 [l0; l1; l2; l3; l4; l5; l6; l7]
             [d0; d1; d2; d3; d4; d5; d6; d7] n))
    requirements
  = Some (mkSide
            (foldl put b0
               [(l0, pieceOf color "bishop"); (d0, pieceOf color "bishop");
                (l1, pieceOf color "rook"); (d1, pieceOf color "rook");
                (l2, pieceOf color "knight"); (d2, pieceOf color "knight");
                (l3, pieceOf color "queen"); (l4, pieceOf color "king");
                (l5, pieceOf color "pawn"); (l6, pieceOf color "pawn");
                (l7, pieceOf color "pawn"); (d3, pieceOf color "pawn");
                (d4, pieceOf color "pawn"); (d5, pieceOf color "pawn");
                (d6, pieceOf color "pawn"); (d7, pieceOf color "pawn")])
            [] [] (n + 16)).
Proof.
  intros Hcolor Hb Hrows.
  repeat match goal with
         | H : Forall _ (_ :: _) |- _ => apply Forall_cons in H as [? H]
         end.
  destruct Hb as [Hlen Hwide].
  destruct Hcolor as [-> | ->]; cbn;
    repeat (rewrite place_put by (rewrite ?puts_length, ?put_length, Hlen; assumption);
            cbn);
    by rewrite Nat.add_comm.
Qed.

Lemma cellAt_insert row c (x : option Piece.t) c' :
  c < length row ->
  cellAt (<[c := x]> row) c' = if decide (c = c') then x else cellAt row c'.
Proof.
  intros Hc. unfold cellAt. rewrite !nth_lookup.
  destruct (decide (c = c')) as [<-|Hne].
  - by rewrite list_lookup_insert_eq.
  - by rewrite list_lookup_insert_ne.
Qed.

Lemma cell_put (b : board) r c piece r' c' :
  is8x8 b -> r < 8 -> c < 8 ->
  Engine.cell (put b ((r, c), piece)) r' c'
  = if decide ((r, c) = (r', c')) then Some piece else Engine.cell b r' c'.
Proof.
  intros [Hlen Hrows] Hr Hc. unfold put, Engine.cell. simpl.
  destruct (lookup_lt_is_Some_2 b r ltac:(lia)) as [row Hrow]. rewrite Hrow.
  assert (Hwide : length row = 8).
  { rewrite List.Forall_forall in Hrows. apply Hrows.
    apply list_elem_of_In. by eapply list_elem_of_lookup_2. }
  destruct (decide (r = r')) as [<-|Hne].
  - rewrite list_lookup_insert_eq by lia.
    rewrite cellAt_insert by lia. rewrite Hrow.
    destruct (decide (c = c')) as [<-|Hnc].
    + by rewrite decide_True.
    + rewrite decide_False; [done | congruence].
  - rewrite list_lookup_insert_ne by done.
    rewrite decide_False; [done | congruence].
Qed.

(** The cells of a board after pieces were put on distinct squares. *)
Lemma cell_puts (b : board) entries r c piece :
  is8x8 b ->
  NoDup (map fst entries) ->
  Forall (fun e : (nat * nat) * Piece.t => e.1.1 < 8 /\ e.1.2 < 8) entries ->
  Engine.cell (foldl put b entries) r c = Some piece
  <-> In ((r, c), piece) entries
      \/ (~ In (r, c) (map fst entries) /\ Engine.cell b r c = Some piece).
Proof.
  revert b. induction entries as [|[[r0 c0] p0] entries IH]; intros b Hb Hnd Hin; simpl.
  - tauto.
  - apply NoDup_cons in Hnd as [Hfresh Hnd]. apply Forall_cons in Hin as [[Hr Hc] Hin].
    simpl in Hr, Hc, Hfresh.
    rewrite IH by (try apply put_is8x8; done).
    rewrite cell_put by done.
    rewrite list_elem_of_In in Hfresh.
    destruct (decide ((r0, c0) = (r, c))) as [[= -> ->]|Hne].
    + split.
      * intros [Hold|[Hnot [= ->]]]; [tauto | by left; left].
      * intros [[[= ->]|Hold]|[Hnot _]]; [|tauto|exfalso; apply Hnot; by left].
        right. split; [exact Hfresh | done].
    + split.
      * intros [Hold|[Hnot Hcell]]; [tauto|].
        right. split; [|done]. intros [Heq|Hold]; [done | tauto].
      * intros [[[= -> -> ->]|Hold]|[Hnot Hcell]]; [done | tauto |].
        right. split; [tauto | done].
Qed.

Lemma emptyBoard_is8x8 : is8x8 emptyBoard.
Proof. split; [reflexivity|]. unfold emptyBoard. repeat constructor. Qed.

Lemma emptyBoard_cell r c : Engine.cell emptyBoard r c = None.
Proof.
  unfold Engine.cell, emptyBoard, cellAt.
  do 8 (destruct r as [|r]; [simpl; by do 8 (destruct c as [|c]; [done|]);
                              destruct c|]).
  done.
Qed.

Ltac perm_find x r k :=
  lazymatch r with
  | x :: ?t => k uconstr:([]) t
  | ?y :: ?t => perm_find x t ltac:(fun b a => k uconstr:(y :: b) a)
  end.

Ltac perm_solve :=
  repeat lazymatch goal with
         | |- Permutation [] [] => constructor
         | |- Permutation (?x :: ?l) ?r =>
             perm_find x r ltac:(fun b a => apply (@Permutation_cons_app _ l b a));
             cbn [app]
         end.

(** The squares of two rows of the board, by colour, and any reordering of
    them. *)
Lemma shuffled_squares random rows shade n :
  rows = [0; 1] \/ rows = [6; 7] ->
  let shuffled :=
    (shuffleArray random
       (List.filter (fun sq => match shade with
                               | light => isLight sq
                               | dark => negb (isLight sq)
                               end) (squaresOf rows)) n) in
  length shuffled.1 = 8
  /\ NoDup shuffled.1
  /\ Forall (fun sq => squareOf rows shade sq = true) shuffled.1
  /\ shuffled.2 = n + 7.
Proof.
  intros Hrows shuffled. subst shuffled. unfold shuffleArray.
  set (squares0 := List.filter _ (squaresOf rows)).
  destruct (ShuffleFacts.shuffleFrom_Permutation random (length squares0 - 1) squares0 n)
    as [Hperm Hn].
  assert (H0 : length squares0 = 8 /\ NoDup squares0
               /\ forallb (squareOf rows shade) squares0 = true).
  { subst squares0. destruct Hrows as [-> | ->]; destruct shade;
      (split; [reflexivity|]; split; [|reflexivity]);
      apply (bool_decide_unpack _); by vm_compute. }
  destruct H0 as (Hlen & Hnd & Hall).
  split; [by rewrite <- Hperm|]. split; [by rewrite <- Hperm|].
  split; [|rewrite Hn, Hlen; done].
  rewrite forallb_forall in Hall. apply List.Forall_forall. intros sq Hsq.
  apply Hall. eapply Permutation_in; [symmetry; exact Hperm | exact Hsq].
Qed.

Lemma squareOf_range rows shade sq :
  squareOf rows shade sq = true ->
  In sq.1 rows /\ sq.1 < 8 /\ sq.2 < 8 /\ shadeOf sq = shade.
Proof.
  unfold squareOf, shadeOf. intros H.
  apply andb_prop in H as [H Hshade]. apply andb_prop in H as [H Hc].
  apply andb_prop in H as [Hrow Hr].
  apply Nat.ltb_lt in Hr, Hc. apply existsb_exists in Hrow as (r & Hin & Heq).
  apply Nat.eqb_eq in Heq. subst r.
  repeat split; try done.
  by destruct shade, (getSquareColor sq.1 sq.2).
Qed.

(** One side of the board as [generateSide] fills it. *)
Lemma generateSide_cells random color rows n :
  color = "white" \/ color = "black" ->
  rows = [0; 1] \/ rows = [6; 7] ->
  exists sideBoard lights darks,
    generateSide random color rows n = Some (sideBoard, n + 30)
    /\ is8x8 sideBoard
    /\ length lights = 8 /\ length darks = 8
    /\ NoDup (lights ++ darks)
    /\ Forall (fun sq => squareOf rows light sq = true) lights
    /\ Forall (fun sq => squareOf rows dark sq = true) darks
    /\ forall r c piece,
         Engine.cell sideBoard r c = Some piece
         <-> In ((r, c), piece) (assignment color lights darks).
Proof.
  intros Hcolor Hrows. unfold generateSide.
  destruct (shuffled_squares random rows light n Hrows) as (HlenL & HndL & HallL & HnL).
  set (shuffledLight := shuffleArray random (List.filter isLight (squaresOf rows)) n) in *.
  destruct (shuffled_squares random rows dark shuffledLight.2 Hrows)
    as (HlenD & HndD & HallD & HnD).
  set (shuffledDark := shuffleArray random _ shuffledLight.2) in *.
  destruct shuffledLight as [lights n1]. destruct shuffledDark as [darks n2].
  cbn [fst snd] in *. subst n1 n2.
  assert (Hnd : NoDup (lights ++ darks)).
  { apply NoDup_app. split; [exact HndL|]. split; [|exact HndD].
    intros sq Hl Hd. apply list_elem_of_In in Hl, Hd.
    rewrite List.Forall_forall in HallL, HallD.
    apply HallL, squareOf_range in Hl as (_ & _ & _ & Hl).
    apply HallD, squareOf_range in Hd as (_ & _ & _ & Hd). congruence. }
  assert (Hrange : Forall (fun sq : nat * nat => sq.1 < 8 /\ sq.2 < 8) (lights ++ darks)).
  { apply Forall_app. split; eapply Forall_impl; try eassumption;
      intros sq Hsq; apply squareOf_range in Hsq; tauto. }
  destruct lights as [|l0 [|l1 [|l2 [|l3 [|l4 [|l5 [|l6 [|l7 [|]]]]]]]]]; try done.
  destruct darks as [|d0 [|d1 [|d2 [|d3 [|d4 [|d5 [|d6 [|d7 [|]]]]]]]]]; try done.
  eexists _, [l0; l1; l2; l3; l4; l5; l6; l7], [d0; d1; d2; d3; d4; d5; d6; d7].
  rewrite placeAll_eval;
    [|exact Hcolor | apply emptyBoard_is8x8
     |eapply Forall_impl; [exact Hrange | by intros sq [Hr _]]].
  cbn [sideBoard drawn].
  split; [f_equal; f_equal; lia|].
  split; [apply puts_is8x8, emptyBoard_is8x8|].
  do 2 (split; [done|]). split; [exact Hnd|]. do 2 (split; [done|]).
  intros r c piece. rewrite cell_puts.
  - rewrite emptyBoard_cell. unfold assignment, lightOrder, darkOrder.
    cbn [map zip zip_with app].
    match goal with
    | |- In _ ?order \/ _ <-> In _ ?entries =>
        assert (Hperm : Permutation order entries) by perm_solve
    end.
    split.
    + intros [Hin|[_ ?]]; [|done]. eapply Permutation_in; [exact Hperm | exact Hin].
    + intros Hin. left. eapply Permutation_in; [symmetry; exact Hperm | exact Hin].
  - apply emptyBoard_is8x8.
  - cbn [map fst].
    assert (Hperm : Permutation
                      ([l0; l1; l2; l3; l4; l5; l6; l7]
                       ++ [d0; d1; d2; d3; d4; d5; d6; d7])
                      [l0; d0; l1; d1; l2; d2; l3; l4; l5; l6; l7; d3; d4; d5; d6; d7])
      by (cbn [app]; perm_solve).
    by rewrite <- Hperm.
  - cbn [app] in Hrange.
    repeat match goal with
           | H : Forall _ (_ :: _) |- _ => apply Forall_cons in H as [? H]
           end.
    repeat (apply List.Forall_cons; [assumption|]). apply List.Forall_nil.
Qed.

Lemma squaresOf_In rows r c : In (r, c) (squaresOf rows) <-> In r rows /\ c < 8.
Proof.
  unfold squaresOf. rewrite <- !list_elem_of_In, list_elem_of_bind. split.
  - intros (r' & Hin & Hr). apply list_elem_of_bind in Hin as (c' & Hin & Hc).
    apply list_elem_of_singleton in Hin as [= -> ->].
    apply elem_of_seq in Hc. split; [done | lia].
  - intros [Hr Hc]. exists r. split; [|done].
    apply list_elem_of_bind. exists c. split; [|apply elem_of_seq; lia].
    by apply list_elem_of_singleton.
Qed.

(** The copy loop writes the pieces of the listed squares and nothing
    else. *)
Lemma copy_cells (source : board) sqs (b : board) :
  is8x8 b ->
  Forall (fun sq : nat * nat => sq.1 < 8 /\ sq.2 < 8) sqs ->
  exists b',
    foldl (fun acc sq =>
             match acc with
             | Some b =>
                 match Engine.cell source sq.1 sq.2 with
                 | Some piece => place sq piece b
                 | None => Some b
                 end
             | None => None
             end) (Some b) sqs = Some b'
    /\ is8x8 b'
    /\ forall r c,
         Engine.cell b' r c
         = if decide ((r, c) ∈ sqs)
           then match Engine.cell source r c with
                | Some piece => Some piece
                | None => Engine.cell b r c
                end
           else Engine.cell b r c.
Proof.
  intros Hb Hsqs. revert b Hb.
  induction Hsqs as [|[r0 c0] sqs [Hr Hc] _ IH]; intros b Hb; cbn [foldl].
  - exists b. split; [done|]. split; [done|]. intros r c.
    destruct (decide ((r, c) ∈ [])) as [Hin|]; [by apply elem_of_nil in Hin | done].
  - simpl in Hr, Hc. cbn [fst snd].
    assert (Hstep : exists b1,
              match Engine.cell source r0 c0 with
              | Some piece => place (r0, c0) piece b
              | None => Some b
              end = Some b1
              /\ is8x8 b1
              /\ forall r c,
                   Engine.cell b1 r c
                   = if decide ((r0, c0) = (r, c))
                     then match Engine.cell source r0 c0 with
                          | Some piece => Some piece
                          | None => Engine.cell b r c
                          end
                     else Engine.cell b r c).
    { destruct (Engine.cell source r0 c0) as [piece|].
      - exists (put b ((r0, c0), piece)).
        split; [apply place_put; simpl; destruct Hb as [-> _]; lia|].
        split; [by apply put_is8x8|]. intros r c. by apply cell_put.
      - exists b. split; [done|]. split; [done|]. intros r c.
        by destruct (decide ((r0, c0) = (r, c))). }
    destruct Hstep as (b1 & -> & Hb1 & Hcell1).
    destruct (IH b1 Hb1) as (b' & -> & Hb' & Hcell').
    exists b'. split; [done|]. split; [done|]. intros r c.
    rewrite Hcell', Hcell1.
    destruct (decide ((r0, c0) = (r, c))) as [[= -> ->]|Hne].
    + rewrite (decide_True (P := (r, c) ∈ (r, c) :: sqs)) by (by left).
      destruct (decide ((r, c) ∈ sqs)); by destruct (Engine.cell source r c).
    + destruct (decide ((r, c) ∈ sqs)) as [Hin|Hnot].
      * rewrite (decide_True (P := (r, c) ∈ (r0, c0) :: sqs)) by (by right). done.
      * rewrite (decide_False (P := (r, c) ∈ (r0, c0) :: sqs)); [done|].
        intros Hin. apply elem_of_cons in Hin as [Heq|Hin]; [done | tauto].
Qed.

Lemma assignment_In color lights darks sq piece :
  In (sq, piece) (assignment color lights darks) ->
  In sq (lights ++ darks) /\ Piece.color piece = color.
Proof.
  unfold assignment. intros Hin. apply in_app_iff in Hin as [Hin|Hin];
    apply list_elem_of_In in Hin;
    pose proof (elem_of_zip_l _ _ _ _ Hin) as Hl;
    apply elem_of_zip_r, list_elem_of_In, in_map_iff in Hin as (t & <- & _);
    apply list_elem_of_In in Hl; (split; [apply in_app_iff; tauto | done]).
Qed.

(** The board [generateBoard] returns, cell by cell. *)
Lemma generateBoard_cells random n :
  exists b lightsW darksW lightsB darksB,
    generateBoard random n = Some (b, n + 60)
    /\ is8x8 b
    /\ length lightsW = 8 /\ length darksW = 8
    /\ length lightsB = 8 /\ length darksB = 8
    /\ NoDup ((lightsW ++ darksW) ++ (lightsB ++ darksB))
    /\ Forall (fun sq => squareOf [0; 1] light sq = true) lightsW
    /\ Forall (fun sq => squareOf [0; 1] dark sq = true) darksW
    /\ Forall (fun sq => squareOf [6; 7] light sq = true) lightsB
    /\ Forall (fun sq => squareOf [6; 7] dark sq = true) darksB
    /\ forall r c piece,
         Engine.cell b r c = Some piece
         <-> In ((r, c), piece)
               (assignment "white" lightsW darksW ++ assignment "black" lightsB darksB).
Proof.
  unfold generateBoard.
  destruct (generateSide_cells random "white" [0; 1] n)
    as (whiteBoard & lightsW & darksW & -> & HbW & HlW & HdW & HndW & HallLW & HallDW & HcellW);
    [tauto | tauto |].
  assert (Hrange : forall rows, rows = [0; 1] \/ rows = [6; 7] ->
            Forall (fun sq : nat * nat => sq.1 < 8 /\ sq.2 < 8) (squaresOf rows)).
  { intros rows [-> | ->]; apply List.Forall_forall; intros [r c] Hin;
      apply squaresOf_In in Hin as [Hr Hc]; simpl in *; lia. }
  unfold copyRows.
  destruct (copy_cells whiteBoard (squaresOf [0; 1]) emptyBoard emptyBoard_is8x8)
    as (b1 & -> & Hb1 & Hcell1); [apply Hrange; tauto|].
  destruct (generateSide_cells random "black" [6; 7] (n + 30))
    as (blackBoard & lightsB & darksB & -> & HbB & HlB & HdB & HndB & HallLB & HallDB & HcellB);
    [tauto | tauto |].
  destruct (copy_cells blackBoard (squaresOf [6; 7]) b1 Hb1)
    as (b2 & -> & Hb2 & Hcell2); [apply Hrange; tauto|].
  exists b2, lightsW, darksW, lightsB, darksB.
  split; [f_equal; f_equal; lia|]. split; [done|]. do 4 (split; [done|]).
  assert (HrowsW : forall sq, In sq (lightsW ++ darksW) -> In sq (squaresOf [0; 1])).
  { intros [r c] Hin. apply squaresOf_In.
    rewrite List.Forall_forall in HallLW, HallDW.
    apply in_app_iff in Hin as [Hin|Hin];
      [apply HallLW in Hin | apply HallDW in Hin];
      apply squareOf_range in Hin; cbn [fst snd] in Hin; tauto. }
  assert (HrowsB : forall sq, In sq (lightsB ++ darksB) -> In sq (squaresOf [6; 7])).
  { intros [r c] Hin. apply squaresOf_In.
    rewrite List.Forall_forall in HallLB, HallDB.
    apply in_app_iff in Hin as [Hin|Hin];
      [apply HallLB in Hin | apply HallDB in Hin];
      apply squareOf_range in Hin; cbn [fst snd] in Hin; tauto. }
  assert (Hdisjoint : forall sq, In sq (squaresOf [0; 1]) -> In sq (squaresOf [6; 7]) -> False).
  { intros [r c] H01 H67. apply squaresOf_In in H01 as [H01 _], H67 as [H67 _].
    simpl in H01, H67. lia. }
  split.
  { apply NoDup_app. split; [exact HndW|]. split; [|exact HndB].
    intros sq HW HB. apply list_elem_of_In in HW, HB.
    apply (Hdisjoint sq); [by apply HrowsW | by apply HrowsB]. }
  do 4 (split; [done|]).
  intros r c piece. rewrite Hcell2, Hcell1, emptyBoard_cell, in_app_iff.
  rewrite <- HcellW, <- HcellB.
  destruct (decide ((r, c) ∈ squaresOf [6; 7])) as [H67|H67];
    destruct (decide ((r, c) ∈ squaresOf [0; 1])) as [H01|H01];
    rewrite list_elem_of_In in H67, H01.
  - exfalso. by apply (Hdisjoint (r, c)).
  - destruct (Engine.cell blackBoard r c) as [pieceB|] eqn:HB.
    + split; [tauto|]. intros [HW|?]; [|done]. exfalso.
      apply HcellW, assignment_In in HW as [HW _]. apply H01. by apply HrowsW.
    + split; [done|]. intros [HW|?]; [|done]. exfalso.
      apply HcellW, assignment_In in HW as [HW _]. apply H01. by apply HrowsW.
  - destruct (Engine.cell whiteBoard r c) as [pieceW|] eqn:HW.
    + split; [tauto|]. intros [?|HB]; [done|]. exfalso.
      apply HcellB, assignment_In in HB as [HB _]. apply H67. by apply HrowsB.
    + split; [done|]. intros [?|HB]; [done|]. exfalso.
      apply HcellB, assignment_In in HB as [HB _]. apply H67. by apply HrowsB.
  - split; [done|]. intros [HW|HB]; exfalso.
    + apply HcellW, assignment_In in HW as [HW _]. apply H01. by apply HrowsW.
    + apply HcellB, assignment_In in HB as [HB _]. apply H67. by apply HrowsB.
Qed.

End BoardFacts.

Module VerifyFacts.
Import Distribution.

Lemma note_uncounted pieceType shade t :
  counted pieceType = false -> note pieceType shade t = t.
Proof.
  unfold counted, note. intros H.
  repeat (apply orb_false_elim in H as [H ?]).
  by repeat match goal with
            | Heq : String.eqb _ _ = false |- _ => rewrite Heq; clear Heq
            end.
Qed.

(** The scan keeps one entry per colour; each sees the pieces of its
    colour. *)
Lemma scan_fold (b : board) sqs res :
  8 <= length b ->
  twoColours b ->
  Forall (fun sq : nat * nat => sq.1 < 8 /\ sq.2 < 8) sqs ->
  foldl (scanSquare b) (Some res) sqs
  = Some (Result.mk (foldl (noteSquare b "white") (Result.white res) sqs)
            (foldl (noteSquare b "black") (Result.black res) sqs)).
Proof.
  intros Hlen Hcol Hsqs. revert res.
  induction Hsqs as [|[r c] sqs [Hr Hc] _ IH]; intros res; cbn [foldl].
  - by destruct res.
  - simpl in Hr, Hc.
    assert (Hstep : scanSquare b (Some res) (r, c)
                    = Some (Result.mk (noteSquare b "white" (Result.white res) (r, c))
                              (noteSquare b "black" (Result.black res) (r, c)))).
    { unfold scanSquare, noteSquare. cbn [fst snd].
      pose proof (Hcol r c) as Hcol'. unfold Engine.cell in *.
      destruct (lookup_lt_is_Some_2 b r ltac:(lia)) as [row Hrow]. rewrite Hrow in *.
      destruct (cellAt row c) as [piece|]; [|by destruct res].
      unfold tallyPiece.
      destruct (counted (Piece.pieceType piece)) eqn:Hcounted.
      - destruct (Hcol' piece Hr Hc eq_refl Hcounted) as [-> | ->]; by simpl.
      - rewrite !(note_uncounted _ _ _ Hcounted).
        destruct res. simpl.
        by destruct (String.eqb (Piece.color piece) "white"),
             (String.eqb (Piece.color piece) "black"). }
    rewrite Hstep. by rewrite IH.
Qed.

Lemma hits_cons (b : board) type color sq sqs :
  hits b type color (sq :: sqs)
  = if Engine.isPiece type color (Engine.cell b sq.1 sq.2)
    then sq :: hits b type color sqs
    else hits b type color sqs.
Proof. reflexivity. Qed.

(** What the entry of a colour holds after the scan of a list of squares. *)
Lemma noteSquare_fold (b : board) color sqs t :
  let t' := foldl (noteSquare b color) t sqs in
  Tally.rooks t' = Tally.rooks t ++ map shadeOf (hits b "rook" color sqs)
  /\ Tally.knights t' = Tally.knights t ++ map shadeOf (hits b "knight" color sqs)
  /\ Tally.king t'
     = match last (hits b "king" color sqs) with
       | Some sq => Some (shadeOf sq)
       | None => Tally.king t
       end
  /\ Tally.queen t'
     = match last (hits b "queen" color sqs) with
       | Some sq => Some (shadeOf sq)
       | None => Tally.queen t
       end
  /\ Tally.bishopsLight t'
     = Tally.bishopsLight t || existsb isLight (hits b "bishop" color sqs)
  /\ Tally.bishopsDark t'
     = Tally.bishopsDark t
       || existsb (fun sq => negb (isLight sq)) (hits b "bishop" color sqs).
Proof.
  revert t. induction sqs as [|sq sqs IH]; intros t; cbn [foldl].
  - simpl. rewrite !app_nil_r, !orb_false_r. done.
  - cbn zeta in IH. destruct (IH (noteSquare b color t sq))
      as (-> & -> & -> & -> & -> & ->).
    rewrite !hits_cons. unfold noteSquare, Engine.isPiece.
    destruct (Engine.cell b sq.1 sq.2) as [[type pieceType pieceColor]|];
      [|done].
    cbn [Piece.pieceType Piece.color].
    destruct (String.eqb pieceColor color); [|by rewrite !andb_false_r].
    rewrite !andb_true_r. unfold note.
    destruct (String.eqb_spec pieceType "bishop") as [->|_].
    { simpl. unfold isLight, shadeOf.
      destruct (getSquareColor sq.1 sq.2); simpl; repeat split; try done;
        destruct (Tally.bishopsLight t), (Tally.bishopsDark t); done. }
    destruct (String.eqb_spec pieceType "rook") as [->|_].
    { simpl. rewrite <- app_assoc. done. }
    destruct (String.eqb_spec pieceType "knight") as [->|_].
    { simpl. rewrite <- app_assoc. done. }
    destruct (String.eqb_spec pieceType "king") as [->|_].
    { simpl. repeat split; try done.
      destruct (hits b "king" color sqs) as [|sq' l]; [reflexivity|].
      rewrite last_cons_cons.
      destruct (last (sq' :: l)) eqn:Hlast; [done | by apply last_None in Hlast]. }
    destruct (String.eqb_spec pieceType "queen") as [->|_].
    { simpl. repeat split; try done.
      destruct (hits b "queen" color sqs) as [|sq' l]; [reflexivity|].
      rewrite last_cons_cons.
      destruct (last (sq' :: l)) eqn:Hlast; [done | by apply last_None in Hlast]. }
    done.
Qed.

End VerifyFacts.

Module CensusFacts.
Import Distribution.

Lemma NoDup_map_filter {A B : Type} (f : A -> B) (p : A -> bool) l :
  NoDup (map f l) -> NoDup (map f (List.filter p l)).
Proof.
  induction l as [|x l IH]; simpl; [done|].
  intros Hnd. apply NoDup_cons in Hnd as [Hfresh Hnd].
  destruct (p x); simpl; [|by apply IH].
  apply NoDup_cons. split; [|by apply IH].
  intros Hin. apply Hfresh. apply list_elem_of_In in Hin. apply list_elem_of_In.
  apply in_map_iff in Hin as (y & Hy & Hin). apply filter_In in Hin as [Hin _].
  apply in_map_iff. by exists y.
Qed.

(** The squares the scan finds for a type and colour are those of the
    pieces on the board. *)
Lemma hits_entries (b : board) (entries : list ((nat * nat) * Piece.t)) type color :
  (forall r c piece, Engine.cell b r c = Some piece <-> In ((r, c), piece) entries) ->
  NoDup (map fst entries) ->
  Forall (fun sq : nat * nat => sq.1 < 8 /\ sq.2 < 8) (map fst entries) ->
  Permutation (hits b type color Engine.squares)
    (map fst (List.filter (fun e => Engine.isPiece type color (Some e.2)) entries)).
Proof.
  intros Hcell Hnd Hrange. apply NoDup_Permutation.
  - unfold hits. apply NoDup_ListNoDup, List.NoDup_filter, NoDup_ListNoDup.
    apply PatternFacts.squares_NoDup.
  - by apply NoDup_map_filter.
  - intros [r c]. rewrite !list_elem_of_In. unfold hits.
    rewrite filter_In, in_map_iff. cbn [fst snd]. split.
    + intros [_ Hp].
      destruct (Engine.cell b r c) as [piece|] eqn:Hc; [|done].
      exists ((r, c), piece). split; [done|]. apply filter_In.
      split; [by apply Hcell | done].
    + intros ([[r' c'] piece] & [= -> ->] & Hin).
      apply filter_In in Hin as [Hin Hp]. cbn [snd] in Hp.
      rewrite List.Forall_forall in Hrange.
      split.
      * apply PatternFacts.squares_In.
        apply (Hrange (r, c)). apply in_map_iff. by exists ((r, c), piece).
      * apply Hcell in Hin. by rewrite Hin.
Qed.

Lemma twoDiffer_shades l (a b : nat * nat) :
  Permutation l [a; b] -> shadeOf a = light -> shadeOf b = dark ->
  twoDiffer (map shadeOf l) = true.
Proof.
  intros Hperm Ha Hb. symmetry in Hperm.
  apply Permutation_length_2_inv in Hperm as [-> | ->]; simpl; by rewrite Ha, Hb.
Qed.

(** The verdict on a side whose bishops, rooks and knights stand on [l0],
    [d0], [l1], [d1], [l2], [d2] and whose queen and king stand on [l3] and
    [l4]. *)
Lemma validate_hits (b : board) color l0 l1 l2 l3 l4 d0 d1 d2 :
  Forall (fun sq => shadeOf sq = light) [l0; l1; l2; l3; l4] ->
  Forall (fun sq => shadeOf sq = dark) [d0; d1; d2] ->
  Permutation (hits b "bishop" color Engine.squares) [l0; d0] ->
  Permutation (hits b "rook" color Engine.squares) [l1; d1] ->
  Permutation (hits b "knight" color Engine.squares) [l2; d2] ->
  Permutation (hits b "queen" color Engine.squares) [l3] ->
  Permutation (hits b "king" color Engine.squares) [l4] ->
  let t := foldl (noteSquare b color) emptyTally Engine.squares in
  validate t = Validity.mk true true true false
  /\ Tally.king t = Some light /\ Tally.queen t = Some light.
Proof.
  intros Hl Hd Hb Hr Hn Hq Hk t.
  repeat match goal with
         | H : Forall _ (_ :: _) |- _ => apply Forall_cons in H as [? H]
         end.
  destruct (VerifyFacts.noteSquare_fold b color Engine.squares emptyTally)
    as (Hrooks & Hknights & Hking & Hqueen & Hlight & Hdark).
  fold t in Hrooks, Hknights, Hking, Hqueen, Hlight, Hdark.
  symmetry in Hq, Hk.
  apply Permutation_length_1_inv in Hq, Hk.
  rewrite Hq in Hqueen. rewrite Hk in Hking. simpl in Hqueen, Hking.
  assert (HbL : existsb isLight (hits b "bishop" color Engine.squares) = true).
  { apply existsb_exists. exists l0. split.
    - eapply Permutation_in; [symmetry; exact Hb | by left].
    - unfold isLight. unfold shadeOf in *. by destruct (getSquareColor l0.1 l0.2). }
  assert (HbD : existsb (fun sq => negb (isLight sq))
                  (hits b "bishop" color Engine.squares) = true).
  { apply existsb_exists. exists d0. split.
    - eapply Permutation_in; [symmetry; exact Hb | right; by left].
    - unfold isLight. unfold shadeOf in *. by destruct (getSquareColor d0.1 d0.2). }
  unfold validate. rewrite Hrooks, Hknights, Hking, Hqueen, Hlight, Hdark, HbL, HbD.
  cbn [emptyTally Tally.rooks Tally.knights Tally.bishopsLight Tally.bishopsDark app orb andb].
  rewrite (twoDiffer_shades _ l1 d1), (twoDiffer_shades _ l2 d2) by done.
  replace (shadeOf l3) with light by done. replace (shadeOf l4) with light by done.
  done.
Qed.

End CensusFacts.

Module GeneratedFacts.
Import Distribution.

(** The pieces of one side, by type. *)
Lemma side_select color lights darks :
  color = "white" \/ color = "black" ->
  length lights = 8 -> length darks = 8 ->
  Forall (fun sq => shadeOf sq = light) lights ->
  Forall (fun sq => shadeOf sq = dark) darks ->
  let select type :=
    map fst (List.filter (fun e => Engine.isPiece type color (Some e.2))
               (assignment color lights darks)) in
  length (select "pawn") = 8
  /\ exists l0 l1 l2 l3 l4 d0 d1 d2,
       Forall (fun sq => shadeOf sq = light) [l0; l1; l2; l3; l4]
       /\ Forall (fun sq => shadeOf sq = dark) [d0; d1; d2]
       /\ select "bishop" = [l0; d0] /\ select "rook" = [l1; d1]
       /\ select "knight" = [l2; d2]
       /\ select "queen" = [l3] /\ select "king" = [l4].
Proof.
  intros Hcolor HlenL HlenD HL HD.
  destruct lights as [|l0 [|l1 [|l2 [|l3 [|l4 [|l5 [|l6 [|l7 [|]]]]]]]]]; try done.
  destruct darks as [|d0 [|d1 [|d2 [|d3 [|d4 [|d5 [|d6 [|d7 [|]]]]]]]]]; try done.
  repeat match goal with
         | H : Forall _ (_ :: _) |- _ => apply Forall_cons in H as [? H]
         end.
  intros select. subst select. cbv beta.
  destruct Hcolor as [-> | ->]; (split; [reflexivity|]);
    exists l0, l1, l2, l3, l4, d0, d1, d2;
    (split; [repeat (apply List.Forall_cons; [assumption|]); apply List.Forall_nil|]);
    (split; [repeat (apply List.Forall_cons; [assumption|]); apply List.Forall_nil|]);
    repeat split; reflexivity.
Qed.

(** A side holds no piece of the other colour. *)
Lemma other_select color color' type lights darks :
  String.eqb color color' = false ->
  List.filter (fun e : (nat * nat) * Piece.t => Engine.isPiece type color' (Some e.2))
    (assignment color lights darks) = [].
Proof.
  intros Hne.
  assert (Hall : forall e, In e (assignment color lights darks) ->
            Engine.isPiece type color' (Some e.2) = false).
  { intros [sq piece] Hin. apply BoardFacts.assignment_In in Hin as [_ Hc].
    unfold Engine.isPiece. cbn [snd]. by rewrite Hc, Hne, andb_false_r. }
  revert Hall. generalize (assignment color lights darks).
  intros l. induction l as [|e l IH]; intros Hall; cbn [List.filter]; [done|].
  rewrite (Hall e) by (by left). apply IH. intros e' He'. apply Hall. by right.
Qed.

Lemma assignment_length color lights darks :
  length lights = 8 -> length darks = 8 ->
  length (assignment color lights darks) = 16
  /\ map fst (assignment color lights darks) = lights ++ darks.
Proof.
  intros HlenL HlenD.
  destruct lights as [|l0 [|l1 [|l2 [|l3 [|l4 [|l5 [|l6 [|l7 [|]]]]]]]]]; try done.
  by destruct darks as [|d0 [|d1 [|d2 [|d3 [|d4 [|d5 [|d6 [|d7 [|]]]]]]]]].
Qed.

Lemma shades rows shade l :
  Forall (fun sq => squareOf rows shade sq = true) l ->
  Forall (fun sq => shadeOf sq = shade) l.
Proof.
  intros Hall. eapply Forall_impl; [exact Hall|].
  intros sq Hsq. simpl in *.
  by apply BoardFacts.squareOf_range in Hsq as (_ & _ & _ & Hs).
Qed.

(** The pieces of a generated board: who stands where. *)
Lemma generated_board_entries random n :
  exists (b : board) (entries : list ((nat * nat) * Piece.t)),
    generateBoard random n = Some (b, n + 60)
    /\ is8x8 b
    /\ (forall r c piece, Engine.cell b r c = Some piece <-> In ((r, c), piece) entries)
    /\ NoDup (map fst entries)
    /\ length entries = 32
    /\ Forall (fun e : (nat * nat) * Piece.t =>
                 e.1.2 < 8
                 /\ ((e.1.1 < 2 /\ Piece.color e.2 = "white")
                     \/ (6 <= e.1.1 < 8 /\ Piece.color e.2 = "black"))) entries
    /\ forall color, color = "white" \/ color = "black" ->
         let select type :=
           map fst (List.filter (fun e => Engine.isPiece type color (Some e.2)) entries) in
         length (select "pawn") = 8
         /\ exists l0 l1 l2 l3 l4 d0 d1 d2,
              Forall (fun sq => shadeOf sq = light) [l0; l1; l2; l3; l4]
              /\ Forall (fun sq => shadeOf sq = dark) [d0; d1; d2]
              /\ select "bishop" = [l0; d0] /\ select "rook" = [l1; d1]
              /\ select "knight" = [l2; d2]
              /\ select "queen" = [l3] /\ select "king" = [l4].
Proof.
  destruct (BoardFacts.generateBoard_cells random n)
    as (b & lightsW & darksW & lightsB & darksB & Hgen & Hb & HlW & HdW & HlB & HdB
        & Hnd & HallLW & HallDW & HallLB & HallDB & Hcell).
  exists b, (assignment "white" lightsW darksW ++ assignment "black" lightsB darksB).
  split; [exact Hgen|]. split; [exact Hb|]. split; [exact Hcell|].
  destruct (assignment_length "white" lightsW darksW HlW HdW) as [HlenW HfstW].
  destruct (assignment_length "black" lightsB darksB HlB HdB) as [HlenB HfstB].
  split; [by rewrite map_app, HfstW, HfstB|].
  split; [by rewrite length_app, HlenW, HlenB|].
  split.
  - apply Forall_app. split; apply List.Forall_forall; intros [[r c] piece] Hin;
      cbn [fst snd]; apply BoardFacts.assignment_In in Hin as [Hin ->];
      apply in_app_iff in Hin.
    + rewrite List.Forall_forall in HallLW, HallDW.
      destruct Hin as [Hin|Hin]; [apply HallLW in Hin | apply HallDW in Hin];
        apply BoardFacts.squareOf_range in Hin as (Hrow & _ & Hc & _);
        simpl in Hrow, Hc; (split; [done|]); left; (split; [lia | done]).
    + rewrite List.Forall_forall in HallLB, HallDB.
      destruct Hin as [Hin|Hin]; [apply HallLB in Hin | apply HallDB in Hin];
        apply BoardFacts.squareOf_range in Hin as (Hrow & _ & Hc & _);
        simpl in Hrow, Hc; (split; [done|]); right; (split; [lia | done]).
  - intros color Hcolor select. subst select. cbv beta.
    rewrite !List.filter_app, !map_app.
    destruct Hcolor as [-> | ->].
    + rewrite !(other_select "black" "white") by done. rewrite !app_nil_r.
      apply (side_select "white" lightsW darksW); try done; try tauto;
        by eapply shades.
    + rewrite !(other_select "white" "black") by done. cbn [map app].
      apply (side_select "black" lightsB darksB); try done; try tauto;
        by eapply shades.
Qed.

End GeneratedFacts.

(** X26. What [verifyBoard] says about the boards [generateBoard] makes.
    [generateBoard] always returns a board, after 60 calls of
    [Math.random()], and [verifyBoard] always finds, for both colours, the
    bishops, the rooks and the knights on squares of opposite colours, and
    the king and the queen both on light squares: the [kingQueen] flag,
    which asks for different colours, is false for every generated board. *)
Theorem generated_board_fails_king_queen_rule (random : nat -> Q) (n : nat) :
  inUnit random ->
  exists b v,
    Distribution.generateBoard random n = Some (b, n + 60)
    /\ Distribution.verifyBoard b = Some v
    /\ Distribution.Verification.validWhite v
       = Distribution.Validity.mk true true true false
    /\ Distribution.Verification.validBlack v
       = Distribution.Validity.mk true true true false
    /\ Forall (fun t => Distribution.Tally.king t = Some Distribution.light
                        /\ Distribution.Tally.queen t = Some Distribution.light)
         [Distribution.Result.white (Distribution.Verification.result v);
          Distribution.Result.black (Distribution.Verification.result v)].
Proof.
  intros _.
  destruct (GeneratedFacts.generated_board_entries random n)
    as (b & entries & Hgen & Hb & Hcell & Hnd & _ & Hrows & Hselect).
  assert (Hrange : Forall (fun sq : nat * nat => sq.1 < 8 /\ sq.2 < 8) (map fst entries)).
  { apply List.Forall_forall. intros sq Hin.
    apply in_map_iff in Hin as (e & <- & Hin).
    rewrite List.Forall_forall in Hrows. apply Hrows in Hin. lia. }
  assert (Hside : forall color, color = "white" \/ color = "black" ->
            let t := foldl (noteSquare b color) Distribution.emptyTally Engine.squares in
            Distribution.validate t = Distribution.Validity.mk true true true false
            /\ Distribution.Tally.king t = Some Distribution.light
            /\ Distribution.Tally.queen t = Some Distribution.light).
  { intros color Hcolor.
    destruct (Hselect color Hcolor)
      as (_ & l0 & l1 & l2 & l3 & l4 & d0 & d1 & d2 & Hl & Hd & Hbi & Hro & Hkn & Hqu & Hki).
    apply (CensusFacts.validate_hits b color l0 l1 l2 l3 l4 d0 d1 d2 Hl Hd).
    - rewrite <- Hbi. by apply CensusFacts.hits_entries.
    - rewrite <- Hro. by apply CensusFacts.hits_entries.
    - rewrite <- Hkn. by apply CensusFacts.hits_entries.
    - rewrite <- Hqu. by apply CensusFacts.hits_entries.
    - rewrite <- Hki. by apply CensusFacts.hits_entries. }
  assert (Hscan : foldl (Distribution.scanSquare b)
                    (Some (Distribution.Result.mk Distribution.emptyTally
                             Distribution.emptyTally)) Engine.squares
                  = Some (Distribution.Result.mk
                            (foldl (noteSquare b "white") Distribution.emptyTally
                               Engine.squares)
                            (foldl (noteSquare b "black") Distribution.emptyTally
                               Engine.squares))).
  { apply VerifyFacts.scan_fold.
    - destruct Hb as [-> _]. done.
    - intros r c piece _ _ Hc _. apply Hcell in Hc.
      rewrite List.Forall_forall in Hrows. apply Hrows in Hc. simpl in Hc. tauto.
    - apply List.Forall_forall. intros [r c] Hin.
      by apply PatternFacts.squares_In in Hin. }
  destruct (Hside "white") as (HvW & HkW & HqW); [tauto|].
  destruct (Hside "black") as (HvB & HkB & HqB); [tauto|].
  exists b. eexists. split; [exact Hgen|].
  unfold Distribution.verifyBoard. rewrite Hscan.
  split; [reflexivity|]. cbn [Distribution.Verification.validWhite
    Distribution.Verification.validBlack Distribution.Verification.result
    Distribution.Result.white Distribution.Result.black].
  split; [exact HvW|]. split; [exact HvB|].
  repeat constructor; assumption.
Qed.

Lemma generated_board_fails_king_queen_rule_witness :
  exists b v,
    Distribution.generateBoard Sample.dice 0 = Some (b, 60)
    /\ Distribution.verifyBoard b = Some v
    /\ Distribution.Verification.validWhite v
       = Distribution.Validity.mk true true true false
    /\ Distribution.Verification.validBlack v
       = Distribution.Validity.mk true true true false
    /\ Forall (fun t => Distribution.Tally.king t = Some Distribution.light
                        /\ Distribution.Tally.queen t = Some Distribution.light)
         [Distribution.Result.white (Distribution.Verification.result v);
          Distribution.Result.black (Distribution.Verification.result v)].
Proof.
  apply (generated_board_fails_king_queen_rule Sample.dice 0).
  apply ShuffleFacts.dice_inUnit.
Defined.

(** X27. The material and the layout of a generated board.  Each colour has
    exactly the pieces of the requirement list (two bishops, two rooks, two
    knights, a queen, a king, eight pawns); the white pieces fill rows 0 and
    1, the black pieces rows 6 and 7, and the rows between are empty. *)
Theorem generated_board_material (random : nat -> Q) (n : nat) :
  inUnit random ->
  exists b n',
    Distribution.generateBoard random n = Some (b, n')
    /\ is8x8 b
    /\ (forall color, color = "white" \/ color = "black" ->
          Forall (fun req =>
                    length (hits b (Distribution.Requirement.type req) color
                              Engine.squares)
                    = Distribution.Requirement.count req)
            Distribution.requirements)
    /\ forall r c, r < 8 -> c < 8 ->
         match Engine.cell b r c with
         | Some piece =>
             (r < 2 /\ Piece.color piece = "white")
             \/ (6 <= r /\ Piece.color piece = "black")
         | None => 2 <= r < 6
         end.
Proof.
  intros _.
  destruct (GeneratedFacts.generated_board_entries random n)
    as (b & entries & Hgen & Hb & Hcell & Hnd & Hlen & Hrows & Hselect).
  assert (Hrange : Forall (fun sq : nat * nat => sq.1 < 8 /\ sq.2 < 8) (map fst entries)).
  { apply List.Forall_forall. intros sq Hin.
    apply in_map_iff in Hin as (e & <- & Hin).
    rewrite List.Forall_forall in Hrows. apply Hrows in Hin. lia. }
  exists b, (n + 60). split; [exact Hgen|]. split; [exact Hb|]. split.
  - intros color Hcolor.
    destruct (Hselect color Hcolor)
      as (Hpawns & l0 & l1 & l2 & l3 & l4 & d0 & d1 & d2 & _ & _
          & Hbi & Hro & Hkn & Hqu & Hki).
    unfold Distribution.requirements.
    repeat (apply List.Forall_cons;
            [cbn [Distribution.Requirement.type Distribution.Requirement.count];
             rewrite (Permutation_length
                        (CensusFacts.hits_entries b entries _ color Hcell Hnd Hrange))|]);
      [by rewrite Hbi | by rewrite Hro | by rewrite Hkn | by rewrite Hqu
      | by rewrite Hki | exact Hpawns | apply List.Forall_nil].
  - intros r c Hr Hc.
    destruct (Engine.cell b r c) as [piece|] eqn:Hp.
    + apply Hcell in Hp. rewrite List.Forall_forall in Hrows.
      apply Hrows in Hp. simpl in Hp.
      destruct Hp as [_ [[Hrow Hcol]|[[Hrow _] Hcol]]]; [by left | by right].
    + destruct (decide (2 <= r < 6)) as [|Hout]; [done|]. exfalso.
      assert (Hall : incl (Distribution.squaresOf [0; 1; 6; 7]) (map fst entries)).
      { apply NoDup_length_incl.
        - by apply NoDup_ListNoDup.
        - by rewrite length_map, Hlen.
        - intros [r' c'] Hin. apply in_map_iff in Hin as (e & Heq & Hin).
          rewrite List.Forall_forall in Hrows. apply Hrows in Hin.
          rewrite Heq in Hin. simpl in Hin.
          apply BoardFacts.squaresOf_In. simpl. lia. }
      assert (Hin : In (r, c) (map fst entries)).
      { apply Hall, BoardFacts.squaresOf_In. simpl. lia. }
      apply in_map_iff in Hin as ([[r' c'] piece] & [= -> ->] & Hin).
      apply Hcell in Hin. congruence.
Qed.

Lemma generated_board_material_witness :
  exists b n',
    Distribution.generateBoard Sample.dice 0 = Some (b, n')
    /\ is8x8 b
    /\ (forall color, color = "white" \/ color = "black" ->
          Forall (fun req =>
                    length (hits b (Distribution.Requirement.type req) color
                              Engine.squares)
                    = Distribution.Requirement.count req)
            Distribution.requirements)
    /\ forall r c, r < 8 -> c < 8 ->
         match Engine.cell b r c with
         | Some piece =>
             (r < 2 /\ Piece.color piece = "white")
             \/ (6 <= r /\ Piece.color piece = "black")
         | None => 2 <= r < 6
         end.
Proof.
  apply (generated_board_material Sample.dice 0).
  apply ShuffleFacts.dice_inUnit.
Defined.

Module ThrowFacts.
Import Distribution.

Lemma scan_None_stays (b : board) sqs : foldl (scanSquare b) None sqs = None.
Proof. induction sqs as [|sq sqs IH]; [done | exact IH]. Qed.

Lemma tallyPiece_None r c piece res :
  tallyPiece r c piece res = None <-> stray piece.
Proof.
  unfold tallyPiece, stray.
  destruct (counted (Piece.pieceType piece)); [|split; [done | by intros [? _]]].
  destruct (String.eqb_spec (Piece.color piece) "white") as [Hw|Hw];
    [split; [done | by intros (_ & ? & _)]|].
  destruct (String.eqb_spec (Piece.color piece) "black") as [Hb|Hb];
    [split; [done | by intros (_ & _ & ?)]|].
  done.
Qed.

Lemma scanSquare_None (b : board) res sq :
  scanSquare b (Some res) sq = None
  <-> length b <= sq.1
      \/ exists piece, Engine.cell b sq.1 sq.2 = Some piece /\ stray piece.
Proof.
  unfold scanSquare, Engine.cell.
  destruct (b !! sq.1) as [row|] eqn:Hrow.
  - apply lookup_lt_Some in Hrow.
    destruct (cellAt row sq.2) as [piece|].
    + rewrite tallyPiece_None. split.
      * intros Hs. right. by exists piece.
      * intros [?|(piece' & [= <-] & Hs)]; [lia | done].
    + split; [done|]. intros [?|(piece' & ? & _)]; [lia | done].
  - apply lookup_ge_None in Hrow. split; [by left | done].
Qed.

(** The scan throws exactly when it meets a missing row or a stray piece. *)
Lemma scan_None (b : board) sqs res :
  foldl (scanSquare b) (Some res) sqs = None
  <-> exists sq, In sq sqs
        /\ (length b <= sq.1
            \/ exists piece, Engine.cell b sq.1 sq.2 = Some piece /\ stray piece).
Proof.
  revert res. induction sqs as [|sq sqs IH]; intros res; cbn [foldl].
  - split; [done | by intros (? & [] & _)].
  - destruct (scanSquare b (Some res) sq) as [res'|] eqn:Hstep.
    + rewrite IH. split.
      * intros (sq' & Hin & Hbad). exists sq'. split; [by right | done].
      * intros (sq' & [<-|Hin] & Hbad); [|by exists sq'].
        apply (scanSquare_None b res) in Hbad. congruence.
    + rewrite scan_None_stays. split; [|done]. intros _.
      exists sq. split; [by left|]. by apply (scanSquare_None b res).
Qed.

Lemma startBoard_twoColours : twoColours Sample.startBoard.
Proof.
  intros r c piece Hr Hc Hp _.
  do 8 (destruct r as [|r];
        [do 8 (destruct c as [|c];
               [vm_compute in Hp;
                first [discriminate | injection Hp as <-; first [by left | by right]]|]);
         lia|]).
  lia.
Qed.

End ThrowFacts.

(** X28. [verifyBoard] throws exactly when the board has fewer than eight
    rows or holds, in the 8x8 window, a bishop, rook, knight, king or queen
    whose colour is neither white nor black; pawns and pieces of other
    types are never looked up by colour. *)
Theorem verifyBoard_throws_iff (b : board) :
  Distribution.verifyBoard b = None
  <-> length b < 8
      \/ exists r c piece,
           r < 8 /\ c < 8 /\ Engine.cell b r c = Some piece /\ stray piece.
Proof.
  unfold Distribution.verifyBoard.
  destruct (foldl (Distribution.scanSquare b) _ Engine.squares) as [res|] eqn:Hscan.
  - split; [done|]. intros Hbad.
    assert (Hnone : foldl (Distribution.scanSquare b)
                      (Some (Distribution.Result.mk Distribution.emptyTally
                               Distribution.emptyTally)) Engine.squares = None);
      [|congruence].
    apply ThrowFacts.scan_None. destruct Hbad as [Hlen|(r & c & piece & Hr & Hc & Hp & Hs)].
    + exists (7, 0). split; [apply PatternFacts.squares_In; lia|]. left. simpl. lia.
    + exists (r, c). split; [by apply PatternFacts.squares_In|].
      right. by exists piece.
  - split; [|done]. intros _.
    apply ThrowFacts.scan_None in Hscan as ([r c] & Hin & Hbad).
    apply PatternFacts.squares_In in Hin as [Hr Hc]. simpl in Hbad.
    destruct Hbad as [Hlen|(piece & Hp & Hs)]; [left; lia|].
    right. by exists r, c, piece.
Qed.

(** X29. On a board of at least eight rows whose pieces are white or black
    [verifyBoard] returns, and its four flags for a colour are those of
    [verdict]: in particular the [kingQueen] flag is true for a side that
    has a king and no queen, and the rook and knight flags are false for a
    side with a third rook or knight. *)
Theorem verifyBoard_verdict (b : board) :
  8 <= length b ->
  twoColours b ->
  exists v,
    Distribution.verifyBoard b = Some v
    /\ Distribution.Verification.validWhite v = verdict b "white"
    /\ Distribution.Verification.validBlack v = verdict b "black".
Proof.
  intros Hlen Hcol. unfold Distribution.verifyBoard.
  rewrite VerifyFacts.scan_fold; [|done|done|].
  - eexists. split; [reflexivity|].
    cbn [Distribution.Verification.validWhite Distribution.Verification.validBlack
         Distribution.Result.white Distribution.Result.black].
    split.
    + destruct (VerifyFacts.noteSquare_fold b "white" Engine.squares Distribution.emptyTally)
        as (Hr & Hk & Hking & Hqueen & Hl & Hd).
      unfold Distribution.validate, verdict. rewrite Hr, Hk, Hking, Hqueen, Hl, Hd.
      generalize (hits b "bishop" "white" Engine.squares),
        (hits b "rook" "white" Engine.squares), (hits b "knight" "white" Engine.squares),
        (last (hits b "king" "white" Engine.squares)),
        (last (hits b "queen" "white" Engine.squares)).
      intros bishops rooks knights king queen.
      cbn [Distribution.emptyTally Distribution.Tally.rooks Distribution.Tally.knights
           Distribution.Tally.king Distribution.Tally.queen
           Distribution.Tally.bishopsLight Distribution.Tally.bishopsDark app orb].
      by destruct king, queen.
    + destruct (VerifyFacts.noteSquare_fold b "black" Engine.squares Distribution.emptyTally)
        as (Hr & Hk & Hking & Hqueen & Hl & Hd).
      unfold Distribution.validate, verdict. rewrite Hr, Hk, Hking, Hqueen, Hl, Hd.
      generalize (hits b "bishop" "black" Engine.squares),
        (hits b "rook" "black" Engine.squares), (hits b "knight" "black" Engine.squares),
        (last (hits b "king" "black" Engine.squares)),
        (last (hits b "queen" "black" Engine.squares)).
      intros bishops rooks knights king queen.
      cbn [Distribution.emptyTally Distribution.Tally.rooks Distribution.Tally.knights
           Distribution.Tally.king Distribution.Tally.queen
           Distribution.Tally.bishopsLight Distribution.Tally.bishopsDark app orb].
      by destruct king, queen.
  - apply List.Forall_forall. intros [r c] Hin.
    by apply PatternFacts.squares_In in Hin.
Qed.

Lemma verifyBoard_verdict_witness :
  exists v,
    Distribution.verifyBoard Sample.startBoard = Some v
    /\ Distribution.Verification.validWhite v
       = Distribution.Validity.mk true true true true
    /\ Distribution.Verification.validBlack v
       = Distribution.Validity.mk true true true true.
Proof.
  apply (verifyBoard_verdict Sample.startBoard).
  - simpl. lia.
  - apply ThrowFacts.startBoard_twoColours.
Defined.

Module FenFacts.
Import Engine.

Lemma append_inj_l (s a b : string) : s +:+ a = s +:+ b -> a = b.
Proof. induction s as [|c s IH]; simpl; [done|]. intros [= H]. by apply IH. Qed.

Lemma boardToFEN_total (b : board) currentPlayer :
  8 <= length b ->
  exists placement,
    scanRows Piece.type b (seq 0 8) EmptyString = Some placement
    /\ boardToFEN b currentPlayer
       = Some (placement +:+ (if String.eqb currentPlayer "white" then " w" else " b")).
Proof.
  intros Hlen. unfold boardToFEN.
  destruct (KeyFacts.scanRows_total Piece.type b (seq 0 8) EmptyString) as [placement ->].
  - eapply Forall_impl; [apply (KeyFacts.seq_below 8)|]. intros r Hr. simpl in Hr. lia.
  - by exists placement.
Qed.

End FenFacts.

(** X30. Unlike the key, the summary [boardToFEN] stores with a record tells
    the side to move: on a board of at least eight rows it returns, and two
    calls on the same board agree exactly when both players are white or
    neither is; any player other than [white] is printed as [b]. *)
Theorem boardToFEN_side_to_move (b : board) (player1 player2 : string) :
  8 <= length b ->
  is_Some (Engine.boardToFEN b player1)
  /\ (Engine.boardToFEN b player1 = Engine.boardToFEN b player2
      <-> (player1 = "white" <-> player2 = "white")).
Proof.
  intros Hlen.
  destruct (FenFacts.boardToFEN_total b player1 Hlen) as (placement & Hscan & ->).
  destruct (FenFacts.boardToFEN_total b player2 Hlen) as (placement' & Hscan' & ->).
  assert (placement' = placement) as -> by congruence.
  split; [by eexists|].
  destruct (String.eqb_spec player1 "white") as [->|H1],
           (String.eqb_spec player2 "white") as [->|H2].
  - tauto.
  - split; [|tauto]. intros [= Heq]. by apply FenFacts.append_inj_l in Heq.
  - split; [|tauto]. intros [= Heq]. by apply FenFacts.append_inj_l in Heq.
  - tauto.
Qed.

Lemma boardToFEN_side_to_move_witness :
  is_Some (Engine.boardToFEN Sample.startBoard "white")
  /\ (Engine.boardToFEN Sample.startBoard "white"
      = Engine.boardToFEN Sample.startBoard "black"
      <-> ("white" = "white" <-> "black" = "white")).
Proof.
  apply (boardToFEN_side_to_move Sample.startBoard "white" "black").
  simpl. lia.
Defined.
